(** * email_deleter: a shallow embedding of [email_deleter.go]

    The Go program walks a Gmail mailbox page by page, groups the messages by
    sender and moves all messages of a chosen sender to the trash.  This file
    embeds the functions [extractEmail], [getSenderStats], [deleteEmails],
    [saveToken], [tokenFromFile], [getTokenFromWeb] and [getClient] and proves
    properties of them.

    Modelling conventions
    - a Go [string] is a sequence of bytes: [String.string];
    - Go's [int] is the 64-bit two's complement integer: a [Z] with the
      wrap-around of [+] written out ([GoInt.add]);
    - a slice is a [list]; the nil slice is [[]];
    - [map[string]*SenderStats] is a [gmap string SenderStats]; the pointer
      indirection only serves the in-place update of a record and is
      rendered by re-inserting the updated record;
    - a Go [error] is [option string]: [None] is [nil], [Some msg] an error
      whose [Error()] text is [msg];
    - a call into a library that returns [(value, err)] yields a [result]:
      [Ok value] when [err == nil], [Err msg] otherwise;
    - the pointers received from the Gmail client library are taken to be
      non-nil (the library fills [Payload] for [Format("metadata")]);
    - everything outside the process (the Gmail service, the file system,
      the OAuth endpoints, the clock, the Go runtime's map iteration order)
      is a [Host]: a state machine over an abstract world [W].  Every
      interaction with it is recorded, in order, in a trace of [event]s. *)

From Stdlib Require Import ZArith Lia Ascii String List.
From stdpp Require Import base option list gmap fin_maps strings pretty sorting.

Local Open Scope string_scope.
Local Open Scope list_scope.
Local Open Scope stdpp_scope.
Local Open Scope Z_scope.

(** * Part I: the program *)

(** ** Go strings *)

Module GoString.

Definition len (s : string) : Z := Z.of_nat (String.length s).

(** [strings.LastIndex(s, substr)]: the byte index of the last occurrence
    of [substr] in [s], or [-1]. *)
Fixpoint LastIndex (s substr : string) : Z :=
  match s with
  | EmptyString => if String.prefix substr EmptyString then 0 else -1
  | String _ s' =>
      let r := LastIndex s' substr in
      if 0 <=? r then r + 1
      else if String.prefix substr s then 0 else -1
  end.

(** The slice expression [s[lo:hi]].  Go panics unless
    [0 <= lo <= hi <= len(s)]; the only use in the program is guarded
    (lemma [extractEmail_slice_in_bounds]). *)
Definition slice (s : string) (lo hi : Z) : string :=
  String.substring (Z.to_nat lo) (Z.to_nat (hi - lo)) s.

(** The bytes of a string, and the one-byte string. *)
Definition bytes (s : string) : list ascii := list_ascii_of_string s.

Definition byte_string (c : ascii) : string := String c EmptyString.

Definition nl : string := byte_string "010"%char.

End GoString.

(** ** Go's [int] *)

Module GoInt.

Definition max_int : Z := 2 ^ 63 - 1.
Definition min_int : Z := - 2 ^ 63.

Definition wrap (z : Z) : Z := (z + 2 ^ 63) mod 2 ^ 64 - 2 ^ 63.

Definition add (a b : Z) : Z := wrap (a + b).

(** [a % b] truncates towards zero. *)
Definition rem (a b : Z) : Z := Z.rem a b.

(** [len(s)] of a slice. *)
Definition len {A} (l : list A) : Z := Z.of_nat (length l).

(** [%d] *)
Definition fmt_d (z : Z) : string := pretty z.

End GoInt.

Import GoString.

(** ** [extractEmail] *)

(**
<<
func extractEmail(from string) string {
	start := strings.LastIndex(from, "<")
	end := strings.LastIndex(from, ">")
	if start >= 0 && end > start {
		return from[start+1 : end]
	}
	return from
}
>> *)
Definition extractEmail (from : string) : string :=
  let start := LastIndex from "<" in
  let end_ := LastIndex from ">" in
  if (start >=? 0) && (end_ >? start) then slice from (start + 1) end_
  else from.

(** ** Data *)

Definition error : Type := option string.

Inductive result (A : Type) : Type :=
| Ok (a : A)
| Err (msg : string).
Arguments Ok {A} a.
Arguments Err {A} msg.

(** The parts of the [gmail/v1] types that the program reads. *)
Record MessagePartHeader := { Name : string; Value : string }.
Record MessagePart := { Headers : list MessagePartHeader }.
Record Message := { Id : string; LabelIds : list string; Payload : MessagePart }.
Record ListMessagesResponse :=
  { Messages : list Message; NextPageToken : string }.

(**
<<
type SenderStats struct {
	Email string
	Count int
	Ids   []string
}
>> *)
Record SenderStats := { Email : string; Count : Z; Ids : list string }.

(** The parts of [oauth2.Config] and [oauth2.Token] that matter here, and the
    [*http.Client] that [config.Client(ctx, tok)] builds: it authenticates
    with the token it was given. *)
Record Config :=
  { ClientID : string; ClientSecret : string; RedirectURL : string }.
Record Token :=
  { AccessToken : string; RefreshToken : string; Expiry : string }.
Record Client := { client_config : Config; client_token : option Token }.

#[global] Instance MessagePartHeader_eq_dec : EqDecision MessagePartHeader.
Proof. solve_decision. Defined.
#[global] Instance MessagePart_eq_dec : EqDecision MessagePart.
Proof. solve_decision. Defined.
#[global] Instance Message_eq_dec : EqDecision Message.
Proof. solve_decision. Defined.
#[global] Instance ListMessagesResponse_eq_dec : EqDecision ListMessagesResponse.
Proof. solve_decision. Defined.
#[global] Instance SenderStats_eq_dec : EqDecision SenderStats.
Proof. solve_decision. Defined.
#[global] Instance result_eq_dec {A} `{EqDecision A} : EqDecision (result A).
Proof. solve_decision. Defined.

(** ** The host and the trace of interactions *)

Inductive event : Type :=
| EvList (pageToken : option string) (resp : result ListMessagesResponse)
| EvGet (id : string) (resp : result Message)
| EvTrash (id : string) (resp : result Message)
| EvSleep (nanoseconds : Z)
| EvPrint (text : string)
| EvLog (text : string)
| EvReadFile (path : string) (resp : result string)
| EvWriteFile (path data : string) (perm : Z) (resp : error)
| EvCallback (code : string)
| EvRespond (status : Z) (body : string)
| EvExchange (code : string) (resp : result Token)
| EvShutdown (resp : error).

Record Host (W : Type) : Type := {
  (** [srv.Users.Messages.List("me")[.PageToken(t)].Do()] *)
  Messages_List : option string -> W -> result ListMessagesResponse * W;
  (** [srv.Users.Messages.Get("me", id).Format("metadata").Do()] *)
  Messages_Get : string -> W -> result Message * W;
  (** [srv.Users.Messages.Trash("me", id).Do()] *)
  Messages_Trash : string -> W -> result Message * W;
  (** [time.Sleep(d)] lets the world go on for [d] nanoseconds *)
  time_Sleep : Z -> W -> W;
  (** the order in which [range] visits a map is chosen by the runtime,
      anew for every loop; it visits every entry once *)
  map_range : gmap string SenderStats -> W -> list (string * SenderStats) * W;
  map_range_perm : forall m w, (map_range m w).1 ≡ₚ map_to_list m;
  (** [os.ReadFile], [os.WriteFile] *)
  os_ReadFile : string -> W -> result string * W;
  os_WriteFile : string -> string -> Z -> W -> error * W;
  (** [json.Marshal(token)], and [json.Unmarshal(data, tok)] on a fresh
      token: the token after the call and the error *)
  json_Marshal : option Token -> result string;
  json_Unmarshal : string -> Token * error;
  (** [config.AuthCodeURL(state, oauth2.AccessTypeOffline)] *)
  AuthCodeURL : Config -> string -> string;
  (** the [code] query parameter of the request that reaches [/callback] *)
  callback_request : W -> string * W;
  (** [config.Exchange(ctx, code)] *)
  Exchange : Config -> string -> W -> result Token * W;
  (** [srv.Shutdown(ctx)] of the callback server *)
  Shutdown : W -> error * W
}.
Arguments Messages_List {W} _ _ _.
Arguments Messages_Get {W} _ _ _.
Arguments Messages_Trash {W} _ _ _.
Arguments time_Sleep {W} _ _ _.
Arguments map_range {W} _ _ _.
Arguments map_range_perm {W} _ _ _.
Arguments os_ReadFile {W} _ _ _.
Arguments os_WriteFile {W} _ _ _ _ _.
Arguments json_Marshal {W} _ _.
Arguments json_Unmarshal {W} _ _.
Arguments AuthCodeURL {W} _ _ _.
Arguments callback_request {W} _ _.
Arguments Exchange {W} _ _ _ _.
Arguments Shutdown {W} _ _.

(** The state of the process: the world and the package-level variables
<<
var (
	authCode string
	authErr  error
	wg       sync.WaitGroup
)
>>
    [wg] only serves the rendezvous of [getTokenFromWeb] with the callback
    handler, which is rendered by running the handler at [wg.Wait()]. *)
Record Proc (W : Type) : Type :=
  { world : W; authCode : string; authErr : error }.
Arguments world {W} _.
Arguments authCode {W} _.
Arguments authErr {W} _.

Definition set_world {W} (p : Proc W) (w : W) : Proc W :=
  {| world := w; authCode := authCode p; authErr := authErr p |}.
Definition set_authCode {W} (p : Proc W) (c : string) : Proc W :=
  {| world := world p; authCode := c; authErr := authErr p |}.
Definition set_authErr {W} (p : Proc W) (e : error) : Proc W :=
  {| world := world p; authCode := authCode p; authErr := e |}.

(** A computation returns a value, a new process state and the events it
    caused, oldest first. *)
Definition M (W A : Type) : Type := Proc W -> A * Proc W * list event.

Definition ret {W A} (a : A) : M W A := fun p => (a, p, []).

Definition bind {W A B} (m : M W A) (k : A -> M W B) : M W B :=
  fun p =>
    let '(a, p1, t1) := m p in
    let '(b, p2, t2) := k a p1 in
    (b, p2, t1 ++ t2).

Notation "'let*' x ':=' m 'in' k" := (bind m (fun x => k))
  (at level 10, x pattern, m at level 100, k at level 200).

Definition call {W A} (op : W -> A * W) (ev : A -> event) : M W A :=
  fun p => let '(a, w) := op (world p) in (a, set_world p w, [ev a]).

Definition emit {W} (ev : event) : M W unit := fun p => (tt, p, [ev]).

(** [fmt.Printf] and [log.Printf], after formatting. *)
Definition Printf {W} (text : string) : M W unit := emit (EvPrint text).
Definition log_Printf {W} (text : string) : M W unit := emit (EvLog text).

Definition Millisecond : Z := 1000000.

Definition Sleep {W} (h : Host W) (d : Z) : M W unit :=
  fun p => (tt, set_world p (time_Sleep h d (world p)), [EvSleep d]).

(** What a run produced. *)
Definition value {W A} (r : A * Proc W * list event) : A := r.1.1.
Definition final {W A} (r : A * Proc W * list event) : Proc W := r.1.2.
Definition trace {W A} (r : A * Proc W * list event) : list event := r.2.

(** A process that has not touched its globals yet. *)
Definition start {W} (w : W) : Proc W :=
  {| world := w; authCode := ""; authErr := None |}.

(** ** [deleteEmails] *)

Section Program.
Context {W : Type} (h : Host W).

Definition Trash (id : string) : M W (result Message) :=
  call (Messages_Trash h id) (EvTrash id).

(**
<<
		isInTrash := false
		for _, label := range email.LabelIds {
			if label == "TRASH" {
				isInTrash = true
				break
			}
		}
>> *)
Fixpoint label_loop (labels : list string) (isInTrash : bool) : bool :=
  match labels with
  | [] => isInTrash
  | label :: rest =>
      if String.eqb label "TRASH" then true else label_loop rest isInTrash
  end.

(** The [for _, id := range ids] loop with its two local variables.
<<
	for _, id := range ids {
		email, err := srv.Users.Messages.Trash("me", id).Do()
		if err != nil {
			deleteErrors = append(deleteErrors, fmt.Sprintf("failed to delete message %s: %v", id, err))
			continue
		}
		(isInTrash loop)
		if !isInTrash {
			deleteErrors = append(deleteErrors, fmt.Sprintf("message %s was not moved to trash successfully", id))
		} else {
			successCount++
			if successCount%10 == 0 {
				fmt.Printf("Successfully deleted %d emails...\n", successCount)
			}
		}
		time.Sleep(100 * time.Millisecond)
	}
>> *)
Fixpoint delete_loop (ids : list string) (deleteErrors : list string)
    (successCount : Z) : M W (list string * Z) :=
  match ids with
  | [] => ret (deleteErrors, successCount)
  | id :: rest =>
      let* r := Trash id in
      match r with
      | Err err =>
          delete_loop rest
            (deleteErrors ++ ["failed to delete message " +:+ id +:+ ": " +:+ err])
            successCount
      | Ok email =>
          let isInTrash := label_loop (LabelIds email) false in
          let* st :=
            (if negb isInTrash then
               ret (deleteErrors ++
                      ["message " +:+ id +:+ " was not moved to trash successfully"],
                    successCount)
             else
               let successCount := GoInt.add successCount 1 in
               let* _ :=
                 (if GoInt.rem successCount 10 =? 0 then
                    Printf ("Successfully deleted " +:+ GoInt.fmt_d successCount
                            +:+ " emails..." +:+ nl)
                  else ret tt) in
               ret (deleteErrors, successCount)) in
          let* _ := Sleep h (100 * Millisecond) in
          delete_loop rest st.1 st.2
      end
  end.

(**
<<
	for _, errMsg := range deleteErrors {
		fmt.Printf("- %s\n", errMsg)
	}
>> *)
Fixpoint print_errors (deleteErrors : list string) : M W unit :=
  match deleteErrors with
  | [] => ret tt
  | errMsg :: rest =>
      let* _ := Printf ("- " +:+ errMsg +:+ nl) in print_errors rest
  end.

(**
<<
func deleteEmails(srv *gmail.Service, ids []string) error {
	var deleteErrors []string
	successCount := 0
	(loop)
	fmt.Printf("\nDeletion Summary:\n")
	fmt.Printf("Successfully deleted: %d emails\n", successCount)
	if len(deleteErrors) > 0 {
		fmt.Printf("Failed to delete: %d emails\n", len(deleteErrors))
		fmt.Printf("Error details:\n")
		(print loop)
		return fmt.Errorf("some deletions failed: %d errors occurred", len(deleteErrors))
	}
	return nil
}
>> *)
Definition deleteEmails (ids : list string) : M W error :=
  let* st := delete_loop ids [] 0 in
  let deleteErrors := st.1 in
  let successCount := st.2 in
  let* _ := Printf (nl +:+ "Deletion Summary:" +:+ nl) in
  let* _ := Printf ("Successfully deleted: " +:+ GoInt.fmt_d successCount
                    +:+ " emails" +:+ nl) in
  if GoInt.len deleteErrors >? 0 then
    let* _ := Printf ("Failed to delete: " +:+ GoInt.fmt_d (GoInt.len deleteErrors)
                      +:+ " emails" +:+ nl) in
    let* _ := Printf ("Error details:" +:+ nl) in
    let* _ := print_errors deleteErrors in
    ret (Some ("some deletions failed: " +:+ GoInt.fmt_d (GoInt.len deleteErrors)
               +:+ " errors occurred"))
  else ret None.

(** ** [getSenderStats] *)

Definition List_Do (pageToken : option string) : M W (result ListMessagesResponse) :=
  call (Messages_List h pageToken) (EvList pageToken).

Definition Get_Do (id : string) : M W (result Message) :=
  call (Messages_Get h id) (EvGet id).

(**
<<
	if stats, exists := senderMap[email]; exists {
		stats.Count++
		stats.Ids = append(stats.Ids, msg.Id)
	} else {
		senderMap[email] = &SenderStats{
			Email: email,
			Count: 1,
			Ids:   []string{msg.Id},
		}
	}
>> *)
Definition upsert (email id : string) (senderMap : gmap string SenderStats)
    : gmap string SenderStats :=
  match senderMap !! email with
  | Some stats =>
      <[email := {| Email := Email stats;
                    Count := GoInt.add (Count stats) 1;
                    Ids := Ids stats ++ [id] |}]> senderMap
  | None =>
      <[email := {| Email := email; Count := 1; Ids := [id] |}]> senderMap
  end.

(**
<<
	for _, header := range message.Payload.Headers {
		if header.Name == "From" {
			email := extractEmail(header.Value)
			(insert or update)
			break
		}
	}
>> *)
Fixpoint header_loop (headers : list MessagePartHeader) (id : string)
    (senderMap : gmap string SenderStats) : gmap string SenderStats :=
  match headers with
  | [] => senderMap
  | header :: rest =>
      if String.eqb (Name header) "From" then
        let email := extractEmail (Value header) in
        upsert email id senderMap
      else header_loop rest id senderMap
  end.

(**
<<
	for _, msg := range r.Messages {
		message, err := srv.Users.Messages.Get("me", msg.Id).Format("metadata").Do()
		if err != nil {
			fmt.Printf("Could not get metadata for email ID %s, continuing\n", msg.Id)
			continue
		}
		(header loop)
	}
>> *)
Fixpoint message_loop (msgs : list Message)
    (senderMap : gmap string SenderStats) : M W (gmap string SenderStats) :=
  match msgs with
  | [] => ret senderMap
  | msg :: rest =>
      let* r := Get_Do (Id msg) in
      match r with
      | Err _ =>
          let* _ := Printf ("Could not get metadata for email ID " +:+ Id msg
                            +:+ ", continuing" +:+ nl) in
          message_loop rest senderMap
      | Ok message =>
          message_loop rest
            (header_loop (Headers (Payload message)) (Id msg) senderMap)
      end
  end.

(** The page token of a request: none unless the loop has one.
<<
	if pageToken != "" {
		req.PageToken(pageToken)
	}
>> *)
Definition page_request (pageToken : string) : option string :=
  if String.eqb pageToken "" then None else Some pageToken.

(** How the page loop is left: by [return nil, err] or by [break]. *)
Inductive loop_exit : Type :=
| Return (stats : list SenderStats) (err : error)
| Break (senderMap : gmap string SenderStats).

(** The unbounded [for { ... }] loop.  [fuel] bounds the number of
    iterations; [None] means that the loop is still running when the fuel
    is used up.
<<
	pageToken := ""
	for {
		req := srv.Users.Messages.List("me")
		if pageToken != "" {
			req.PageToken(pageToken)
		}
		r, err := req.Do()
		if err != nil {
			return nil, err
		}
		(message loop)
		if r.NextPageToken == "" {
			break
		}
		pageToken = r.NextPageToken
	}
>> *)
Fixpoint page_loop (fuel : nat) (pageToken : string)
    (senderMap : gmap string SenderStats) : M W (option loop_exit) :=
  match fuel with
  | O => ret None
  | S fuel =>
      let* r := List_Do (page_request pageToken) in
      match r with
      | Err err => ret (Some (Return [] (Some err)))
      | Ok r =>
          let* senderMap := message_loop (Messages r) senderMap in
          if String.eqb (NextPageToken r) "" then ret (Some (Break senderMap))
          else page_loop fuel (NextPageToken r) senderMap
      end
  end.

(**
<<
	var stats []SenderStats
	for _, v := range senderMap {
		stats = append(stats, *v)
	}
>> *)
Fixpoint collect_loop (entries : list (string * SenderStats))
    (stats : list SenderStats) : list SenderStats :=
  match entries with
  | [] => stats
  | (_, v) :: rest => collect_loop rest (stats ++ [v])
  end.

Definition range_map (senderMap : gmap string SenderStats)
    : M W (list (string * SenderStats)) :=
  fun p => let '(entries, w) := map_range h senderMap (world p) in
           (entries, set_world p w, []).

(**
<<
func getSenderStats(srv *gmail.Service) ([]SenderStats, error) {
	senderMap := make(map[string]*SenderStats)
	(page loop)
	(collect loop)
	return stats, nil
}
>> *)
Definition getSenderStats (fuel : nat) : M W (option (list SenderStats * error)) :=
  let* exit := page_loop fuel "" ∅ in
  match exit with
  | None => ret None
  | Some (Return stats err) => ret (Some (stats, err))
  | Some (Break senderMap) =>
      let* entries := range_map senderMap in
      let stats := collect_loop entries [] in
      ret (Some (stats, None))
  end.

(** The map that the page loop has built when it is left by [break]. *)
Definition harvest (fuel : nat) : M W (option loop_exit) := page_loop fuel "" ∅.

(** ** The token functions *)

(**
<<
func tokenFromFile(file string) ( *oauth2.Token, error) {
	data, err := os.ReadFile(file)
	if err != nil {
		return nil, err
	}
	tok := &oauth2.Token{}
	err = json.Unmarshal(data, tok)
	return tok, err
}
>> *)
Definition tokenFromFile (file : string) : M W (option Token * error) :=
  let* r := call (os_ReadFile h file) (EvReadFile file) in
  match r with
  | Err err => ret (None, Some err)
  | Ok data =>
      let '(tok, err) := json_Unmarshal h data in
      ret (Some tok, err)
  end.

(**
<<
func saveToken(path string, token *oauth2.Token) error {
	data, err := json.Marshal(token)
	if err != nil {
		return err
	}
	os.WriteFile(path, data, 0600)
	return nil
}
>> *)
Definition saveToken (path : string) (token : option Token) : M W error :=
  match json_Marshal h token with
  | Err err => ret (Some err)
  | Ok data =>
      let* _ := call (os_WriteFile h path data 384) (EvWriteFile path data 384) in
      ret None
  end.

(** The handler that [startServer] registers for [/callback].
<<
	queryCode := r.URL.Query().Get("code")
	if queryCode == "" {
		authErr = fmt.Errorf("no code in callback")
		http.Error(w, "no code provided", http.StatusBadRequest)
		wg.Done()
		return
	}
	authCode = queryCode
	fmt.Fprintf(w, "Authorisation successful.\n")
	wg.Done()
>> *)
Definition callback_handler (queryCode : string) : M W unit :=
  if String.eqb queryCode "" then
    fun p => (tt, set_authErr p (Some "no code in callback"),
              [EvRespond 400 ("no code provided" +:+ nl)])
  else
    fun p => (tt, set_authCode p queryCode,
              [EvRespond 200 ("Authorisation successful." +:+ nl)]).

(** [wg.Wait()] returns when the handler has served the request that
    reaches the listener. *)
Definition wg_Wait : M W unit :=
  let* queryCode := call (callback_request h) EvCallback in
  callback_handler queryCode.

(** The deferred function of [getTokenFromWeb].
<<
	defer func() {
		if err := srv.Shutdown(context.Background()); err != nil {
			log.Printf("HTTP server shutdown error: %v\n", err)
		}
	}()
>> *)
Definition deferred_shutdown : M W unit :=
  let* err := call (Shutdown h) EvShutdown in
  match err with
  | Some err => log_Printf ("HTTP server shutdown error: " +:+ err +:+ nl)
  | None => ret tt
  end.

(** Reading the package-level variables. *)
Definition read_authErr : M W error := fun p => (authErr p, p, []).
Definition read_authCode : M W string := fun p => (authCode p, p, []).

(** The body of [getTokenFromWeb] after [wg.Wait()]; what it returns is
    what the function returns once the deferred shutdown has run.
<<
	if authErr != nil {
		fmt.Printf("Error getting authorisation code: %v\n", authErr)
		return nil, authErr
	}
	tok, err := config.Exchange(context.Background(), authCode)
	if err != nil {
		return nil, err
	}
	return tok, nil
>> *)
Definition after_callback (config : Config) : M W (option Token * error) :=
  let* authErr := read_authErr in
  match authErr with
  | Some err =>
      let* _ := Printf ("Error getting authorisation code: " +:+ err +:+ nl) in
      ret (None, Some err)
  | None =>
      let* authCode := read_authCode in
      let* r := call (Exchange h config authCode) (EvExchange authCode) in
      match r with
      | Err err => ret (None, Some err)
      | Ok tok => ret (Some tok, None)
      end
  end.

(**
<<
func getTokenFromWeb(config *oauth2.Config) ( *oauth2.Token, error) {
	wg.Add(1)
	srv := startServer()
	defer (shutdown)
	authURL := config.AuthCodeURL("state-token", oauth2.AccessTypeOffline)
	fmt.Printf("Please visit the following URL to authorize this application:\n%v\n", authURL)
	wg.Wait()
	if authErr != nil {
		fmt.Printf("Error getting authorisation code: %v\n", authErr)
		return nil, authErr
	}
	tok, err := config.Exchange(context.Background(), authCode)
	if err != nil {
		return nil, err
	}
	return tok, nil
}
>> *)
Definition getTokenFromWeb (config : Config) : M W (option Token * error) :=
  let authURL := AuthCodeURL h config "state-token" in
  let* _ := Printf ("Please visit the following URL to authorize this application:"
                    +:+ nl +:+ authURL +:+ nl) in
  let* _ := wg_Wait in
  let* res := after_callback config in
  let* _ := deferred_shutdown in
  ret res.

(**
<<
func getClient(config *oauth2.Config) ( *http.Client, error) {
	tokFile := "token.json"
	tok, err := tokenFromFile(tokFile)
	if err != nil {
		tok, err = getTokenFromWeb(config)
		if err != nil {
			return nil, err
		}
		saveToken(tokFile, tok)
	}
	return config.Client(context.Background(), tok), nil
}
>> *)
Definition getClient (config : Config) : M W (option Client * error) :=
  let tokFile := "token.json" in
  let* r := tokenFromFile tokFile in
  match r.2 with
  | Some _ =>
      let* r := getTokenFromWeb config in
      match r.2 with
      | Some err => ret (None, Some err)
      | None =>
          let* _ := saveToken tokFile r.1 in
          ret (Some {| client_config := config; client_token := r.1 |}, None)
      end
  | None =>
      ret (Some {| client_config := config; client_token := r.1 |}, None)
  end.

End Program.

(** ** [processEmails] and [main] *)

(**
<<
type Credentials struct {
	Web struct {
		ClientID     string `json:"client_id"`
		ClientSecret string `json:"client_secret"`
	} `json:"web"`
}
>> *)
Record Credentials := { Web_ClientID : string; Web_ClientSecret : string }.

(** The order that [sort.Slice] establishes with
    [less(i, j) = senderStats[i].Count > senderStats[j].Count]: no record
    stands before a record with a greater count. *)
Definition by_count : relation SenderStats := fun a b => Count b <= Count a.

(** What [processEmails] and [main] use besides the [Host]. *)
Record Terminal (W : Type) : Type := {
  (** [fmt.Scanln(&response)] on the fresh [response] of an iteration:
      what [response] holds afterwards (the empty string when nothing
      could be scanned) *)
  Scanln : W -> string * W;
  (** [strings.ToLower] *)
  ToLower : string -> string;
  (** [sort.Slice(senderStats, less)]: the slice afterwards holds the same
      records in the order of [less]; [sort.Slice] is not stable, the order
      among records of equal count is not specified *)
  sort_Slice : list SenderStats -> list SenderStats;
  sort_Slice_perm : forall l, sort_Slice l ≡ₚ l;
  sort_Slice_sorted : forall l, StronglySorted by_count (sort_Slice l);
  (** [json.Unmarshal(data, &creds)] on the zero [creds]: [creds]
      afterwards and the error *)
  json_Unmarshal_Credentials : string -> Credentials * error;
  (** [gmail.NewService(ctx, option.WithHTTPClient(client))] *)
  gmail_NewService : option Client -> W -> error * W
}.
Arguments Scanln {W} _ _.
Arguments ToLower {W} _ _.
Arguments sort_Slice {W} _ _.
Arguments sort_Slice_perm {W} _ _.
Arguments sort_Slice_sorted {W} _ _.
Arguments json_Unmarshal_Credentials {W} _ _.
Arguments gmail_NewService {W} _ _ _.

(** How a function without result ends: it returns, the process exits
    through [log.Fatalf], an index is out of range, or the loop is still
    running when the fuel is used up. *)
Inductive ending : Type := Finished | Fatal | Panicked | Running.

Section Interactive.
Context {W : Type} (h : Host W) (t : Terminal W).

Definition scan : M W string :=
  fun p => let '(response, w) := Scanln t (world p) in (response, set_world p w, []).

(** [senderStats[i]] *)
Definition index (senderStats : list SenderStats) (i : Z) : option SenderStats :=
  if (0 <=? i) && (i <? GoInt.len senderStats) then senderStats !! Z.to_nat i
  else None.

(** The loop of [processEmails]; [fuel] bounds the number of iterations.
<<
	for i := 0; i < len(senderStats); i++ {
		sender := senderStats[i]
		fmt.Printf("%d. %s (%d emails)\n", i+1, sender.Email, sender.Count)

		var response string
		fmt.Printf("Would you like to delete all emails from %s? (yes/no/quit):\n", sender.Email)
		fmt.Scanln(&response)

		if strings.ToLower(response) == "yes" {
			fmt.Printf("Deleting emails from %s...\n", sender.Email)
			err := deleteEmails(srv, sender.Ids)
			if err != nil {
				fmt.Printf("Error deleting emails: %v\n", err)
			} else {
				fmt.Printf("Successfully deleted %d emails from %s\n", sender.Count, sender.Email)
			}
		} else if strings.ToLower(response) == "no" {
			continue
		} else if strings.ToLower(response) == "quit" {
			fmt.Printf("Quitting\n")
			break
		} else {
			fmt.Printf("Please enter 'yes', 'no' or 'quit'. Retrying current sender.\n")
			i--
		}
	}
>> *)
Fixpoint prompt_loop (fuel : nat) (senderStats : list SenderStats) (i : Z)
    : M W ending :=
  match fuel with
  | O => ret Running
  | S fuel =>
      if i <? GoInt.len senderStats then
        match index senderStats i with
        | None => ret Panicked
        | Some sender =>
            let* _ := Printf (GoInt.fmt_d (GoInt.add i 1) +:+ ". " +:+ Email sender
                              +:+ " (" +:+ GoInt.fmt_d (Count sender)
                              +:+ " emails)" +:+ nl) in
            let* _ := Printf ("Would you like to delete all emails from "
                              +:+ Email sender +:+ "? (yes/no/quit):" +:+ nl) in
            let* response := scan in
            if String.eqb (ToLower t response) "yes" then
              let* _ := Printf ("Deleting emails from " +:+ Email sender
                                +:+ "..." +:+ nl) in
              let* err := deleteEmails h (Ids sender) in
              let* _ :=
                match err with
                | Some err => Printf ("Error deleting emails: " +:+ err +:+ nl)
                | None =>
                    Printf ("Successfully deleted " +:+ GoInt.fmt_d (Count sender)
                            +:+ " emails from " +:+ Email sender +:+ nl)
                end in
              prompt_loop fuel senderStats (GoInt.add i 1)
            else if String.eqb (ToLower t response) "no" then
              prompt_loop fuel senderStats (GoInt.add i 1)
            else if String.eqb (ToLower t response) "quit" then
              let* _ := Printf ("Quitting" +:+ nl) in
              ret Finished
            else
              let* _ := Printf ("Please enter 'yes', 'no' or 'quit'. "
                                +:+ "Retrying current sender." +:+ nl) in
              let i := GoInt.add i (-1) in
              prompt_loop fuel senderStats (GoInt.add i 1)
        end
      else ret Finished
  end.

(**
<<
func processEmails(srv *gmail.Service, senderStats []SenderStats) {
	sort.Slice(senderStats, func(i, j int) bool {
		return senderStats[i].Count > senderStats[j].Count
	})
	fmt.Printf("\nTop email senders:\n")
	(loop)
}
>> *)
Definition processEmails (fuel : nat) (senderStats : list SenderStats) : M W ending :=
  let senderStats := sort_Slice t senderStats in
  let* _ := Printf (nl +:+ "Top email senders:" +:+ nl) in
  prompt_loop fuel senderStats 0.

(** [log.Fatalf]: the line on the log, then [os.Exit(1)]. *)
Definition log_Fatalf (text : string) : M W ending :=
  let* _ := log_Printf text in ret Fatal.

Definition NewService (client : option Client) : M W error :=
  fun p => let '(err, w) := gmail_NewService t client (world p) in
           (err, set_world p w, []).

(** [pages] is the fuel of the page loop, [prompts] that of the prompt
    loop.
<<
func main() {
	data, err := os.ReadFile("credentials.json")
	if err != nil {
		log.Fatalf("Unable to read credentials file: %v\n", err)
	}
	var creds Credentials
	if err := json.Unmarshal(data, &creds); err != nil {
		log.Fatalf("Unable to parse credentials: %v\n", err)
	}
	config := &oauth2.Config{
		ClientID:     creds.Web.ClientID,
		ClientSecret: creds.Web.ClientSecret,
		(endpoint and scopes)
		RedirectURL: "http://localhost:8080/callback",
	}
	client, err := getClient(config)
	if err != nil {
		log.Fatalf("Could not get authenticated client: %v\n", err)
	}
	srv, err := gmail.NewService(context.Background(), option.WithHTTPClient(client))
	if err != nil {
		log.Fatalf("Unable to create Gmail service: %v\n", err)
	}
	senderStats, err := getSenderStats(srv)
	if err != nil {
		log.Fatalf("Unable to get sender statistics: %v\n", err)
	}
	processEmails(srv, senderStats)
}
>> *)
Definition main (pages prompts : nat) : M W ending :=
  let* r := call (os_ReadFile h "credentials.json") (EvReadFile "credentials.json") in
  match r with
  | Err err => log_Fatalf ("Unable to read credentials file: " +:+ err +:+ nl)
  | Ok data =>
      let '(creds, err) := json_Unmarshal_Credentials t data in
      match err with
      | Some err => log_Fatalf ("Unable to parse credentials: " +:+ err +:+ nl)
      | None =>
          let config := {| ClientID := Web_ClientID creds;
                           ClientSecret := Web_ClientSecret creds;
                           RedirectURL := "http://localhost:8080/callback" |} in
          let* c := getClient h config in
          match c.2 with
          | Some err =>
              log_Fatalf ("Could not get authenticated client: " +:+ err +:+ nl)
          | None =>
              let* err := NewService c.1 in
              match err with
              | Some err =>
                  log_Fatalf ("Unable to create Gmail service: " +:+ err +:+ nl)
              | None =>
                  let* s := getSenderStats h pages in
                  match s with
                  | None => ret Running
                  | Some (_, Some err) =>
                      log_Fatalf ("Unable to get sender statistics: " +:+ err +:+ nl)
                  | Some (senderStats, None) => processEmails prompts senderStats
                  end
              end
          end
      end
  end.

End Interactive.

(** ** Vocabulary: sender identities *)

(** [from] is [pre], a ['<'], [mid], a ['>'], [post], and that ['<'] is the
    last one of [from]. *)
Definition bracketed (from pre mid post : string) : Prop :=
  from = pre +:+ "<" +:+ mid +:+ ">" +:+ post /\
  ("<"%char ∉ bytes mid) /\ ("<"%char ∉ bytes post).

(** ** Vocabulary: batch deletion *)

(** What a trace says about the trash calls: the calls with their answers,
    in order. *)
Definition as_trash (ev : event) : option (string * result Message) :=
  match ev with EvTrash id resp => Some (id, resp) | _ => None end.

Definition trash_calls (tr : list event) : list (string * result Message) :=
  omap as_trash tr.

(** An attempt failed at the remote call. *)
Definition remote_failure (c : string * result Message) : bool :=
  match c.2 with Err _ => true | Ok _ => false end.

(** The call returned success but the returned label set lacks the trash
    marker. *)
Definition not_trashed (c : string * result Message) : bool :=
  match c.2 with
  | Ok email => bool_decide ("TRASH" ∉ LabelIds email)
  | Err _ => false
  end.

Definition count {A} (f : A -> bool) (l : list A) : Z :=
  Z.of_nat (length (filter (fun x => f x) l)).

Definition as_sleep (ev : event) : option Z :=
  match ev with EvSleep d => Some d | _ => None end.

(** The pauses of a trace. *)
Definition sleeps (tr : list event) : list Z := omap as_sleep tr.

(** The progress line that the loop prints at every tenth success. *)
Definition progress (successCount : Z) : list event :=
  if GoInt.rem successCount 10 =? 0 then
    [EvPrint ("Successfully deleted " +:+ GoInt.fmt_d successCount
              +:+ " emails..." +:+ nl)]
  else [].

(** What [deleteEmails] prints after its loop. *)
Definition summary (deleteErrors : list string) (successCount : Z) : list event :=
  [EvPrint (nl +:+ "Deletion Summary:" +:+ nl);
   EvPrint ("Successfully deleted: " +:+ GoInt.fmt_d successCount +:+ " emails" +:+ nl)]
  ++ (if GoInt.len deleteErrors >? 0 then
        [EvPrint ("Failed to delete: " +:+ GoInt.fmt_d (GoInt.len deleteErrors)
                  +:+ " emails" +:+ nl);
         EvPrint ("Error details:" +:+ nl)]
        ++ ((fun errMsg => EvPrint ("- " +:+ errMsg +:+ nl)) <$> deleteErrors)
      else []).

(** ** Vocabulary: the harvest *)

(** What a trace says about the harvest. *)
Definition as_list (ev : event)
    : option (option string * result ListMessagesResponse) :=
  match ev with EvList req resp => Some (req, resp) | _ => None end.

Definition as_get (ev : event) : option (string * result Message) :=
  match ev with EvGet id resp => Some (id, resp) | _ => None end.

(** The page requests with their answers, and the metadata requests with
    theirs, in order. *)
Definition list_calls (tr : list event)
    : list (option string * result ListMessagesResponse) := omap as_list tr.

Definition get_calls (tr : list event) : list (string * result Message) :=
  omap as_get tr.

(** The message IDs that the pages of a trace list, in order. *)
Definition page_ids (c : option string * result ListMessagesResponse)
    : list string :=
  match c.2 with Ok r => Id <$> Messages r | Err _ => [] end.

Definition listed_ids (tr : list event) : list string :=
  mjoin (page_ids <$> list_calls tr).

(** The messages whose metadata fetch succeeded, with the ID they were
    listed under, in order. *)
Definition fetched_call (c : string * result Message) : option (string * Message) :=
  match c.2 with Ok message => Some (c.1, message) | Err _ => None end.

Definition fetched (tr : list event) : list (string * Message) :=
  omap fetched_call (get_calls tr).

(** The first header named [From] of a header list, and the sender identity
    of a message: what [extractEmail] makes of that header's value. *)
Definition first_from (headers : list MessagePartHeader) : option MessagePartHeader :=
  head (filter (fun header => Name header = "From") headers).

Definition sender_of (message : Message) : option string :=
  (fun header => extractEmail (Value header)) <$> first_from (Headers (Payload message)).

(** A fetched message has a [From] header. *)
Definition has_from (c : string * Message) : bool :=
  bool_decide (is_Some (sender_of c.2)).

(** The sender log of a trace: for every fetched message with a [From]
    header, its sender identity and its ID, in the order of the fetches. *)
Definition logged (c : string * Message) : option (string * string) :=
  (fun email => (email, c.1)) <$> sender_of c.2.

Definition senders (tr : list event) : list (string * string) :=
  omap logged (fetched tr).

(** The IDs that a sender log attributes to [email], in the order of the
    log. *)
Definition ids_of (email : string) (log : list (string * string)) : list string :=
  (filter (fun c => c.1 = email) log).*2.

(** The insert-or-update steps of a sender log, from a given map. *)
Definition upserts (senderMap : gmap string SenderStats)
    (log : list (string * string)) : gmap string SenderStats :=
  foldl (fun senderMap c => upsert c.1 c.2 senderMap) senderMap log.

(** The aggregate of a sender log: one insert-or-update step per entry. *)
Definition aggregate (log : list (string * string)) : gmap string SenderStats :=
  upserts ∅ log.

(** The record that the aggregate holds for a sender with the IDs [ids]:
    none when there are no IDs. *)
Definition record_for (email : string) (ids : list string) : option SenderStats :=
  match ids with
  | [] => None
  | _ :: _ =>
      Some {| Email := email; Count := GoInt.wrap (GoInt.len ids); Ids := ids |}
  end.

(** The IDs that a map holds for a sender: none when the sender has no
    record. *)
Definition ids_at (email : string) (senderMap : gmap string SenderStats) : list string :=
  match senderMap !! email with Some r => Ids r | None => [] end.

(** Every record of the map sits under its own [Email] and counts its
    [Ids]. *)
Definition counts_ids (senderMap : gmap string SenderStats) : Prop :=
  forall email r, senderMap !! email = Some r ->
    Email r = email /\ Count r = GoInt.len (Ids r).

(** The sum of [Count] over a slice of records. *)
Definition sum_counts (stats : list SenderStats) : Z :=
  foldr (fun r acc => Count r + acc) 0 stats.

(** The notice printed for a message whose metadata cannot be fetched. *)
Definition notice (id : string) : event :=
  EvPrint ("Could not get metadata for email ID " +:+ id +:+ ", continuing" +:+ nl).

(** Every failed metadata fetch of the trace is directly followed by the
    notice for that ID. *)
Definition notices_follow (tr : list event) : Prop :=
  forall i id msg,
    tr !! i = Some (EvGet id (Err msg)) -> tr !! S i = Some (notice id).

(** A page answer that carries a continuation token. *)
Definition has_token (c : option string * result ListMessagesResponse) : Prop :=
  exists r, c.2 = Ok r /\ NextPageToken r <> "".

(** The page requests of a harvest that starts with [pageToken]: the first
    request carries [pageToken], every answer with a continuation token is
    followed by a request carrying that token, and nothing follows a failed
    request or an answer without a token. *)
Fixpoint paginated (pageToken : string)
    (calls : list (option string * result ListMessagesResponse)) : Prop :=
  match calls with
  | [] => False
  | c :: rest =>
      c.1 = page_request pageToken /\
      match c.2 with
      | Ok r =>
          if decide (NextPageToken r = "") then rest = []
          else paginated (NextPageToken r) rest
      | Err _ => rest = []
      end
  end.

(** What holds of a page loop that has been left. *)
Definition exit_ok (senderMap : gmap string SenderStats) (tr : list event)
    (exit : loop_exit) : Prop :=
  match exit with
  | Break senderMap' =>
      senderMap' = upserts senderMap (senders tr) /\
      Forall (fun c => exists r, c.2 = Ok r) (list_calls tr)
  | Return stats err =>
      stats = [] /\ exists req msg, err = Some msg /\ (req, Err msg) ∈ list_calls tr
  end.

(** The events of a trace that are exchanges with the mailbox service
    during a harvest. *)
Definition service_event (ev : event) : bool :=
  match ev with EvList _ _ | EvGet _ _ => true | _ => false end.

Definition service_events (tr : list event) : list event :=
  filter (fun ev => service_event ev) tr.

(** ** The claims that fail, as the spec words them *)

(** C1 as the spec words it: the bytes between the last ['<'] and the
    first ['>'] after it. *)
Definition first_gt_rule : Prop :=
  forall from pre mid post,
    bracketed from pre mid post -> (">"%char ∉ bytes mid) ->
    extractEmail from = mid.

(** C3 as the spec words it: one pause of 100 ms per attempted ID. *)
Definition paced_after_every_attempt (ids : list string) (tr : list event) : Prop :=
  sleeps tr = replicate (length ids) (100 * Millisecond).

(** C4 as the spec words it: the counts add up to the number of messages
    whose metadata fetch succeeded. *)
Definition counts_add_up_to_fetched : Prop :=
  forall (W : Type) (h : Host W) (fuel : nat) (p : Proc W) (stats : list SenderStats),
    value (getSenderStats h fuel p) = Some (stats, None) ->
    (forall r, r ∈ stats -> GoInt.len (Ids r) <= GoInt.max_int) ->
    sum_counts stats = GoInt.len (fetched (trace (getSenderStats h fuel p))).

(** C5 as the spec words it: in every record the count is the number of IDs
    and the IDs are pairwise different. *)
Definition records_without_duplicates : Prop :=
  forall (W : Type) (h : Host W) (fuel : nat) (p : Proc W) (stats : list SenderStats),
    value (getSenderStats h fuel p) = Some (stats, None) ->
    (forall r, r ∈ stats -> GoInt.len (Ids r) <= GoInt.max_int) ->
    forall r, r ∈ stats -> Count r = GoInt.len (Ids r) /\ NoDup (Ids r).

(** C8 as the spec words it: a failed write of the token file is followed
    by a line on the log or on the console. *)
Definition persist_failure_logged : Prop :=
  forall (W : Type) (h : Host W) (config : Config) (p : Proc W),
    let tr := trace (getClient h config p) in
    forall i path data perm msg,
      tr !! i = Some (EvWriteFile path data perm (Some msg)) ->
      exists j text, (i < j)%nat /\
        (tr !! j = Some (EvLog text) \/ tr !! j = Some (EvPrint text)).

(** ** A scripted host *)

(** The world of a scripted host is the list of the answers that the
    mailbox still has to give to [List] calls; every other operation
    answers as the script says, whatever came before. *)
Record Script := {
  script_get : string -> result Message;
  script_trash : string -> result Message;
  script_reverse : bool;
  script_read : string -> result string;
  script_write : error;
  script_marshal : option Token -> result string;
  script_code : string;
  script_exchange : string -> result Token;
  script_shutdown : error
}.

Definition scripted_range (s : Script) (m : gmap string SenderStats)
    : list (string * SenderStats) :=
  if script_reverse s then reverse (map_to_list m) else map_to_list m.

Definition scripted_range_perm (s : Script) (m : gmap string SenderStats)
    : scripted_range s m ≡ₚ map_to_list m :=
  match script_reverse s as b
    return (if b then reverse (map_to_list m) else map_to_list m) ≡ₚ map_to_list m
  with
  | true => reverse_Permutation (map_to_list m)
  | false => Permutation_refl (map_to_list m)
  end.

Definition scripted (s : Script) : Host (list (result ListMessagesResponse)) := {|
  Messages_List := fun _ w =>
    match w with
    | [] => (Err "no more pages", [])
    | r :: rest => (r, rest)
    end;
  Messages_Get := fun id w => (script_get s id, w);
  Messages_Trash := fun id w => (script_trash s id, w);
  time_Sleep := fun _ w => w;
  map_range := fun m w => (scripted_range s m, w);
  map_range_perm := fun m w => scripted_range_perm s m;
  os_ReadFile := fun path w => (script_read s path, w);
  os_WriteFile := fun _ _ _ w => (script_write s, w);
  json_Marshal := script_marshal s;
  json_Unmarshal := fun data =>
    ({| AccessToken := data; RefreshToken := ""; Expiry := "" |}, None);
  AuthCodeURL := fun config state =>
    "https://accounts.google.com/o/oauth2/auth?client_id=" +:+ ClientID config
    +:+ "&state=" +:+ state;
  callback_request := fun w => (script_code s, w);
  Exchange := fun _ code w => (script_exchange s code, w);
  Shutdown := fun w => (script_shutdown s, w)
|}.

(** What the scripted mailbox makes of one listed ID: the events of the
    fetch, and the entry of the sender log. *)
Definition scripted_fetch (s : Script) (id : string) : list event :=
  match script_get s id with
  | Ok message => [EvGet id (Ok message)]
  | Err err => [EvGet id (Err err); notice id]
  end.

Definition scripted_log (s : Script) (id : string) : option (string * string) :=
  match script_get s id with
  | Ok message => logged (id, message)
  | Err _ => None
  end.

(** The sender identity of the message that the scripted mailbox holds
    under [id]: none when its metadata cannot be fetched or has no [From]
    header. *)
Definition scripted_sender (s : Script) (id : string) : option string :=
  match script_get s id with
  | Ok message => sender_of message
  | Err _ => None
  end.

Definition meta (id from : string) : Message :=
  {| Id := id; LabelIds := ["INBOX"];
     Payload := {| Headers := [ {| Name := "Subject"; Value := "hello" |};
                                {| Name := "From"; Value := from |} ] |} |}.

Definition listed (id : string) : Message :=
  {| Id := id; LabelIds := []; Payload := {| Headers := [] |} |}.

Definition trashed (id : string) : Message :=
  {| Id := id; LabelIds := ["CATEGORY_PROMOTIONS"; "TRASH"];
     Payload := {| Headers := [] |} |}.

Definition untouched (id : string) : Message :=
  {| Id := id; LabelIds := ["INBOX"]; Payload := {| Headers := [] |} |}.

Definition page (ids : list string) (next : string) : result ListMessagesResponse :=
  Ok {| Messages := listed <$> ids; NextPageToken := next |}.

(** A mailbox script: [m1] and [m3] come from Alice, [m2] from Bob; the
    metadata of [m4] cannot be fetched and [m5] has no [From] header;
    trashing works for [m1], fails remotely for [m2] and leaves [m3] where
    it is. *)
Definition demo : Script := {|
  script_get := fun id =>
    if String.eqb id "m1" then Ok (meta "m1" "Alice <a@x.com>")
    else if String.eqb id "m2" then Ok (meta "m2" "bob@y.org")
    else if String.eqb id "m3" then Ok (meta "m3" "a@x.com")
    else if String.eqb id "m5" then Ok (untouched "m5")
    else Err "googleapi: Error 404: Requested entity was not found.";
  script_trash := fun id =>
    if String.eqb id "m1" then Ok (trashed "m1")
    else if String.eqb id "m3" then Ok (untouched "m3")
    else Err "googleapi: Error 429: Too Many Requests";
  script_reverse := false;
  script_read := fun _ => Err "open token.json: no such file or directory";
  script_write := Some "open token.json: permission denied";
  script_marshal := fun tok =>
    match tok with Some t => Ok (AccessToken t) | None => Ok "null" end;
  script_code := "4/0AX4XfWh";
  script_exchange := fun code =>
    Ok {| AccessToken := "ya29." +:+ code; RefreshToken := "1//0g"; Expiry := "2025-01-01" |};
  script_shutdown := None
|}.

Definition demo_reversed : Script := {|
  script_get := script_get demo;
  script_trash := script_trash demo;
  script_reverse := true;
  script_read := script_read demo;
  script_write := script_write demo;
  script_marshal := script_marshal demo;
  script_code := script_code demo;
  script_exchange := script_exchange demo;
  script_shutdown := script_shutdown demo
|}.

Definition demo_config : Config :=
  {| ClientID := "1234.apps.googleusercontent.com"; ClientSecret := "s3cr3t";
     RedirectURL := "http://localhost:8080/callback" |}.

(** Mailboxes for the script [demo]: two pages; a listing that breaks at
    the second page; a listing that shows [m1] on two pages; a single
    message without [From] header. *)
Definition demo_pages : list (result ListMessagesResponse) :=
  [page ["m1"; "m2"; "m4"] "p2"; page ["m3"; "m5"] ""].

Definition demo_stats : list SenderStats :=
  [ {| Email := "a@x.com"; Count := 2; Ids := ["m1"; "m3"] |};
    {| Email := "bob@y.org"; Count := 1; Ids := ["m2"] |} ].

Definition broken_pages : list (result ListMessagesResponse) :=
  [page ["m1"; "m4"] "p2"; Err "googleapi: Error 403: Quota exceeded"].

Definition repeating_pages : list (result ListMessagesResponse) :=
  [page ["m1"] "p2"; page ["m1"] ""].

Definition headerless_pages : list (result ListMessagesResponse) :=
  [page ["m5"] ""].

(** The mailbox of the pagination scenario: pages [[A, B]], [[C]] and an
    empty last page without continuation token. *)
Definition three_pages (A B C t1 t2 : string) : list (result ListMessagesResponse) :=
  [page [A; B] t1; page [C] t2; page [] ""].

(** ** Vocabulary: further properties *)

Definition as_print (ev : event) : option string :=
  match ev with EvPrint text => Some text | _ => None end.

(** The lines that a trace prints on the console, in order. *)
Definition prints (tr : list event) : list string := omap as_print tr.

(** The text of the progress line for [n] successes. *)
Definition progress_text (n : Z) : string :=
  "Successfully deleted " +:+ GoInt.fmt_d n +:+ " emails..." +:+ nl.

(** The entry of [deleteErrors] for a trash call: none for a confirmed
    deletion. *)
Definition failure_text (c : string * result Message) : option string :=
  match c.2 with
  | Err err => Some ("failed to delete message " +:+ c.1 +:+ ": " +:+ err)
  | Ok email =>
      if bool_decide ("TRASH" ∈ LabelIds email) then None
      else Some ("message " +:+ c.1 +:+ " was not moved to trash successfully")
  end.

(** The kinds of events of a batch deletion and of a harvest. *)
Definition deletion_event (ev : event) : Prop :=
  match ev with EvTrash _ _ | EvSleep _ | EvPrint _ => True | _ => False end.

Definition harvest_event (ev : event) : Prop :=
  match ev with EvList _ _ | EvGet _ _ | EvPrint _ => True | _ => False end.

(** The IDs whose metadata fetch failed, in order. *)
Definition failed_fetch (c : string * result Message) : option string :=
  match c.2 with Err _ => Some c.1 | Ok _ => None end.

Definition notice_text (id : string) : string :=
  "Could not get metadata for email ID " +:+ id +:+ ", continuing" +:+ nl.

(** A host with a file system: the world is the content of the files.  The
    mailbox is out of reach and nobody answers the authorisation URL with a
    code. *)
Definition disk_host : Host (gmap string string) := {|
  Messages_List := fun _ w => (Err "dial tcp: no route to host", w);
  Messages_Get := fun _ w => (Err "dial tcp: no route to host", w);
  Messages_Trash := fun _ w => (Err "dial tcp: no route to host", w);
  time_Sleep := fun _ w => w;
  map_range := fun m w => (map_to_list m, w);
  map_range_perm := fun m w => Permutation_refl (map_to_list m);
  os_ReadFile := fun path w =>
    match w !! path with
    | Some data => (Ok data, w)
    | None => (Err ("open " +:+ path +:+ ": no such file or directory"), w)
    end;
  os_WriteFile := fun path data _ w => (None, <[path := data]> w);
  json_Marshal := fun tok =>
    match tok with Some t => Ok (AccessToken t) | None => Ok "null" end;
  json_Unmarshal := fun data =>
    ({| AccessToken := data; RefreshToken := ""; Expiry := "" |}, None);
  AuthCodeURL := fun config state =>
    "https://accounts.google.com/o/oauth2/auth?client_id=" +:+ ClientID config
    +:+ "&state=" +:+ state;
  callback_request := fun w => ("", w);
  Exchange := fun _ _ w => (Err "dial tcp: no route to host", w);
  Shutdown := fun w => (None, w)
|}.

Definition demo_disk : gmap string string := {["token.json" := "ya29.a0AfH6SM"]}.

Definition no_files : gmap string string := ∅.

Definition demo_token : Token :=
  {| AccessToken := "ya29.a0AfH6SM"; RefreshToken := ""; Expiry := "" |}.

(** The tail of the trace of [getTokenFromWeb]: the shutdown of the
    listener, and the log line when it fails. *)
Definition shutdown_events (resp : error) : list event :=
  EvShutdown resp ::
    match resp with
    | Some err => [EvLog ("HTTP server shutdown error: " +:+ err +:+ nl)]
    | None => []
    end.

Definition is_shutdown (ev : event) : Prop :=
  match ev with EvShutdown _ => True | _ => False end.

Definition is_exchange (ev : event) : Prop :=
  match ev with EvExchange _ _ => True | _ => False end.

Definition is_write (ev : event) : Prop :=
  match ev with EvWriteFile _ _ _ _ => True | _ => False end.

Definition is_callback (ev : event) : Prop :=
  match ev with EvCallback _ => True | _ => False end.

(** What the prompt loop prints for the sender at index [i], and its
    answers to the four kinds of response. *)
Definition shown (i : Z) (sender : SenderStats) : list event :=
  [EvPrint (GoInt.fmt_d (GoInt.add i 1) +:+ ". " +:+ Email sender
            +:+ " (" +:+ GoInt.fmt_d (Count sender) +:+ " emails)" +:+ nl);
   EvPrint ("Would you like to delete all emails from "
            +:+ Email sender +:+ "? (yes/no/quit):" +:+ nl)].

Definition deleting (sender : SenderStats) : event :=
  EvPrint ("Deleting emails from " +:+ Email sender +:+ "..." +:+ nl).

Definition deleted (sender : SenderStats) (err : error) : event :=
  match err with
  | Some err => EvPrint ("Error deleting emails: " +:+ err +:+ nl)
  | None =>
      EvPrint ("Successfully deleted " +:+ GoInt.fmt_d (Count sender)
               +:+ " emails from " +:+ Email sender +:+ nl)
  end.

Definition quitting : event := EvPrint ("Quitting" +:+ nl).

Definition retrying : event :=
  EvPrint ("Please enter 'yes', 'no' or 'quit'. "
           +:+ "Retrying current sender." +:+ nl).

Definition top_senders : event := EvPrint (nl +:+ "Top email senders:" +:+ nl).

(** The rows of the ranking from index [i] on: for every sender its
    numbered line and the question. *)
Fixpoint rows (i : Z) (senderStats : list SenderStats) : list event :=
  match senderStats with
  | [] => []
  | sender :: rest => shown i sender ++ rows (i + 1) rest
  end.

Definition is_trash (ev : event) : Prop :=
  match ev with EvTrash _ _ => True | _ => False end.

Definition is_print (ev : event) : Prop :=
  match ev with EvPrint _ => True | _ => False end.

(** A terminal for examples: every line read is [answer]; ASCII letters
    are lowered; the sort is a merge sort. *)
Definition lower_ascii (c : ascii) : ascii :=
  let n := nat_of_ascii c in
  if ((65 <=? n) && (n <=? 90))%nat then ascii_of_nat (n + 32) else c.

Fixpoint lower (s : string) : string :=
  match s with
  | EmptyString => EmptyString
  | String c s' => String (lower_ascii c) (lower s')
  end.

#[global] Instance by_count_dec (a b : SenderStats) : Decision (by_count a b).
Proof. unfold by_count. apply _. Defined.

#[global] Instance by_count_trans : Transitive by_count.
Proof. unfold by_count. intros a b c. lia. Qed.

#[global] Instance by_count_total : Total by_count.
Proof. unfold by_count. intros a b. lia. Qed.

Definition answering {W : Type} (answer : string) : Terminal W := {|
  Scanln := fun w => (answer, w);
  ToLower := lower;
  sort_Slice := merge_sort by_count;
  sort_Slice_perm := merge_sort_Permutation by_count;
  sort_Slice_sorted := StronglySorted_merge_sort by_count;
  json_Unmarshal_Credentials := fun data =>
    ({| Web_ClientID := data; Web_ClientSecret := "" |}, None);
  gmail_NewService := fun _ w => (None, w)
|}.

Definition unsorted_stats : list SenderStats :=
  [ {| Email := "bob@y.org"; Count := 1; Ids := ["m2"] |};
    {| Email := "a@x.com"; Count := 2; Ids := ["m1"; "m3"] |} ].

(** The events of the token functions: they do not touch the mailbox. *)
Definition token_event (ev : event) : Prop :=
  match ev with
  | EvList _ _ | EvGet _ _ | EvTrash _ _ | EvSleep _ => False
  | _ => True
  end.

(** The script [demo] with readable files: the credentials file and the
    token file can both be read. *)
Definition demo_online : Script := {|
  script_get := script_get demo;
  script_trash := script_trash demo;
  script_reverse := false;
  script_read := fun _ => Ok "ya29.a0AfH6SM";
  script_write := None;
  script_marshal := script_marshal demo;
  script_code := script_code demo;
  script_exchange := script_exchange demo;
  script_shutdown := script_shutdown demo
|}.

(** * Part II: properties *)

(** Closed decidable facts are settled by evaluation. *)
Ltac by_decide :=
  lazymatch goal with
  | |- ?P => apply (bool_decide_eq_true_1 P); vm_compute; reflexivity
  end.

(** ** Strings *)

Section LastIndexByte.
Variable c : ascii.

Lemma prefix_byte (a : ascii) (s : string) :
  String.prefix (byte_string c) (String a s) = bool_decide (c = a).
Proof.
  unfold byte_string. simpl.
  destruct (ascii_dec c a) as [->|Hne].
  - rewrite bool_decide_eq_true_2 by done. by destruct s.
  - by rewrite bool_decide_eq_false_2.
Qed.

Lemma LastIndex_cons (a : ascii) (s : string) :
  LastIndex (String a s) (byte_string c) =
    if 0 <=? LastIndex s (byte_string c) then LastIndex s (byte_string c) + 1
    else if bool_decide (c = a) then 0 else -1.
Proof. cbn [LastIndex]. by rewrite prefix_byte. Qed.

Lemma LastIndex_range (s : string) :
  -1 <= LastIndex s (byte_string c) < len s.
Proof.
  unfold len. induction s as [|a s IH].
  - simpl. lia.
  - rewrite LastIndex_cons. cbn [String.length].
    destruct (0 <=? _) eqn:E; [apply Z.leb_le in E; lia|].
    case_bool_decide; lia.
Qed.

Lemma LastIndex_absent (s : string) :
  c ∉ bytes s -> LastIndex s (byte_string c) = -1.
Proof.
  unfold bytes. induction s as [|a s IH]; [done|].
  cbn [list_ascii_of_string]. intros Hn.
  apply not_elem_of_cons in Hn as [Hca Hs].
  rewrite LastIndex_cons, (IH Hs). simpl.
  by rewrite bool_decide_eq_false_2.
Qed.

Lemma LastIndex_app (pre s : string) :
  LastIndex (pre +:+ s) (byte_string c) =
    if 0 <=? LastIndex s (byte_string c)
    then len pre + LastIndex s (byte_string c)
    else LastIndex pre (byte_string c).
Proof.
  unfold len. induction pre as [|a pre IH].
  - change ("" +:+ s) with s. change (Z.of_nat (String.length "")) with 0.
    destruct (0 <=? _) eqn:E.
    + lia.
    + apply Z.leb_gt in E. pose proof (LastIndex_range s).
      change (LastIndex "" (byte_string c)) with (-1). lia.
  - change (String a pre +:+ s) with (String a (pre +:+ s)).
    rewrite !LastIndex_cons, IH. cbn [String.length].
    destruct (0 <=? LastIndex s _) eqn:E; [|done].
    apply Z.leb_le in E.
    destruct (0 <=? _) eqn:E2; [lia|]. apply Z.leb_gt in E2. lia.
Qed.

Lemma LastIndex_last (pre post : string) :
  c ∉ bytes post ->
  LastIndex (pre +:+ String c post) (byte_string c) = len pre.
Proof.
  intros Hpost. rewrite LastIndex_app, LastIndex_cons, (LastIndex_absent _ Hpost).
  simpl. rewrite bool_decide_eq_true_2 by done. simpl. lia.
Qed.

Lemma LastIndex_found (s : string) :
  0 <= LastIndex s (byte_string c) ->
  exists pre post, s = pre +:+ String c post /\ (c ∉ bytes post) /\
                   LastIndex s (byte_string c) = len pre.
Proof.
  unfold len, bytes. induction s as [|a s IH].
  - simpl. lia.
  - rewrite LastIndex_cons. destruct (0 <=? _) eqn:E.
    + apply Z.leb_le in E. intros _.
      destruct (IH E) as (pre & post & -> & Hpost & Hidx).
      exists (String a pre), post. split; [done|]. split; [done|].
      rewrite Hidx. cbn [String.length]. lia.
    + apply Z.leb_gt in E. case_bool_decide as Hca; [|lia]. subst a. intros _.
      exists EmptyString, s. split; [done|]. split; [|done].
      intros Hin. pose proof (LastIndex_range s) as Hr.
      assert (LastIndex s (byte_string c) = -1) as Hm by lia.
      clear -Hin Hm. induction s as [|b s IH]; [by apply elem_of_nil in Hin|].
      rewrite LastIndex_cons in Hm. cbn [list_ascii_of_string] in Hin.
      destruct (0 <=? _) eqn:E.
      * apply Z.leb_le in E. lia.
      * case_bool_decide as Hcb; [lia|].
        apply elem_of_cons in Hin as [?|Hin]; [done|]. apply IH; [done|].
        apply Z.leb_gt in E. pose proof (LastIndex_range s). lia.
Qed.

End LastIndexByte.

Lemma bytes_app (s t : string) : bytes (s +:+ t) = bytes s ++ bytes t.
Proof. unfold bytes. induction s as [|a s IH]; simpl; [done|]. by rewrite IH. Qed.

Lemma len_app (s t : string) : len (s +:+ t) = len s + len t.
Proof.
  unfold len. induction s as [|a s IH]; [change ("" +:+ t) with t; simpl; lia|].
  change (String a s +:+ t) with (String a (s +:+ t)). cbn [String.length]. lia.
Qed.

Lemma string_app_assoc (s t u : string) : (s +:+ t) +:+ u = s +:+ t +:+ u.
Proof.
  induction s as [|a s IH]; [done|].
  change (String a s +:+ t) with (String a (s +:+ t)).
  change (String a ?x +:+ ?y) with (String a (x +:+ y)). by rewrite IH.
Qed.

Lemma len_nonneg (s : string) : 0 <= len s.
Proof. unfold len. lia. Qed.

Lemma substring_skip (pre s : string) (m : nat) :
  String.substring (String.length pre) m (pre +:+ s) = String.substring 0 m s.
Proof. induction pre as [|a pre IH]; simpl; [done|]. apply IH. Qed.

Lemma substring_take (mid rest : string) :
  String.substring 0 (String.length mid) (mid +:+ rest) = mid.
Proof.
  induction mid as [|a mid IH]; simpl.
  - by destruct rest.
  - by rewrite IH.
Qed.

Lemma slice_middle (pre mid post : string) :
  slice (pre +:+ mid +:+ post) (len pre) (len pre + len mid) = mid.
Proof.
  unfold slice, len.
  replace (Z.to_nat (Z.of_nat (String.length pre))) with (String.length pre) by lia.
  replace (Z.to_nat _) with (String.length mid) by lia.
  by rewrite substring_skip, substring_take.
Qed.

(** ** [extractEmail] *)

Example extractEmail_named : extractEmail "Alice <a@x.com>" = "a@x.com".
Proof. reflexivity. Qed.

Example extractEmail_bare : extractEmail "a@x.com" = "a@x.com".
Proof. reflexivity. Qed.

Example extractEmail_multi :
  extractEmail "A <a@x.com>, B <b@x.com>" = "b@x.com".
Proof. reflexivity. Qed.

Example extractEmail_reversed : extractEmail "a>b<c" = "a>b<c".
Proof. reflexivity. Qed.

Lemma bracketed_start from pre mid post :
  bracketed from pre mid post -> LastIndex from "<" = len pre.
Proof.
  intros (-> & Hmid & Hpost).
  apply (LastIndex_last "<"%char pre (mid +:+ ">" +:+ post)).
  rewrite bytes_app. change (bytes (">" +:+ post)) with (">"%char :: bytes post).
  rewrite elem_of_app, elem_of_cons. intros [?|[?|?]]; done.
Qed.

Lemma bracketed_end from pre mid post :
  bracketed from pre mid post -> (">"%char ∉ bytes post) ->
  LastIndex from ">" = len pre + 1 + len mid.
Proof.
  intros (-> & _ & _) Hpost.
  change (pre +:+ "<" +:+ mid +:+ ">" +:+ post)
    with (pre +:+ "<" +:+ mid +:+ String ">"%char post).
  pose proof (LastIndex_last ">"%char (pre +:+ "<" +:+ mid) post Hpost) as H.
  change (byte_string ">") with ">" in H.
  rewrite !string_app_assoc in H.
  rewrite H, !len_app. change (len "<") with 1. lia.
Qed.

(** A decomposition of [from] at its last ['<'] and its last ['>'] exists
    exactly when the guard of [extractEmail] holds. *)
Lemma guard_bracketed from :
  LastIndex from "<" >= 0 -> LastIndex from ">" > LastIndex from "<" ->
  exists pre mid post, bracketed from pre mid post /\ (">"%char ∉ bytes post).
Proof.
  intros Hs He.
  destruct (LastIndex_found "<"%char from) as (pre & suf & -> & Hsuf & Hidx);
    [change (byte_string "<") with "<"; lia|].
  change (byte_string "<") with "<" in Hidx. rewrite Hidx in He.
  pose proof (LastIndex_app ">"%char pre (String "<"%char suf)) as Happ.
  change (byte_string ">") with ">" in Happ. rewrite Happ in He. clear Happ.
  pose proof (LastIndex_cons ">"%char "<"%char suf) as Hc.
  change (byte_string ">") with ">" in Hc.
  destruct (0 <=? LastIndex (String "<" suf) ">") eqn:E.
  - rewrite Hc in E.
    destruct (0 <=? LastIndex suf ">") eqn:E2.
    + apply Z.leb_le in E2.
      destruct (LastIndex_found ">"%char suf) as (mid & post & -> & Hpost & _);
        [done|].
      exists pre, mid, post. split; [|done].
      rewrite bytes_app in Hsuf. cbn [bytes list_ascii_of_string] in Hsuf.
      fold (bytes post) in Hsuf.
      split; [done|]. split; intros Hin; apply Hsuf; rewrite elem_of_app.
      * by left.
      * right. by apply elem_of_cons; right.
    + rewrite bool_decide_eq_false_2 in E by done. simpl in E. lia.
  - pose proof (LastIndex_range ">"%char pre) as Hr.
    change (byte_string ">") with ">" in Hr. lia.
Qed.

Lemma bracketed_guard from pre mid post :
  bracketed from pre mid post ->
  LastIndex from "<" >= 0 /\ LastIndex from ">" > LastIndex from "<".
Proof.
  intros Hb. rewrite (bracketed_start _ _ _ _ Hb).
  destruct Hb as (-> & _ & _). pose proof (len_nonneg pre).
  split; [lia|].
  pose proof (LastIndex_app ">"%char (pre +:+ "<" +:+ mid) (String ">"%char post)) as Happ.
  change (byte_string ">") with ">" in Happ.
  rewrite string_app_assoc in Happ. rewrite string_app_assoc in Happ.
  change (pre +:+ "<" +:+ mid +:+ ">" +:+ post)
    with (pre +:+ "<" +:+ mid +:+ String ">"%char post).
  rewrite Happ. clear Happ.
  pose proof (LastIndex_cons ">"%char ">"%char post) as Hc.
  change (byte_string ">") with ">" in Hc.
  pose proof (LastIndex_range ">"%char post) as Hr.
  change (byte_string ">") with ">" in Hr.
  assert (0 <= LastIndex (String ">" post) ">") as Hnn.
  { rewrite Hc. destruct (0 <=? LastIndex post ">") eqn:E.
    - apply Z.leb_le in E. lia.
    - by rewrite bool_decide_eq_true_2. }
  replace (0 <=? LastIndex (String ">" post) ">") with true
    by (symmetry; by apply Z.leb_le).
  rewrite !len_app. change (len "<") with 1. pose proof (len_nonneg mid). lia.
Qed.

(** In the only slice expression of the program the bounds are in range:
    [from[start+1 : end]] does not panic. *)
Lemma extractEmail_slice_in_bounds from :
  LastIndex from "<" >= 0 -> LastIndex from ">" > LastIndex from "<" ->
  0 <= LastIndex from "<" + 1 <= LastIndex from ">" /\
  LastIndex from ">" <= len from.
Proof.
  intros Hs He. pose proof (LastIndex_range ">"%char from) as Hr.
  change (byte_string ">") with ">" in Hr. lia.
Qed.

Lemma extractEmail_bracketed from pre mid post :
  bracketed from pre mid post -> (">"%char ∉ bytes post) ->
  extractEmail from = mid.
Proof.
  intros Hb Hpost. unfold extractEmail.
  rewrite (bracketed_start _ _ _ _ Hb), (bracketed_end _ _ _ _ Hb Hpost).
  pose proof (len_nonneg pre). pose proof (len_nonneg mid).
  replace (len pre >=? 0) with true by (symmetry; apply Z.geb_le; lia).
  replace (len pre + 1 + len mid >? len pre) with true
    by (symmetry; apply Z.gtb_lt; lia).
  cbn [andb]. destruct Hb as (-> & _ & _).
  pose proof (slice_middle (pre +:+ "<") mid (">" +:+ post)) as Hsl.
  rewrite len_app in Hsl. change (len "<") with 1 in Hsl.
  rewrite string_app_assoc in Hsl. exact Hsl.
Qed.

(** What the code computes: when [from] has a ['>'] after its last ['<'],
    [extractEmail] returns the bytes between the last ['<'] and the LAST
    ['>'] of [from]; in every other case ([from] has no ['<'], or no ['>']
    after the last ['<']) it returns [from] unchanged. *)
Lemma extractEmail_last_lt_last_gt (from : string) :
  (forall pre mid post,
     bracketed from pre mid post -> (">"%char ∉ bytes post) ->
     extractEmail from = mid) /\
  ((~ exists pre mid post, bracketed from pre mid post) ->
   extractEmail from = from).
Proof.
  split.
  - intros pre mid post. apply extractEmail_bracketed.
  - intros Hno. unfold extractEmail.
    destruct (LastIndex from "<" >=? 0) eqn:E1; [|done].
    destruct (LastIndex from ">" >? LastIndex from "<") eqn:E2; [|done].
    exfalso. apply Hno.
    apply Z.geb_le in E1. apply Z.gtb_lt in E2.
    destruct (guard_bracketed from) as (pre & mid & post & Hb & _); [lia..|].
    by exists pre, mid, post.
Qed.

Lemma split_at_last (c : ascii) (s : string) :
  c ∈ bytes s ->
  exists s1 s2, s = s1 +:+ String c s2 /\ (c ∉ bytes s2).
Proof.
  unfold bytes. induction s as [|a s IH]; cbn [list_ascii_of_string].
  - intros Hin. by apply elem_of_nil in Hin.
  - intros Hin. destruct (decide (c ∈ list_ascii_of_string s)) as [Hs|Hs].
    + destruct (IH Hs) as (s1 & s2 & -> & Hs2).
      by exists (String a s1), s2.
    + apply elem_of_cons in Hin as [->|Hin]; [|done].
      by exists "", s.
Qed.

(** The address of a header is followed by its closing ['>']; as soon as
    another ['>'] comes later in the value, [extractEmail] does not stop at
    the closing one: what it returns is the address, the closing ['>'] and
    more. *)
Lemma extractEmail_past_first_gt from pre mid post :
  bracketed from pre mid post -> (">"%char ∈ bytes post) ->
  (exists tail, extractEmail from = mid +:+ ">" +:+ tail) /\
  extractEmail from <> mid.
Proof.
  intros (-> & Hmid & Hpost) Hin.
  destruct (split_at_last ">"%char post Hin) as (tail & post2 & -> & Hpost2).
  assert (extractEmail (pre +:+ "<" +:+ mid +:+ ">" +:+ tail +:+ String ">" post2)
          = mid +:+ ">" +:+ tail) as Heq.
  { apply (extractEmail_bracketed _ pre (mid +:+ ">" +:+ tail) post2); [|done].
    rewrite bytes_app in Hpost.
    cbn [bytes list_ascii_of_string] in Hpost. fold (bytes post2) in Hpost.
    split; [|split].
    - change (String ">" post2) with (">" +:+ post2).
      by rewrite !string_app_assoc.
    - rewrite bytes_app. change (bytes (">" +:+ tail)) with (">"%char :: bytes tail).
      rewrite elem_of_app, elem_of_cons. intros [?|[?|?]]; [done|done|].
      apply Hpost. rewrite elem_of_app. by left.
    - intros ?. apply Hpost. rewrite elem_of_app. right.
      by apply elem_of_cons; right. }
  split; [by exists tail|].
  rewrite Heq. intros Habs.
  apply (f_equal len) in Habs. rewrite !len_app in Habs.
  change (len ">") with 1 in Habs. pose proof (len_nonneg tail). lia.
Qed.

(** C1 fails on the code: [extractEmail] takes [strings.LastIndex] for the
    closing bracket as well, so a ['>'] that comes after the address moves
    the cut.  In ["A <a@x.com> (x>y)"] the last ['<'] opens [a@x.com] and
    the first ['>'] after it closes it, yet [extractEmail] returns
    ["a@x.com> (x"]: not the address, and not the identity that the same
    sender gets from ["A <a@x.com>"]. *)
Theorem extractEmail_cuts_at_last_gt :
  let from := "A <a@x.com> (x>y)" in
  bracketed from "A " "a@x.com" " (x>y)" /\
  (">"%char ∉ bytes "a@x.com") /\
  extractEmail from = "a@x.com> (x" /\
  extractEmail "A <a@x.com>" = "a@x.com" /\
  ~ first_gt_rule.
Proof.
  cbv zeta.
  assert (bracketed "A <a@x.com> (x>y)" "A " "a@x.com" " (x>y)") as Hb
    by (split; [reflexivity|]; split; by_decide).
  assert (">"%char ∉ bytes "a@x.com") as Hmid by by_decide.
  split; [done|]. split; [done|]. split; [by vm_compute|]. split; [by vm_compute|].
  intros Hrule.
  destruct (extractEmail_past_first_gt _ _ _ _ Hb) as [_ Hne]; [by_decide|].
  apply Hne. by apply (Hrule _ "A " "a@x.com" " (x>y)").
Qed.

(** ** Running computations *)

Lemma bind_run {W A B} (m : M W A) (k : A -> M W B) (p : Proc W) :
  bind m k p =
    (value (k (value (m p)) (final (m p))),
     final (k (value (m p)) (final (m p))),
     trace (m p) ++ trace (k (value (m p)) (final (m p)))).
Proof.
  unfold bind, value, final, trace.
  destruct (m p) as [[a p1] t1]. simpl.
  by destruct (k a p1) as [[b p2] t2].
Qed.

Lemma value_mk {W A} (a : A) (p : Proc W) (t : list event) : value (a, p, t) = a.
Proof. done. Qed.

Lemma final_mk {W A} (a : A) (p : Proc W) (t : list event) : final (a, p, t) = p.
Proof. done. Qed.

Lemma trace_mk {W A} (a : A) (p : Proc W) (t : list event) : trace (a, p, t) = t.
Proof. done. Qed.

Lemma call_run {W A} (op : W -> A * W) (ev : A -> event) (p : Proc W) :
  call op ev p = ((op (world p)).1, set_world p (op (world p)).2, [ev (op (world p)).1]).
Proof. unfold call. by destruct (op (world p)). Qed.

Lemma trace_bind {W A B} (m : M W A) (k : A -> M W B) (p : Proc W) :
  trace (bind m k p) = trace (m p) ++ trace (k (value (m p)) (final (m p))).
Proof. by rewrite bind_run. Qed.

Lemma value_bind {W A B} (m : M W A) (k : A -> M W B) (p : Proc W) :
  value (bind m k p) = value (k (value (m p)) (final (m p))).
Proof. by rewrite bind_run. Qed.

Lemma final_bind {W A B} (m : M W A) (k : A -> M W B) (p : Proc W) :
  final (bind m k p) = final (k (value (m p)) (final (m p))).
Proof. by rewrite bind_run. Qed.

(** ** Go's [int] *)

Lemma add_no_overflow (a b : Z) :
  GoInt.min_int <= a + b <= GoInt.max_int -> GoInt.add a b = a + b.
Proof.
  unfold GoInt.add, GoInt.wrap, GoInt.min_int, GoInt.max_int. intros H.
  rewrite Z.mod_small; lia.
Qed.

Lemma count_nil {A} (f : A -> bool) : count f [] = 0.
Proof. done. Qed.

Lemma count_cons {A} (f : A -> bool) (x : A) (l : list A) :
  count f (x :: l) = (if f x then 1 else 0) + count f l.
Proof.
  unfold count. rewrite filter_cons. destruct (f x); simpl; lia.
Qed.

Lemma count_app {A} (f : A -> bool) (l1 l2 : list A) :
  count f (l1 ++ l2) = count f l1 + count f l2.
Proof. unfold count. rewrite filter_app, length_app. lia. Qed.

Lemma count_bounds {A} (f : A -> bool) (l : list A) :
  0 <= count f l <= GoInt.len l.
Proof.
  unfold count, GoInt.len. pose proof (length_filter (fun x => f x) l). lia.
Qed.

(** ** [deleteEmails] *)

Lemma label_loop_spec (labels : list string) :
  label_loop labels false = bool_decide ("TRASH" ∈ labels).
Proof.
  induction labels as [|label rest IH]; cbn [label_loop].
  - symmetry. apply bool_decide_eq_false_2, not_elem_of_nil.
  - destruct (String.eqb label "TRASH") eqn:E.
    + apply String.eqb_eq in E as ->. symmetry. apply bool_decide_eq_true_2.
      by left.
    + apply String.eqb_neq in E. rewrite IH. apply bool_decide_ext.
      rewrite elem_of_cons. split; [by right|]. intros [?|?]; [congruence|done].
Qed.

Section DeleteEmails.
Context {W : Type} (h : Host W).

(** One iteration of the loop, for each of the three ways it can go. *)
Lemma delete_loop_failed id rest deleteErrors successCount (p : Proc W) err w :
  Messages_Trash h id (world p) = (Err err, w) ->
  delete_loop h (id :: rest) deleteErrors successCount p =
    let r := delete_loop h rest
               (deleteErrors ++ ["failed to delete message " +:+ id +:+ ": " +:+ err])
               successCount (set_world p w) in
    (value r, final r, EvTrash id (Err err) :: trace r).
Proof.
  intros Hcall. cbn [delete_loop]. unfold bind, Trash, call. rewrite Hcall.
  cbv zeta. by destruct (delete_loop _ _ _ _ _) as [[? ?] ?].
Qed.

Lemma delete_loop_not_trashed id rest deleteErrors successCount (p : Proc W) email w :
  Messages_Trash h id (world p) = (Ok email, w) ->
  "TRASH" ∉ LabelIds email ->
  delete_loop h (id :: rest) deleteErrors successCount p =
    let r := delete_loop h rest
               (deleteErrors ++ ["message " +:+ id +:+ " was not moved to trash successfully"])
               successCount
               (set_world p (time_Sleep h (100 * Millisecond) w)) in
    (value r, final r,
     EvTrash id (Ok email) :: EvSleep (100 * Millisecond) :: trace r).
Proof.
  intros Hcall Hin. cbn [delete_loop]. unfold bind, Trash, call. rewrite Hcall.
  rewrite label_loop_spec, bool_decide_eq_false_2 by done.
  cbn [negb]. unfold ret, Sleep. cbv zeta. cbn [fst snd world set_world app].
  by destruct (delete_loop _ _ _ _ _) as [[? ?] ?].
Qed.

Lemma delete_loop_trashed id rest deleteErrors successCount (p : Proc W) email w :
  Messages_Trash h id (world p) = (Ok email, w) ->
  "TRASH" ∈ LabelIds email ->
  delete_loop h (id :: rest) deleteErrors successCount p =
    let r := delete_loop h rest deleteErrors (GoInt.add successCount 1)
               (set_world p (time_Sleep h (100 * Millisecond) w)) in
    (value r, final r,
     EvTrash id (Ok email) ::
       progress (GoInt.add successCount 1) ++
       EvSleep (100 * Millisecond) :: trace r).
Proof.
  intros Hcall Hin. cbn [delete_loop]. unfold bind, Trash, call. rewrite Hcall.
  rewrite label_loop_spec, bool_decide_eq_true_2 by done.
  cbn [negb]. unfold progress, Printf, emit, ret, Sleep. cbv zeta.
  destruct (GoInt.rem (GoInt.add successCount 1) 10 =? 0);
    cbn [fst snd world set_world app];
    by destruct (delete_loop _ _ _ _ _) as [[? ?] ?].
Qed.

Lemma trash_calls_cons ev tr :
  trash_calls (ev :: tr) =
    match as_trash ev with
    | Some c => c :: trash_calls tr
    | None => trash_calls tr
    end.
Proof. done. Qed.

Lemma trash_calls_app tr1 tr2 :
  trash_calls (tr1 ++ tr2) = trash_calls tr1 ++ trash_calls tr2.
Proof. apply omap_app. Qed.

Lemma sleeps_cons ev tr :
  sleeps (ev :: tr) =
    match as_sleep ev with
    | Some d => d :: sleeps tr
    | None => sleeps tr
    end.
Proof. done. Qed.

Lemma sleeps_app tr1 tr2 : sleeps (tr1 ++ tr2) = sleeps tr1 ++ sleeps tr2.
Proof. apply omap_app. Qed.

Lemma trash_calls_progress c : trash_calls (progress c) = [].
Proof. unfold progress. by destruct (_ =? 0). Qed.

Lemma sleeps_progress c : sleeps (progress c) = [].
Proof. unfold progress. by destruct (_ =? 0). Qed.

(** What the loop leaves in its two variables and in the trace, from any
    intermediate state of the loop. *)
Lemma delete_loop_spec (ids : list string) :
  forall (deleteErrors : list string) (successCount : Z) (p : Proc W),
    0 <= successCount ->
    successCount + GoInt.len ids <= GoInt.max_int ->
    let r := delete_loop h ids deleteErrors successCount p in
    let calls := trash_calls (trace r) in
    let K := count remote_failure calls in
    let J := count not_trashed calls in
    calls.*1 = ids /\
    (value r).2 = successCount + (GoInt.len ids - K - J) /\
    (exists new, (value r).1 = deleteErrors ++ new /\ GoInt.len new = K + J) /\
    sleeps (trace r) =
      replicate (Z.to_nat (GoInt.len ids - K)) (100 * Millisecond).
Proof.
  unfold GoInt.len.
  induction ids as [|id rest IH]; intros deleteErrors successCount p Hnn Hmax.
  - simpl. change (count _ []) with 0.
    repeat split; [lia|]. exists []. by rewrite app_nil_r.
  - cbv zeta. cbn [length] in Hmax |- *.
    destruct (Messages_Trash h id (world p)) as [[email|err] w] eqn:Hcall.
    + destruct (decide ("TRASH" ∈ LabelIds email)) as [Hin|Hin].
      * rewrite (delete_loop_trashed _ _ _ _ _ _ _ Hcall Hin). cbv zeta.
        assert (GoInt.add successCount 1 = successCount + 1) as ->
          by (apply add_no_overflow; unfold GoInt.min_int; lia).
        set (r := delete_loop _ _ _ _ _).
        specialize (IH deleteErrors (successCount + 1)
                      (set_world p (time_Sleep h (100 * Millisecond) w))
                      ltac:(lia) ltac:(lia)).
        cbv zeta in IH. fold r in IH.
        destruct IH as (IH1 & IH2 & (new & IH3 & IH4) & IH5).
        rewrite !trace_mk, !value_mk.
        rewrite !trash_calls_cons, !sleeps_cons, trash_calls_app, sleeps_app.
        rewrite ?trash_calls_cons, ?sleeps_cons.
        rewrite trash_calls_progress, sleeps_progress.
        cbn [as_trash as_sleep app fmap list_fmap fst].
        rewrite !count_cons. cbn [remote_failure not_trashed snd].
        rewrite bool_decide_eq_false_2 by tauto.
        pose proof (count_bounds remote_failure (trash_calls (trace r))) as Hb.
        assert (length (trash_calls (trace r)) = length rest) as Hlen
          by (rewrite <- IH1; by rewrite length_fmap).
        unfold GoInt.len in Hb. rewrite Hlen in Hb.
        split; [by rewrite IH1|]. split; [rewrite IH2; lia|].
        split; [exists new; split; [done|lia]|].
        rewrite IH5.
        replace (Z.to_nat (Z.of_nat (S (length rest)) - (0 + count remote_failure (trash_calls (trace r)))))
          with (S (Z.to_nat (Z.of_nat (length rest) - count remote_failure (trash_calls (trace r)))))
          by lia.
        done.
      * rewrite (delete_loop_not_trashed _ _ _ _ _ _ _ Hcall Hin). cbv zeta.
        set (errs := deleteErrors ++ _).
        set (r := delete_loop _ _ _ _ _).
        specialize (IH errs successCount
                      (set_world p (time_Sleep h (100 * Millisecond) w))
                      ltac:(lia) ltac:(lia)).
        cbv zeta in IH. fold r in IH.
        destruct IH as (IH1 & IH2 & (new & IH3 & IH4) & IH5).
        rewrite !trace_mk, !value_mk.
        rewrite ?trash_calls_cons, ?sleeps_cons.
        cbn [as_trash as_sleep app fmap list_fmap fst].
        rewrite !count_cons. cbn [remote_failure not_trashed snd].
        rewrite bool_decide_eq_true_2 by done.
        pose proof (count_bounds remote_failure (trash_calls (trace r))) as Hb.
        assert (length (trash_calls (trace r)) = length rest) as Hlen
          by (rewrite <- IH1; by rewrite length_fmap).
        unfold GoInt.len in Hb. rewrite Hlen in Hb.
        split; [by rewrite IH1|]. split; [rewrite IH2; lia|].
        split.
        { eexists (_ :: new). subst errs. rewrite IH3, <- app_assoc.
          split; [done|]. cbn [length]. lia. }
        rewrite IH5.
        replace (Z.to_nat (Z.of_nat (S (length rest)) - (0 + count remote_failure (trash_calls (trace r)))))
          with (S (Z.to_nat (Z.of_nat (length rest) - count remote_failure (trash_calls (trace r)))))
          by lia.
        done.
    + rewrite (delete_loop_failed _ _ _ _ _ _ _ Hcall). cbv zeta.
      set (errs := deleteErrors ++ _).
      set (r := delete_loop _ _ _ _ _).
      specialize (IH errs successCount (set_world p w) ltac:(lia) ltac:(lia)).
      cbv zeta in IH. fold r in IH.
      destruct IH as (IH1 & IH2 & (new & IH3 & IH4) & IH5).
      rewrite !trace_mk, !value_mk.
      rewrite ?trash_calls_cons, ?sleeps_cons.
      cbn [as_trash as_sleep app fmap list_fmap fst].
      rewrite !count_cons. cbn [remote_failure not_trashed snd].
      split; [by rewrite IH1|]. split; [rewrite IH2; lia|].
      split.
      { eexists (_ :: new). subst errs. rewrite IH3, <- app_assoc.
        split; [done|]. cbn [length]. lia. }
      rewrite IH5. f_equal. lia.
Qed.

End DeleteEmails.

Section DeleteEmailsRun.
Context {W : Type} (h : Host W).

Lemma print_errors_run (deleteErrors : list string) (p : Proc W) :
  print_errors deleteErrors p =
    (tt, p, (fun errMsg => EvPrint ("- " +:+ errMsg +:+ nl)) <$> deleteErrors).
Proof.
  induction deleteErrors as [|errMsg rest IH]; [done|].
  cbn [print_errors]. unfold bind, Printf, emit. by rewrite IH.
Qed.

(** [deleteEmails] is its loop followed by the summary; the error it returns
    depends on [len(deleteErrors)] only. *)
Lemma deleteEmails_run (ids : list string) (p : Proc W) :
  let loop := delete_loop h ids [] 0 p in
  deleteEmails h ids p =
    (if GoInt.len (value loop).1 >? 0 then
       Some ("some deletions failed: " +:+ GoInt.fmt_d (GoInt.len (value loop).1)
             +:+ " errors occurred")
     else None,
     final loop,
     trace loop ++ summary (value loop).1 (value loop).2).
Proof.
  cbv zeta. unfold deleteEmails, summary, bind at 1.
  destruct (delete_loop h ids [] 0 p) as [[[deleteErrors successCount] p1] t1].
  rewrite value_mk, final_mk, trace_mk. cbn [fst snd].
  unfold bind, Printf, emit.
  destruct (GoInt.len deleteErrors >? 0); [|done].
  rewrite print_errors_run. unfold ret. cbn [app]. by rewrite app_nil_r.
Qed.

Lemma trash_calls_summary deleteErrors successCount :
  trash_calls (summary deleteErrors successCount) = [].
Proof.
  unfold summary. rewrite trash_calls_app, !trash_calls_cons. cbn [as_trash app].
  change (trash_calls []) with (@nil (string * result Message)). cbn [app].
  destruct (_ >? 0); [|done].
  rewrite !trash_calls_cons. cbn [as_trash].
  induction deleteErrors as [|e l IH]; [done|]. by rewrite fmap_cons.
Qed.

Lemma sleeps_summary deleteErrors successCount :
  sleeps (summary deleteErrors successCount) = [].
Proof.
  unfold summary. rewrite sleeps_app, !sleeps_cons. cbn [as_sleep app].
  change (sleeps []) with (@nil Z). cbn [app].
  destruct (_ >? 0); [|done].
  rewrite !sleeps_cons. cbn [as_sleep].
  induction deleteErrors as [|e l IH]; [done|]. by rewrite fmap_cons.
Qed.

(** The pauses of a batch: one of 100 ms for every attempt whose remote call
    returned, none for an attempt whose remote call failed. *)
Lemma deleteEmails_pauses (ids : list string) (p : Proc W) :
  GoInt.len ids <= GoInt.max_int ->
  let run := deleteEmails h ids p in
  sleeps (trace run) =
    replicate
      (Z.to_nat (GoInt.len ids - count remote_failure (trash_calls (trace run))))
      (100 * Millisecond).
Proof.
  intros Hlen. cbv zeta. rewrite deleteEmails_run. cbv zeta. rewrite trace_mk.
  rewrite sleeps_app, trash_calls_app, sleeps_summary, trash_calls_summary, !app_nil_r.
  by apply (delete_loop_spec h ids [] 0 p).
Qed.

(** C2: of [N] message IDs, with [K] attempts failing at the remote trash
    call and [J] calls returning a message without the [TRASH] label, the
    loop ends with [successCount = N - K - J] and [len(deleteErrors) = K + J],
    the summary prints that count, every ID is attempted once and in order,
    and [deleteEmails] returns an error exactly when [K + J > 0]. *)
Theorem deleteEmails_accounting (ids : list string) (p : Proc W) :
  GoInt.len ids <= GoInt.max_int ->
  let loop := delete_loop h ids [] 0 p in
  let run := deleteEmails h ids p in
  let deleteErrors := (value loop).1 in
  let successCount := (value loop).2 in
  let calls := trash_calls (trace run) in
  let N := GoInt.len ids in
  let K := count remote_failure calls in
  let J := count not_trashed calls in
  calls.*1 = ids /\
  successCount = N - K - J /\
  GoInt.len deleteErrors = K + J /\
  (value run <> None <-> K + J > 0) /\
  (K + J > 0 ->
   value run = Some ("some deletions failed: " +:+ GoInt.fmt_d (K + J)
                     +:+ " errors occurred")) /\
  EvPrint ("Successfully deleted: " +:+ GoInt.fmt_d (N - K - J) +:+ " emails" +:+ nl)
    ∈ trace run.
Proof.
  intros Hlen. cbv zeta. rewrite deleteEmails_run. cbv zeta.
  rewrite trace_mk, value_mk, trash_calls_app, trash_calls_summary, app_nil_r.
  destruct (delete_loop_spec h ids [] 0 p ltac:(lia) ltac:(lia))
    as (H1 & H2 & (new & H3 & H4) & _).
  cbv zeta in *. rewrite app_nil_l in H3. rewrite H3 in *. rewrite H2, H4.
  set (K := count remote_failure _) in *. set (J := count not_trashed _) in *.
  split; [done|]. split; [lia|]. split; [done|].
  split; [|split].
  - destruct (Z.gtb_spec (K + J) 0); split; (done || lia).
  - intros Hgt. by replace (K + J >? 0) with true by (symmetry; apply Z.gtb_lt; lia).
  - rewrite elem_of_app. right. unfold summary. rewrite elem_of_app. left.
    replace (0 + (GoInt.len ids - K - J)) with (GoInt.len ids - K - J) by lia.
    apply elem_of_cons. right. apply elem_of_cons. by left.
Qed.

End DeleteEmailsRun.

Lemma deleteEmails_accounting_witness :
  let run := deleteEmails (scripted demo) ["m1"; "m2"; "m3"] (start []) in
  (value (delete_loop (scripted demo) ["m1"; "m2"; "m3"] [] 0 (start []))).2 = 1 /\
  count remote_failure (trash_calls (trace run)) = 1 /\
  count not_trashed (trash_calls (trace run)) = 1 /\
  value run = Some "some deletions failed: 2 errors occurred".
Proof.
  pose proof (deleteEmails_accounting (scripted demo) ["m1"; "m2"; "m3"] (start [])
                ltac:(vm_compute; discriminate)) as H.
  cbv zeta in H. destruct H as (_ & H2 & _ & _ & H5 & _).
  assert (count remote_failure
            (trash_calls (trace (deleteEmails (scripted demo) ["m1"; "m2"; "m3"] (start []))))
          = 1) as HK by (vm_compute; reflexivity).
  assert (count not_trashed
            (trash_calls (trace (deleteEmails (scripted demo) ["m1"; "m2"; "m3"] (start []))))
          = 1) as HJ by (vm_compute; reflexivity).
  cbv zeta. rewrite HK, HJ in *.
  split; [exact H2|]. split; [reflexivity|]. split; [reflexivity|].
  apply H5. lia.
Defined.

(** C3 fails on the code: when the remote call fails the loop [continue]s
    before it reaches [time.Sleep], so that attempt is followed by no pause.
    Here the one attempt of the batch fails remotely and the run has no
    pause at all. *)
Theorem deleteEmails_no_pause_after_remote_failure :
  let run := deleteEmails (scripted demo) ["m2"] (start []) in
  trash_calls (trace run) =
    [("m2", Err "googleapi: Error 429: Too Many Requests")] /\
  sleeps (trace run) = [] /\
  ~ paced_after_every_attempt ["m2"] (trace run).
Proof.
  cbv zeta. split; [by vm_compute|]. split; [by vm_compute|].
  unfold paced_after_every_attempt. vm_compute. discriminate.
Qed.

(** On the two sibling paths the pause is there. *)
Example deleteEmails_pause_after_other_outcomes :
  sleeps (trace (deleteEmails (scripted demo) ["m1"; "m3"] (start []))) =
    [100 * Millisecond; 100 * Millisecond].
Proof. by vm_compute. Qed.

(** ** The insert-or-update step and the aggregate *)

Lemma wrap_small (z : Z) :
  GoInt.min_int <= z <= GoInt.max_int -> GoInt.wrap z = z.
Proof.
  unfold GoInt.wrap, GoInt.min_int, GoInt.max_int. intros H.
  rewrite Z.mod_small; lia.
Qed.

Lemma wrap_succ (z : Z) : GoInt.add (GoInt.wrap z) 1 = GoInt.wrap (z + 1).
Proof.
  unfold GoInt.add, GoInt.wrap.
  replace ((z + 2 ^ 63) mod 2 ^ 64 - 2 ^ 63 + 1 + 2 ^ 63)
    with ((z + 2 ^ 63) mod 2 ^ 64 + 1) by lia.
  rewrite Zplus_mod_idemp_l. do 2 f_equal. lia.
Qed.

Lemma ids_of_snoc email log c :
  ids_of email (log ++ [c]) =
    ids_of email log ++ (if decide (c.1 = email) then [c.2] else []).
Proof.
  unfold ids_of. rewrite filter_app, fmap_app. f_equal.
  rewrite filter_cons, filter_nil. by destruct (decide (c.1 = email)).
Qed.

Lemma aggregate_snoc log c :
  aggregate (log ++ [c]) = upsert c.1 c.2 (aggregate log).
Proof. unfold aggregate, upserts. by rewrite foldl_app. Qed.

Lemma upsert_lookup_ne email id email' (senderMap : gmap string SenderStats) :
  email <> email' -> upsert email id senderMap !! email' = senderMap !! email'.
Proof.
  intros Hne. unfold upsert.
  destruct (senderMap !! email); by rewrite lookup_insert_ne.
Qed.

Lemma upsert_lookup email id (senderMap : gmap string SenderStats) :
  upsert email id senderMap !! email =
    Some match senderMap !! email with
         | Some stats => {| Email := Email stats;
                            Count := GoInt.add (Count stats) 1;
                            Ids := Ids stats ++ [id] |}
         | None => {| Email := email; Count := 1; Ids := [id] |}
         end.
Proof. unfold upsert. destruct (senderMap !! email); by rewrite lookup_insert_eq. Qed.

(** The aggregate of a log holds, for every sender, the IDs that the log
    attributes to it, in the order of the log. *)
Lemma aggregate_lookup log email :
  aggregate log !! email = record_for email (ids_of email log).
Proof.
  induction log as [|c log IH] using rev_ind; [done|].
  rewrite aggregate_snoc, ids_of_snoc.
  destruct (decide (c.1 = email)) as [->|Hne].
  - rewrite upsert_lookup, IH.
    destruct (ids_of email log) as [|i ids] eqn:Hids; cbn [record_for app].
    + done.
    + cbn [Email Count Ids]. rewrite wrap_succ. do 3 f_equal.
      unfold GoInt.len. rewrite !length_cons, length_app. cbn [length]. lia.
  - by rewrite upsert_lookup_ne, IH, app_nil_r.
Qed.

Lemma record_for_Some email ids r :
  record_for email ids = Some r ->
  Email r = email /\ Ids r = ids /\ ids <> [] /\
  Count r = GoInt.wrap (GoInt.len ids).
Proof. destruct ids; [done|]. intros [= <-]. done. Qed.

(** The number of IDs that a map holds, over all its records. *)
Lemma total_ids_upsert email id (senderMap : gmap string SenderStats) :
  sum_list_with (fun kv => length (Ids kv.2)) (map_to_list (upsert email id senderMap))
  = S (sum_list_with (fun kv => length (Ids kv.2)) (map_to_list senderMap)).
Proof.
  unfold upsert. destruct (senderMap !! email) as [stats|] eqn:Hl.
  - rewrite <- insert_delete_eq.
    rewrite map_to_list_insert by apply lookup_delete_eq.
    rewrite <- (insert_delete_id senderMap email stats Hl) at 2.
    rewrite map_to_list_insert by apply lookup_delete_eq.
    cbn [sum_list_with snd Ids]. rewrite length_app. cbn [length]. lia.
  - rewrite map_to_list_insert by done. by cbn.
Qed.

Lemma total_ids_aggregate log :
  sum_list_with (fun kv => length (Ids kv.2)) (map_to_list (aggregate log))
  = length log.
Proof.
  induction log as [|c log IH] using rev_ind.
  - unfold aggregate, upserts. cbn [foldl]. by rewrite map_to_list_empty.
  - rewrite aggregate_snoc, total_ids_upsert, IH, length_app. cbn [length]. lia.
Qed.

Lemma sum_counts_perm (l1 l2 : list SenderStats) :
  l1 ≡ₚ l2 -> sum_counts l1 = sum_counts l2.
Proof.
  unfold sum_counts.
  induction 1 as [|x l1 l2 _ IH|x y l|l1 l2 l3 _ IH1 _ IH2]; cbn [foldr]; lia.
Qed.

Lemma sum_counts_lengths (stats : list SenderStats) :
  (forall r, r ∈ stats -> Count r = GoInt.len (Ids r)) ->
  sum_counts stats = Z.of_nat (sum_list_with (fun r => length (Ids r)) stats).
Proof.
  unfold sum_counts, GoInt.len.
  induction stats as [|r stats IH]; intros Hc; [done|].
  cbn [foldr sum_list_with]. rewrite IH.
  - rewrite (Hc r) by (by left). lia.
  - intros r' Hr'. apply Hc. by right.
Qed.

(** ** Reading traces *)

Lemma list_calls_app tr1 tr2 :
  list_calls (tr1 ++ tr2) = list_calls tr1 ++ list_calls tr2.
Proof. apply omap_app. Qed.

Lemma list_calls_cons ev tr :
  list_calls (ev :: tr) =
    match as_list ev with Some c => c :: list_calls tr | None => list_calls tr end.
Proof. done. Qed.

Lemma get_calls_app tr1 tr2 :
  get_calls (tr1 ++ tr2) = get_calls tr1 ++ get_calls tr2.
Proof. apply omap_app. Qed.

Lemma get_calls_cons ev tr :
  get_calls (ev :: tr) =
    match as_get ev with Some c => c :: get_calls tr | None => get_calls tr end.
Proof. done. Qed.

Lemma listed_ids_app tr1 tr2 :
  listed_ids (tr1 ++ tr2) = listed_ids tr1 ++ listed_ids tr2.
Proof. unfold listed_ids. by rewrite list_calls_app, fmap_app, join_app. Qed.

Lemma listed_ids_cons ev tr :
  listed_ids (ev :: tr) =
    match as_list ev with
    | Some c => page_ids c ++ listed_ids tr
    | None => listed_ids tr
    end.
Proof. unfold listed_ids. rewrite list_calls_cons. by destruct (as_list ev). Qed.

Lemma listed_ids_none tr : list_calls tr = [] -> listed_ids tr = [].
Proof. unfold listed_ids. by intros ->. Qed.

Lemma fetched_app tr1 tr2 : fetched (tr1 ++ tr2) = fetched tr1 ++ fetched tr2.
Proof. unfold fetched. by rewrite get_calls_app, omap_app. Qed.

Lemma senders_app tr1 tr2 : senders (tr1 ++ tr2) = senders tr1 ++ senders tr2.
Proof. unfold senders. by rewrite fetched_app, omap_app. Qed.

Lemma senders_cons_other ev tr :
  as_get ev = None -> senders (ev :: tr) = senders tr.
Proof. intros H. unfold senders, fetched. by rewrite get_calls_cons, H. Qed.

Lemma senders_cons_failed id msg tr :
  senders (EvGet id (Err msg) :: tr) = senders tr.
Proof. done. Qed.

Lemma senders_cons_fetched id message tr :
  senders (EvGet id (Ok message) :: tr) =
    match sender_of message with
    | Some email => (email, id) :: senders tr
    | None => senders tr
    end.
Proof.
  unfold senders, fetched. rewrite get_calls_cons.
  cbn [as_get omap list_omap fetched_call snd fst]. unfold logged.
  cbn [fst snd]. by destruct (sender_of message).
Qed.

Lemma upserts_app senderMap log1 log2 :
  upserts senderMap (log1 ++ log2) = upserts (upserts senderMap log1) log2.
Proof. apply foldl_app. Qed.

Lemma notices_follow_nil : notices_follow [].
Proof. intros i id msg H. by rewrite lookup_nil in H. Qed.

Lemma notices_follow_cons ev tr :
  (forall id msg, ev <> EvGet id (Err msg)) ->
  notices_follow tr -> notices_follow (ev :: tr).
Proof.
  intros Hev Htr [|i] id msg H; cbn in H.
  - injection H as ->. by destruct (Hev id msg).
  - cbn. by apply (Htr i id msg).
Qed.

Lemma notices_follow_failed id msg tr :
  notices_follow tr -> notices_follow (EvGet id (Err msg) :: notice id :: tr).
Proof.
  intros Htr [|[|i]] id' msg' H; cbn in H |- *.
  - by injection H as -> ->.
  - discriminate H.
  - by apply (Htr i id' msg').
Qed.

Lemma notices_follow_app tr1 tr2 :
  notices_follow tr1 -> notices_follow tr2 -> notices_follow (tr1 ++ tr2).
Proof.
  intros H1 H2 i id msg H.
  destruct (decide (i < length tr1)%nat) as [Hlt|Hge].
  - rewrite lookup_app_l in H by done.
    pose proof (H1 i id msg H) as HS.
    rewrite lookup_app_l; [done|]. by apply lookup_lt_Some in HS.
  - rewrite lookup_app_r in H by lia.
    rewrite lookup_app_r by lia.
    replace (S i - length tr1)%nat with (S (i - length tr1)) by lia.
    by apply (H2 _ id msg).
Qed.

(** ** The header loop *)

Lemma first_from_cons header rest :
  first_from (header :: rest) =
    if decide (Name header = "From") then Some header else first_from rest.
Proof. unfold first_from. rewrite filter_cons. by destruct (decide _). Qed.

Lemma header_loop_spec headers id (senderMap : gmap string SenderStats) :
  header_loop headers id senderMap =
    match first_from headers with
    | Some header => upsert (extractEmail (Value header)) id senderMap
    | None => senderMap
    end.
Proof.
  induction headers as [|header rest IH]; [done|].
  cbn [header_loop]. rewrite first_from_cons.
  destruct (String.eqb_spec (Name header) "From") as [Heq|Hne].
  - by rewrite decide_True.
  - by rewrite decide_False.
Qed.

(** ** The message loop and the page loop *)

Section Harvest.
Context {W : Type} (h : Host W).

Lemma message_loop_fetched msg rest senderMap (p : Proc W) message w :
  Messages_Get h (Id msg) (world p) = (Ok message, w) ->
  message_loop h (msg :: rest) senderMap p =
    let r := message_loop h rest
               (header_loop (Headers (Payload message)) (Id msg) senderMap)
               (set_world p w) in
    (value r, final r, EvGet (Id msg) (Ok message) :: trace r).
Proof.
  intros Hcall. cbn [message_loop]. unfold bind, Get_Do, call. rewrite Hcall.
  cbv zeta. by destruct (message_loop _ _ _ _) as [[? ?] ?].
Qed.

Lemma message_loop_failed msg rest senderMap (p : Proc W) err w :
  Messages_Get h (Id msg) (world p) = (Err err, w) ->
  message_loop h (msg :: rest) senderMap p =
    let r := message_loop h rest senderMap (set_world p w) in
    (value r, final r, EvGet (Id msg) (Err err) :: notice (Id msg) :: trace r).
Proof.
  intros Hcall. cbn [message_loop]. unfold bind, Get_Do, call. rewrite Hcall.
  unfold Printf, emit, notice. cbv zeta.
  by destruct (message_loop _ _ _ _) as [[? ?] ?].
Qed.

(** The message loop asks for the metadata of every listed message, in
    order, whatever the earlier answers were, and applies one
    insert-or-update step per fetched message with a [From] header. *)
Lemma message_loop_spec (msgs : list Message) :
  forall (senderMap : gmap string SenderStats) (p : Proc W),
    let r := message_loop h msgs senderMap p in
    value r = upserts senderMap (senders (trace r)) /\
    (get_calls (trace r)).*1 = Id <$> msgs /\
    list_calls (trace r) = [] /\
    notices_follow (trace r).
Proof.
  induction msgs as [|msg rest IH]; intros senderMap p; cbv zeta.
  - cbn [message_loop]. unfold ret. rewrite value_mk, trace_mk.
    repeat split; [done..|apply notices_follow_nil].
  - destruct (Messages_Get h (Id msg) (world p)) as [[message|err] w] eqn:Hcall.
    + rewrite (message_loop_fetched _ _ _ _ _ _ Hcall). cbv zeta.
      rewrite value_mk, trace_mk.
      destruct (IH (header_loop (Headers (Payload message)) (Id msg) senderMap)
                  (set_world p w)) as (IH1 & IH2 & IH3 & IH4).
      rewrite senders_cons_fetched, get_calls_cons, list_calls_cons.
      cbn [as_get as_list fmap list_fmap fst].
      split; [|split; [by rewrite IH2|split; [done|]]].
      * rewrite IH1, header_loop_spec. unfold sender_of.
        by destruct (first_from (Headers (Payload message))).
      * by apply notices_follow_cons.
    + rewrite (message_loop_failed _ _ _ _ _ _ Hcall). cbv zeta.
      rewrite value_mk, trace_mk.
      destruct (IH senderMap (set_world p w)) as (IH1 & IH2 & IH3 & IH4).
      rewrite senders_cons_failed, get_calls_cons, list_calls_cons.
      cbn [as_get as_list fmap list_fmap fst].
      split; [|split; [|split; [done|]]].
      * rewrite IH1. f_equal.
      * by rewrite <- IH2.
      * by apply notices_follow_failed.
Qed.

Lemma page_loop_failed fuel pageToken senderMap (p : Proc W) err w :
  Messages_List h (page_request pageToken) (world p) = (Err err, w) ->
  page_loop h (S fuel) pageToken senderMap p =
    (Some (Return [] (Some err)), set_world p w,
     [EvList (page_request pageToken) (Err err)]).
Proof.
  intros Hcall. cbn [page_loop]. unfold bind, List_Do, call.
  fold (page_request pageToken). by rewrite Hcall.
Qed.

Lemma page_loop_last fuel pageToken senderMap (p : Proc W) r w :
  Messages_List h (page_request pageToken) (world p) = (Ok r, w) ->
  NextPageToken r = "" ->
  page_loop h (S fuel) pageToken senderMap p =
    let ml := message_loop h (Messages r) senderMap (set_world p w) in
    (Some (Break (value ml)), final ml,
     EvList (page_request pageToken) (Ok r) :: trace ml).
Proof.
  intros Hcall Htok. cbn [page_loop]. unfold bind, List_Do, call.
  fold (page_request pageToken). rewrite Hcall, Htok. cbv zeta.
  destruct (message_loop _ _ _ _) as [[m p1] t1]. cbn [String.eqb].
  unfold ret. by rewrite app_nil_r.
Qed.

Lemma page_loop_more fuel pageToken senderMap (p : Proc W) r w :
  Messages_List h (page_request pageToken) (world p) = (Ok r, w) ->
  NextPageToken r <> "" ->
  page_loop h (S fuel) pageToken senderMap p =
    let ml := message_loop h (Messages r) senderMap (set_world p w) in
    let next := page_loop h fuel (NextPageToken r) (value ml) (final ml) in
    (value next, final next,
     EvList (page_request pageToken) (Ok r) :: trace ml ++ trace next).
Proof.
  intros Hcall Htok. cbn [page_loop]. unfold bind, List_Do, call.
  fold (page_request pageToken). rewrite Hcall. cbv zeta.
  destruct (message_loop _ _ _ _) as [[m p1] t1].
  rewrite value_mk, final_mk, trace_mk.
  apply String.eqb_neq in Htok. rewrite Htok.
  by destruct (page_loop _ _ _ _ _) as [[? ?] ?].
Qed.

Lemma page_loop_spec (fuel : nat) :
  forall (pageToken : string) (senderMap : gmap string SenderStats) (p : Proc W),
    let r := page_loop h fuel pageToken senderMap p in
    notices_follow (trace r) /\
    forall exit, value r = Some exit ->
      (get_calls (trace r)).*1 = listed_ids (trace r) /\
      paginated pageToken (list_calls (trace r)) /\
      exit_ok senderMap (trace r) exit.
Proof.
  induction fuel as [|fuel IH]; intros pageToken senderMap p; cbv zeta.
  - cbn [page_loop]. unfold ret. rewrite value_mk, trace_mk.
    split; [apply notices_follow_nil|done].
  - destruct (Messages_List h (page_request pageToken) (world p))
      as [[r|err] w] eqn:Hcall.
    + pose proof (message_loop_spec (Messages r) senderMap (set_world p w)) as Hml.
      cbv zeta in Hml. destruct Hml as (M1 & M2 & M3 & M4).
      destruct (decide (NextPageToken r = "")) as [Htok|Htok].
      * rewrite (page_loop_last _ _ _ _ _ _ Hcall Htok). cbv zeta.
        rewrite value_mk, trace_mk.
        split; [by apply notices_follow_cons|].
        intros exit [= <-].
        rewrite get_calls_cons, listed_ids_cons, list_calls_cons.
        cbn [as_get as_list]. rewrite (listed_ids_none _ M3), app_nil_r.
        cbn [page_ids snd].
        split; [by rewrite M2|]. split.
        { cbn [paginated fst snd]. by rewrite decide_True. }
        cbn [exit_ok]. rewrite senders_cons_other by done.
        split; [done|]. rewrite list_calls_cons. cbn [as_list]. rewrite M3.
        constructor; [by exists r|constructor].
      * rewrite (page_loop_more _ _ _ _ _ _ Hcall Htok). cbv zeta.
        set (ml := message_loop h (Messages r) senderMap (set_world p w)) in *.
        specialize (IH (NextPageToken r) (value ml) (final ml)).
        cbv zeta in IH. set (next := page_loop _ _ _ _ _) in *.
        destruct IH as (IHn & IH). rewrite value_mk, trace_mk.
        split.
        { apply notices_follow_cons; [done|]. by apply notices_follow_app. }
        intros exit Hexit. destruct (IH exit Hexit) as (IH1 & IH2 & IH3).
        rewrite get_calls_cons, listed_ids_cons, list_calls_cons.
        cbn [as_get as_list].
        rewrite get_calls_app, listed_ids_app, list_calls_app, fmap_app.
        rewrite (listed_ids_none _ M3). cbn [app page_ids snd].
        split; [by rewrite M2, IH1|]. split.
        { rewrite M3. cbn [paginated fst snd app]. by rewrite decide_False. }
        destruct exit as [stats err|senderMap']; cbn [exit_ok] in IH3 |- *.
        -- destruct IH3 as (-> & req & msg & -> & Hin).
           split; [done|]. exists req, msg. split; [done|].
           rewrite list_calls_cons, list_calls_app, M3. cbn [as_list app].
           by right.
        -- destruct IH3 as (-> & Hall).
           rewrite senders_cons_other, senders_app, upserts_app, <- M1 by done.
           split; [done|].
           rewrite list_calls_cons, list_calls_app, M3. cbn [as_list app].
           constructor; [by exists r|done].
    + rewrite (page_loop_failed _ _ _ _ _ _ Hcall). rewrite value_mk, trace_mk.
      split; [apply notices_follow_cons; [done|apply notices_follow_nil]|].
      intros exit [= <-]. split; [done|]. split.
      { cbn. done. }
      cbn [exit_ok]. split; [done|]. exists (page_request pageToken), err.
      split; [done|]. cbn. by left.
Qed.

End Harvest.

(** ** [getSenderStats] *)

Lemma collect_loop_spec entries stats :
  collect_loop entries stats = stats ++ entries.*2.
Proof.
  revert stats. induction entries as [|[k v] rest IH]; intros stats; cbn.
  - by rewrite app_nil_r.
  - by rewrite IH, <- app_assoc.
Qed.

Section GetSenderStats.
Context {W : Type} (h : Host W).

(** [getSenderStats] leaves the trace of its page loop; it returns what the
    loop returned, or the records of the loop's map in the order the
    runtime chose. *)
Lemma getSenderStats_run fuel (p : Proc W) :
  let r := harvest h fuel p in
  trace (getSenderStats h fuel p) = trace r /\
  match value r with
  | None => value (getSenderStats h fuel p) = None
  | Some (Return stats err) => value (getSenderStats h fuel p) = Some (stats, err)
  | Some (Break senderMap) =>
      exists stats, value (getSenderStats h fuel p) = Some (stats, None) /\
                    stats ≡ₚ (map_to_list senderMap).*2
  end.
Proof.
  cbv zeta. unfold getSenderStats, harvest. rewrite bind_run, trace_mk, value_mk.
  destruct (page_loop h fuel "" ∅ p) as [[[[stats err|senderMap]|] p1] t1];
    rewrite ?value_mk, ?trace_mk, ?final_mk.
  - unfold ret. by rewrite trace_mk, value_mk, app_nil_r.
  - unfold bind, range_map, ret.
    pose proof (map_range_perm h senderMap (world p1)) as Hperm.
    destruct (map_range h senderMap (world p1)) as [entries w].
    rewrite trace_mk, value_mk. split; [by rewrite app_nil_r|].
    eexists. split; [done|]. rewrite collect_loop_spec, app_nil_l.
    by rewrite Hperm.
  - unfold ret. by rewrite trace_mk, value_mk, app_nil_r.
Qed.

(** Every return of [getSenderStats], read off the trace. *)
Lemma getSenderStats_returned fuel (p : Proc W) stats err :
  value (getSenderStats h fuel p) = Some (stats, err) ->
  let tr := trace (getSenderStats h fuel p) in
  notices_follow tr /\
  (get_calls tr).*1 = listed_ids tr /\
  paginated "" (list_calls tr) /\
  ((err = None /\ stats ≡ₚ (map_to_list (aggregate (senders tr))).*2 /\
    Forall (fun c => exists r, c.2 = Ok r) (list_calls tr)) \/
   (stats = [] /\ exists req msg, err = Some msg /\ (req, Err msg) ∈ list_calls tr)).
Proof.
  intros Hret. cbv zeta.
  destruct (getSenderStats_run fuel p) as (-> & Hval). cbv zeta in Hval.
  destruct (page_loop_spec h fuel "" ∅ p) as (Hn & Hexit). cbv zeta in Hexit.
  fold (harvest h fuel p) in Hn, Hexit.
  destruct (value (harvest h fuel p)) as [[stats' err'|senderMap]|] eqn:Hv.
  - rewrite Hret in Hval. injection Hval as -> ->.
    destruct (Hexit _ eq_refl) as (H1 & H2 & H3 & H4).
    split; [done|]. split; [done|]. split; [done|]. right. by split.
  - destruct Hval as (stats' & Hval & Hperm).
    rewrite Hret in Hval. injection Hval as <- ->.
    destruct (Hexit _ eq_refl) as (H1 & H2 & H3 & H4).
    split; [done|]. split; [done|]. split; [done|]. left.
    split; [done|]. split; [|done]. by rewrite Hperm, H3.
  - by rewrite Hret in Hval.
Qed.

End GetSenderStats.

(** ** Records and counts *)

Lemma omap_key_sublist {A B C} (f : A -> option B) (ka : A -> C) (kb : B -> C)
    (l : list A) :
  (forall a b, f a = Some b -> kb b = ka a) ->
  (kb <$> omap f l) `sublist_of` (ka <$> l).
Proof.
  intros Hkey. induction l as [|a l IH]; [done|].
  cbn [omap list_omap]. fold (omap f l). destruct (f a) as [b|] eqn:Hf.
  - rewrite !fmap_cons, (Hkey a b Hf). by apply sublist_skip.
  - rewrite fmap_cons. by apply sublist_cons.
Qed.

Lemma ids_of_sublist email log : ids_of email log `sublist_of` log.*2.
Proof. unfold ids_of. apply fmap_sublist, sublist_filter. Qed.

Lemma senders_sublist tr : (senders tr).*2 `sublist_of` (get_calls tr).*1.
Proof.
  transitivity ((fetched tr).*1).
  - apply omap_key_sublist. intros [id message] [email id'] H.
    unfold logged in H. cbn [fst snd] in H.
    destruct (sender_of message); [|done]. by injection H as _ ->.
  - apply omap_key_sublist. intros [id [message|err]] [id' message'] H; [|done].
    by injection H as -> _.
Qed.

Lemma elem_of_ids_of email id log : id ∈ ids_of email log -> (email, id) ∈ log.
Proof.
  unfold ids_of. rewrite list_elem_of_fmap. intros ([e i] & -> & Hin).
  apply list_elem_of_filter in Hin as [He Hin]. cbn [fst snd] in *. by subst e.
Qed.

Lemma elem_of_senders email id tr :
  (email, id) ∈ senders tr ->
  exists message, EvGet id (Ok message) ∈ tr /\ sender_of message = Some email.
Proof.
  unfold senders, fetched, get_calls. rewrite list_elem_of_omap.
  intros ([id' message] & Hin & Hlog). unfold logged in Hlog. cbn [fst snd] in Hlog.
  destruct (sender_of message) as [e|] eqn:Hs; [|done]. injection Hlog as -> ->.
  apply list_elem_of_omap in Hin as ([id' [m|err]] & Hin & Hf); [|done].
  injection Hf as -> ->.
  apply list_elem_of_omap in Hin as (ev & Hin & Hev).
  destruct ev; try done. injection Hev as -> ->. by exists message.
Qed.

Lemma length_senders tr : GoInt.len (senders tr) = count has_from (fetched tr).
Proof.
  unfold senders, count, GoInt.len. f_equal.
  induction (fetched tr) as [|c l IH]; [done|].
  cbn [omap list_omap]. fold (omap logged l). rewrite filter_cons.
  destruct (decide (has_from c)) as [Hd|Hd]; unfold has_from in Hd.
  - apply bool_decide_unpack in Hd as [e He]. unfold logged at 1. rewrite He.
    cbn [fmap option_fmap option_map length]. by rewrite IH.
  - unfold logged at 1. destruct (sender_of c.2) as [e|]; [|done].
    destruct Hd. apply bool_decide_pack. by eexists.
Qed.

Lemma sum_list_with_fmap {A B} (f : B -> nat) (g : A -> B) (l : list A) :
  sum_list_with f (g <$> l) = sum_list_with (fun x => f (g x)) l.
Proof. induction l as [|x l IH]; [done|]. cbn. by rewrite IH. Qed.

(** The records of a returned slice are the records of the aggregate of the
    sender log. *)
Lemma elem_of_stats stats log r :
  stats ≡ₚ (map_to_list (aggregate log)).*2 ->
  r ∈ stats ->
  Ids r = ids_of (Email r) log /\ Ids r <> [] /\
  Count r = GoInt.wrap (GoInt.len (Ids r)) /\
  aggregate log !! Email r = Some r.
Proof.
  intros Hperm Hin. rewrite Hperm in Hin.
  apply list_elem_of_fmap in Hin as ([email r'] & -> & Hin).
  apply elem_of_map_to_list in Hin. cbn [snd].
  pose proof Hin as Hl. rewrite aggregate_lookup in Hl.
  apply record_for_Some in Hl as (He & Hi & Hne & Hc).
  rewrite He, Hi. done.
Qed.

(** The step: [upsert] keeps count and IDs in step, appends the new ID
    behind the IDs the sender already has, and leaves every other record
    alone. *)
Lemma upsert_step email id (senderMap : gmap string SenderStats) :
  counts_ids senderMap ->
  GoInt.len (ids_at email senderMap) < GoInt.max_int ->
  counts_ids (upsert email id senderMap) /\
  ids_at email (upsert email id senderMap) = ids_at email senderMap ++ [id] /\
  (forall email', email <> email' ->
     upsert email id senderMap !! email' = senderMap !! email').
Proof.
  intros Hinv Hfit. split; [|split].
  - intros email' r Hl. destruct (decide (email = email')) as [<-|Hne].
    + rewrite upsert_lookup in Hl. injection Hl as <-.
      unfold ids_at in Hfit.
      destruct (senderMap !! email) as [stats|] eqn:Hs; cbn [Email Count Ids].
      * destruct (Hinv _ _ Hs) as [He Hc]. split; [done|].
        rewrite Hc, add_no_overflow.
        -- unfold GoInt.len. rewrite length_app. cbn [length]. lia.
        -- unfold GoInt.min_int, GoInt.len in *. lia.
      * done.
    + rewrite upsert_lookup_ne in Hl by done. by apply Hinv.
  - unfold ids_at. rewrite upsert_lookup. by destruct (senderMap !! email).
  - intros email' Hne. by apply upsert_lookup_ne.
Qed.


Lemma first_from_split pre header post :
  Name header = "From" ->
  Forall (fun header' => Name header' <> "From") pre ->
  first_from (pre ++ header :: post) = Some header.
Proof.
  intros Hname Hpre. induction Hpre as [|header' pre Hne _ IH].
  - cbn [app]. by rewrite first_from_cons, decide_True.
  - cbn [app]. by rewrite first_from_cons, decide_False.
Qed.

Lemma first_from_none headers :
  Forall (fun header' => Name header' <> "From") headers ->
  first_from headers = None.
Proof.
  induction 1 as [|header' pre Hne _ IH]; [done|].
  by rewrite first_from_cons, decide_False.
Qed.

(** C10: the header loop uses the first header named [From] only, creating
    or updating the one record of that header's sender and no other; a
    header list without a [From] header leaves the map, and with it every
    record and every count, as it was. *)
Theorem header_loop_first_from (headers : list MessagePartHeader) (id : string)
    (senderMap : gmap string SenderStats) :
  (forall pre header post,
     headers = pre ++ header :: post ->
     Name header = "From" ->
     Forall (fun header' => Name header' <> "From") pre ->
     header_loop headers id senderMap =
       upsert (extractEmail (Value header)) id senderMap /\
     forall email, email <> extractEmail (Value header) ->
       header_loop headers id senderMap !! email = senderMap !! email) /\
  (Forall (fun header' => Name header' <> "From") headers ->
   header_loop headers id senderMap = senderMap).
Proof.
  split.
  - intros pre header post -> Hname Hpre.
    rewrite header_loop_spec, (first_from_split _ _ _ Hname Hpre).
    split; [done|]. intros email Hne. by apply upsert_lookup_ne.
  - intros Hnone. by rewrite header_loop_spec, (first_from_none _ Hnone).
Qed.

Lemma header_loop_first_from_witness :
  let headers := [ {| Name := "To"; Value := "me@z.net" |};
                   {| Name := "From"; Value := "Alice <a@x.com>" |};
                   {| Name := "From"; Value := "Mallory <m@evil.example>" |} ] in
  header_loop headers "m7" ∅ !! "a@x.com"
    = Some {| Email := "a@x.com"; Count := 1; Ids := ["m7"] |} /\
  header_loop headers "m7" ∅ !! "m@evil.example" = None /\
  header_loop [ {| Name := "from"; Value := "a@x.com" |} ] "m8" ∅ = ∅.
Proof.
  cbv zeta.
  destruct (header_loop_first_from
              [ {| Name := "To"; Value := "me@z.net" |};
                {| Name := "From"; Value := "Alice <a@x.com>" |};
                {| Name := "From"; Value := "Mallory <m@evil.example>" |} ]
              "m7" ∅) as [Hfirst _].
  destruct (Hfirst [ {| Name := "To"; Value := "me@z.net" |} ]
              {| Name := "From"; Value := "Alice <a@x.com>" |}
              [ {| Name := "From"; Value := "Mallory <m@evil.example>" |} ]
              eq_refl eq_refl) as [Heq Hother].
  { constructor; [discriminate|constructor]. }
  split; [by rewrite Heq|]. split.
  - rewrite Hother; [done|]. vm_compute. discriminate.
  - apply (proj2 (header_loop_first_from
                    [ {| Name := "from"; Value := "a@x.com" |} ] "m8" ∅)).
    constructor; [discriminate|constructor].
Defined.

Section Claims.
Context {W : Type} (h : Host W).

(** C4, as the code has it: the counts of the returned records add up to
    the number of messages whose metadata fetch succeeded AND whose headers
    have a [From] header; every ID that is counted belongs to a message
    that was fetched, so a message whose fetch failed is in no count. *)
Theorem counts_add_up (fuel : nat) (p : Proc W) (stats : list SenderStats) :
  value (getSenderStats h fuel p) = Some (stats, None) ->
  (forall r, r ∈ stats -> GoInt.len (Ids r) <= GoInt.max_int) ->
  let tr := trace (getSenderStats h fuel p) in
  sum_counts stats = count has_from (fetched tr) /\
  forall r id, r ∈ stats -> id ∈ Ids r ->
    exists message, EvGet id (Ok message) ∈ tr /\
                    sender_of message = Some (Email r).
Proof.
  intros Hret Hfit. cbv zeta.
  destruct (getSenderStats_returned h fuel p stats None Hret)
    as (_ & _ & _ & [(_ & Hperm & _)|(_ & req & msg & Herr & _)]); [|done].
  set (tr := trace (getSenderStats h fuel p)) in *. split.
  - rewrite sum_counts_lengths.
    + rewrite Hperm, sum_list_with_fmap, total_ids_aggregate.
      apply length_senders.
    + intros r Hr. destruct (elem_of_stats _ _ _ Hperm Hr) as (_ & _ & Hc & _).
      rewrite Hc. apply wrap_small. specialize (Hfit r Hr).
      unfold GoInt.min_int, GoInt.len in *. lia.
  - intros r id Hr Hid.
    destruct (elem_of_stats _ _ _ Hperm Hr) as (Hids & _).
    rewrite Hids in Hid. by apply elem_of_senders, elem_of_ids_of.
Qed.

(** C5, as the code has it: in every returned record the count is the
    number of IDs, and the IDs are those of the fetched messages of that
    sender in the order in which they were fetched; there is one record per
    sender; the IDs of a record are pairwise different when no message ID is
    listed twice (the code itself never compares IDs).  The map is built by
    one [upsert] per entry of the sender log, and each such step keeps the
    count equal to the number of IDs, appends the ID last and touches no
    other record. *)
Theorem records_count_their_ids (fuel : nat) (p : Proc W) (stats : list SenderStats) :
  value (getSenderStats h fuel p) = Some (stats, None) ->
  (forall r, r ∈ stats -> GoInt.len (Ids r) <= GoInt.max_int) ->
  let tr := trace (getSenderStats h fuel p) in
  (forall r, r ∈ stats ->
     Count r = GoInt.len (Ids r) /\
     Ids r = ids_of (Email r) (senders tr) /\
     (NoDup (listed_ids tr) -> NoDup (Ids r))) /\
  (forall r1 r2, r1 ∈ stats -> r2 ∈ stats -> Email r1 = Email r2 -> r1 = r2) /\
  stats ≡ₚ (map_to_list (upserts ∅ (senders tr))).*2 /\
  (forall senderMap email id,
     counts_ids senderMap ->
     GoInt.len (ids_at email senderMap) < GoInt.max_int ->
     counts_ids (upsert email id senderMap) /\
     ids_at email (upsert email id senderMap) = ids_at email senderMap ++ [id] /\
     forall email', email <> email' ->
       upsert email id senderMap !! email' = senderMap !! email').
Proof.
  intros Hret Hfit. cbv zeta.
  destruct (getSenderStats_returned h fuel p stats None Hret)
    as (_ & Hgets & _ & [(_ & Hperm & _)|(_ & req & msg & Herr & _)]); [|done].
  set (tr := trace (getSenderStats h fuel p)) in *.
  split; [|split; [|split; [done|]]].
  - intros r Hr. destruct (elem_of_stats _ _ _ Hperm Hr) as (Hids & _ & Hc & _).
    split; [|split; [done|]].
    + rewrite Hc. apply wrap_small. specialize (Hfit r Hr).
      unfold GoInt.min_int, GoInt.len in *. lia.
    + intros Hnd. rewrite Hids. rewrite <- Hgets in Hnd.
      eapply sublist_NoDup; [exact Hnd|].
      transitivity ((senders tr).*2); [apply ids_of_sublist|apply senders_sublist].
  - intros r1 r2 Hr1 Hr2 Heq.
    destruct (elem_of_stats _ _ _ Hperm Hr1) as (_ & _ & _ & H1).
    destruct (elem_of_stats _ _ _ Hperm Hr2) as (_ & _ & _ & H2).
    rewrite Heq in H1. congruence.
  - intros senderMap email id. apply upsert_step.
Qed.


End Claims.

(** ** The claims on the scripted mailbox *)

Lemma demo_stats_fit :
  forall r, r ∈ demo_stats -> GoInt.len (Ids r) <= GoInt.max_int.
Proof. apply Forall_forall. by_decide. Qed.

Lemma counts_add_up_witness :
  value (getSenderStats (scripted demo) 5 (start demo_pages)) = Some (demo_stats, None) /\
  sum_counts demo_stats =
    count has_from (fetched (trace (getSenderStats (scripted demo) 5 (start demo_pages)))).
Proof.
  assert (value (getSenderStats (scripted demo) 5 (start demo_pages))
          = Some (demo_stats, None)) as Hret by (vm_compute; reflexivity).
  split; [exact Hret|].
  exact (proj1 (counts_add_up (scripted demo) 5 (start demo_pages) demo_stats
                  Hret demo_stats_fit)).
Defined.

(** C4 as the spec words it fails: [m5] is fetched but has no [From]
    header, so one message was fetched and the counts add up to zero. *)
Lemma counts_add_up_to_fetched_fails : ~ counts_add_up_to_fetched.
Proof.
  intros Hclaim.
  specialize (Hclaim _ (scripted demo) 1%nat (start headerless_pages) []).
  assert (sum_counts [] =
          GoInt.len (fetched (trace (getSenderStats (scripted demo) 1
                                       (start headerless_pages))))) as Heq.
  { apply Hclaim; [vm_compute; reflexivity|].
    intros r Hr. by apply elem_of_nil in Hr. }
  vm_compute in Heq. discriminate Heq.
Qed.

Lemma records_count_their_ids_witness :
  value (getSenderStats (scripted demo) 5 (start demo_pages)) = Some (demo_stats, None) /\
  forall r, r ∈ demo_stats ->
    Count r = GoInt.len (Ids r) /\
    Ids r = ids_of (Email r)
              (senders (trace (getSenderStats (scripted demo) 5 (start demo_pages)))) /\
    (NoDup (listed_ids (trace (getSenderStats (scripted demo) 5 (start demo_pages)))) ->
     NoDup (Ids r)).
Proof.
  assert (value (getSenderStats (scripted demo) 5 (start demo_pages))
          = Some (demo_stats, None)) as Hret by (vm_compute; reflexivity).
  split; [exact Hret|].
  exact (proj1 (records_count_their_ids (scripted demo) 5 (start demo_pages)
                  demo_stats Hret demo_stats_fit)).
Defined.

(** C5 as the spec words it fails: the listing shows [m1] on two pages and
    the record of its sender holds the ID twice. *)
Lemma records_without_duplicates_fails : ~ records_without_duplicates.
Proof.
  intros Hclaim.
  specialize (Hclaim _ (scripted demo) 2%nat (start repeating_pages)
                [ {| Email := "a@x.com"; Count := 2; Ids := ["m1"; "m1"] |} ]).
  destruct (Hclaim ltac:(vm_compute; reflexivity)
              ltac:(apply Forall_forall; by_decide)
              {| Email := "a@x.com"; Count := 2; Ids := ["m1"; "m1"] |}
              ltac:(by left)) as [_ Hnd].
  cbn [Ids] in Hnd. apply NoDup_cons in Hnd as [Hnotin _].
  apply Hnotin. by left.
Qed.


(** ** Determinism *)

Lemma omap_filter_irrelevant {A B} (f : A -> option B) (P : A -> bool) (l : list A) :
  (forall x, P x = false -> f x = None) ->
  omap f (filter (fun x => P x) l) = omap f l.
Proof.
  intros Hirr. induction l as [|x l IH]; [done|].
  rewrite filter_cons. destruct (decide (P x)) as [HP|HP].
  - change (omap f (x :: ?k)) with
      (match f x with Some y => y :: omap f k | None => omap f k end).
    by rewrite IH.
  - change (omap f (x :: l)) with
      (match f x with Some y => y :: omap f l | None => omap f l end).
    rewrite (Hirr x); [done|]. by destruct (P x).
Qed.

Lemma list_calls_service tr : list_calls (service_events tr) = list_calls tr.
Proof. apply omap_filter_irrelevant. by intros []. Qed.

Lemma senders_service tr : senders (service_events tr) = senders tr.
Proof.
  unfold senders, fetched, get_calls, service_events.
  rewrite omap_filter_irrelevant; [done|]. by intros [].
Qed.

(** Only the last page request of a harvest can fail. *)
Lemma paginated_failure_last calls :
  forall pageToken req msg,
    paginated pageToken calls -> (req, Err msg) ∈ calls ->
    last calls = Some (req, Err msg).
Proof.
  induction calls as [|c rest IH]; intros pageToken req msg Hp Hin; [done|].
  cbn [paginated] in Hp. destruct Hp as [_ Hp].
  apply elem_of_cons in Hin as [<-|Hin].
  - cbn [snd] in Hp. by subst rest.
  - destruct (c.2) as [r|err].
    + destruct (decide (NextPageToken r = "")).
      * subst rest. by apply elem_of_nil in Hin.
      * rewrite last_cons, (IH _ _ _ Hp Hin). done.
    + subst rest. by apply elem_of_nil in Hin.
Qed.

(** C9: the records that [getSenderStats] returns are determined by the
    pages and the metadata that the service returned.  Two harvests with
    the same exchanges with the service return the same error and the same
    records, each with the same count and the same IDs in the same order;
    the order of the records in the two slices is up to the runtime. *)
Theorem aggregation_deterministic {W1 W2 : Type} (h1 : Host W1) (h2 : Host W2)
    (fuel1 fuel2 : nat) (p1 : Proc W1) (p2 : Proc W2)
    (stats1 stats2 : list SenderStats) (err1 err2 : error) :
  value (getSenderStats h1 fuel1 p1) = Some (stats1, err1) ->
  value (getSenderStats h2 fuel2 p2) = Some (stats2, err2) ->
  service_events (trace (getSenderStats h1 fuel1 p1)) =
    service_events (trace (getSenderStats h2 fuel2 p2)) ->
  err1 = err2 /\ stats1 ≡ₚ stats2 /\ (forall r, r ∈ stats1 <-> r ∈ stats2).
Proof.
  intros Hret1 Hret2 Hsame.
  pose proof (f_equal list_calls Hsame) as Hcalls.
  pose proof (f_equal senders Hsame) as Hlog.
  rewrite !list_calls_service in Hcalls. rewrite !senders_service in Hlog.
  destruct (getSenderStats_returned h1 fuel1 p1 _ _ Hret1) as (_ & _ & Hp1 & Hcase1).
  destruct (getSenderStats_returned h2 fuel2 p2 _ _ Hret2) as (_ & _ & Hp2 & Hcase2).
  cbv zeta in *.
  assert (err1 = err2 /\ stats1 ≡ₚ stats2) as [He Hs].
  { destruct Hcase1 as [(-> & Hperm1 & Hok1)|(-> & req1 & msg1 & -> & Hin1)];
      destruct Hcase2 as [(-> & Hperm2 & Hok2)|(-> & req2 & msg2 & -> & Hin2)].
    - split; [done|]. by rewrite Hperm1, Hperm2, Hlog.
    - rewrite <- Hcalls in Hin2. rewrite Forall_forall in Hok1.
      by destruct (Hok1 _ Hin2) as [r Hr].
    - rewrite Hcalls in Hin1. rewrite Forall_forall in Hok2.
      by destruct (Hok2 _ Hin1) as [r Hr].
    - split; [|done].
      pose proof (paginated_failure_last _ _ _ _ Hp1 Hin1) as Hl1.
      pose proof (paginated_failure_last _ _ _ _ Hp2 Hin2) as Hl2.
      rewrite Hcalls in Hl1. congruence. }
  split; [done|]. split; [done|]. intros r. by rewrite Hs.
Qed.

Lemma aggregation_deterministic_witness :
  let run1 := getSenderStats (scripted demo) 5 (start demo_pages) in
  let run2 := getSenderStats (scripted demo_reversed) 2 (start demo_pages) in
  value run1 = Some (demo_stats, None) /\
  value run2 = Some (reverse demo_stats, None) /\
  demo_stats ≡ₚ reverse demo_stats.
Proof.
  cbv zeta.
  assert (value (getSenderStats (scripted demo) 5 (start demo_pages))
          = Some (demo_stats, None)) as Hret1 by (vm_compute; reflexivity).
  assert (value (getSenderStats (scripted demo_reversed) 2 (start demo_pages))
          = Some (reverse demo_stats, None)) as Hret2 by (vm_compute; reflexivity).
  split; [exact Hret1|]. split; [exact Hret2|].
  refine (proj1 (proj2 (aggregation_deterministic _ _ _ _ _ _ _ _ _ _ Hret1 Hret2 _))).
  vm_compute. reflexivity.
Defined.

(** ** Pagination *)

Lemma page_request_token pageToken :
  pageToken <> "" -> page_request pageToken = Some pageToken.
Proof. intros H. unfold page_request. apply String.eqb_neq in H. by rewrite H. Qed.

(** [paginated], call by call. *)
Lemma paginated_index calls :
  forall pageToken,
    paginated pageToken calls ->
    (exists resp, calls !! 0%nat = Some (page_request pageToken, resp)) /\
    (forall i c, calls !! i = Some c -> (is_Some (calls !! S i) <-> has_token c)) /\
    (forall i c r c', calls !! i = Some c -> c.2 = Ok r -> calls !! S i = Some c' ->
                      c'.1 = Some (NextPageToken r)).
Proof.
  induction calls as [|c rest IH]; intros pageToken Hp; [done|].
  cbn [paginated] in Hp. destruct Hp as [Hreq Hp].
  split; [exists c.2; cbn; f_equal; by destruct c; cbn in *; subst|].
  destruct (c.2) as [r|err] eqn:Hresp.
  - destruct (decide (NextPageToken r = "")) as [Htok|Htok].
    + subst rest. split.
      * intros [|i] c0 Hc0; [|done]. injection Hc0 as <-. cbn. split.
        -- by intros [? ?].
        -- intros (r' & Hr' & Hne). congruence.
      * by intros [|i] c0 r0 c' Hc0 _ Hc'.
    + destruct (IH _ Hp) as ((resp' & Hhead) & Hnext & Hchain). split.
      * intros [|i] c0 Hc0.
        -- injection Hc0 as <-.
           change ((c :: rest) !! 1%nat) with (rest !! 0%nat). split.
           ++ intros _. by exists r.
           ++ intros _. by rewrite Hhead.
        -- by apply (Hnext i c0).
      * intros [|i] c0 r0 c' Hc0 Hr0 Hc'.
        -- injection Hc0 as <-. change ((c :: rest) !! 1%nat) with (rest !! 0%nat) in Hc'.
           rewrite Hhead in Hc'. injection Hc' as <-. cbn [fst].
           rewrite Hresp in Hr0. injection Hr0 as <-.
           by apply page_request_token.
        -- by apply (Hchain i c0 r0 c').
  - subst rest. split.
    + intros [|i] c0 Hc0; [|done]. injection Hc0 as <-. cbn. split.
      * by intros [? ?].
      * intros (r' & Hr' & Hne). congruence.
    + by intros [|i] c0 r0 c' Hc0 _ Hc'.
Qed.

Section Fuel.
Context {W : Type} (h : Host W).

(** The loop is still running after [fuel] iterations only when every one
    of its [fuel] page requests was answered with a continuation token. *)
Lemma page_loop_out_of_fuel (fuel : nat) :
  forall pageToken senderMap (p : Proc W),
    let r := page_loop h fuel pageToken senderMap p in
    value r = None ->
    length (list_calls (trace r)) = fuel /\ Forall has_token (list_calls (trace r)).
Proof.
  induction fuel as [|fuel IH]; intros pageToken senderMap p; cbv zeta.
  - intros _. by cbn.
  - destruct (Messages_List h (page_request pageToken) (world p))
      as [[r|err] w] eqn:Hcall.
    + pose proof (message_loop_spec h (Messages r) senderMap (set_world p w)) as Hml.
      cbv zeta in Hml. destruct Hml as (_ & _ & M3 & _).
      destruct (decide (NextPageToken r = "")) as [Htok|Htok].
      * by rewrite (page_loop_last h _ _ _ _ _ _ Hcall Htok).
      * rewrite (page_loop_more h _ _ _ _ _ _ Hcall Htok). cbv zeta.
        rewrite value_mk, trace_mk. intros Hnone.
        destruct (IH _ _ _ Hnone) as [Hlen Hall].
        rewrite list_calls_cons, list_calls_app, M3. cbn [as_list app length].
        split; [by rewrite Hlen|]. constructor; [by exists r|done].
    + by rewrite (page_loop_failed h _ _ _ _ _ _ Hcall).
Qed.

(** Once the loop has been left, more fuel changes nothing. *)
Lemma page_loop_more_fuel (fuel : nat) :
  forall k pageToken senderMap (p : Proc W) exit,
    value (page_loop h fuel pageToken senderMap p) = Some exit ->
    page_loop h (fuel + k) pageToken senderMap p =
      page_loop h fuel pageToken senderMap p.
Proof.
  induction fuel as [|fuel IH]; intros k pageToken senderMap p exit; [done|].
  change (S fuel + k)%nat with (S (fuel + k)).
  destruct (Messages_List h (page_request pageToken) (world p))
    as [[r|err] w] eqn:Hcall.
  - destruct (decide (NextPageToken r = "")) as [Htok|Htok].
    + by rewrite !(page_loop_last h _ _ _ _ _ _ Hcall Htok).
    + rewrite !(page_loop_more h _ _ _ _ _ _ Hcall Htok). cbv zeta.
      rewrite value_mk. intros Hv. by rewrite (IH k _ _ _ _ Hv).
  - by rewrite !(page_loop_failed h _ _ _ _ _ _ Hcall).
Qed.

Lemma getSenderStats_more_fuel (fuel k : nat) (p : Proc W) ret :
  value (getSenderStats h fuel p) = Some ret ->
  getSenderStats h (fuel + k) p = getSenderStats h fuel p.
Proof.
  intros Hret. destruct (getSenderStats_run h fuel p) as [_ Hv]. cbv zeta in Hv.
  unfold harvest in Hv.
  destruct (value (page_loop h fuel "" ∅ p)) as [exit|] eqn:Hexit.
  - unfold getSenderStats. unfold bind at 1 3.
    by rewrite (page_loop_more_fuel fuel k _ _ _ _ Hexit).
  - congruence.
Qed.

End Fuel.

Lemma scripted_message_loop (s : Script) (ids : list string) :
  forall senderMap (p : Proc (list (result ListMessagesResponse))),
    message_loop (scripted s) (listed <$> ids) senderMap p =
      (upserts senderMap (omap (scripted_log s) ids), p, ids ≫= scripted_fetch s).
Proof.
  induction ids as [|id ids IH]; intros senderMap [w c e]; [done|].
  rewrite fmap_cons.
  change (omap (scripted_log s) (id :: ids)) with
    (match scripted_log s id with
     | Some x => x :: omap (scripted_log s) ids
     | None => omap (scripted_log s) ids
     end).
  change ((id :: ids) ≫= scripted_fetch s) with
    (scripted_fetch s id ++ (ids ≫= scripted_fetch s)).
  unfold scripted_log at 1, scripted_fetch at 1.
  destruct (script_get s id) as [message|err] eqn:Hget.
  - rewrite (message_loop_fetched (scripted s) (listed id) _ _ _ message w)
      by (cbn; by rewrite Hget).
    cbv zeta. rewrite IH, value_mk, final_mk, trace_mk. cbn [set_world world authCode authErr].
    f_equal. f_equal. rewrite header_loop_spec. unfold logged, sender_of. cbn [fst snd Id listed].
    by destruct (first_from (Headers (Payload message))).
  - rewrite (message_loop_failed (scripted s) (listed id) _ _ _ err w)
      by (cbn; by rewrite Hget).
    cbv zeta. by rewrite IH, value_mk, final_mk, trace_mk.
Qed.

(** The IDs that the log of a scripted mailbox attributes to a sender are
    the listed IDs whose message has this sender, in listing order. *)
Lemma ids_of_scripted_log (s : Script) (email : string) (ids : list string) :
  ids_of email (omap (scripted_log s) ids) =
    filter (fun id => scripted_sender s id = Some email) ids.
Proof.
  unfold ids_of. induction ids as [|id ids IH]; [done|].
  rewrite filter_cons. cbn [omap list_omap]. fold (omap (scripted_log s) ids).
  assert (scripted_log s id = (fun email => (email, id)) <$> scripted_sender s id)
    as -> by (unfold scripted_log, scripted_sender, logged;
              by destruct (script_get s id)).
  destruct (scripted_sender s id) as [email'|];
    cbn [fmap option_fmap option_map].
  - rewrite filter_cons. cbn [fst].
    destruct (decide (email' = email)) as [->|Hne].
    + rewrite decide_True by done. cbn [fmap list_fmap snd]. by rewrite <- IH.
    + rewrite decide_False by congruence. done.
  - rewrite decide_False by done. done.
Qed.

(** A slice that holds the records of the aggregate of a sender log, read
    without the aggregate: one record per sender, and a record is in the
    slice exactly when its IDs are the IDs that the log has for its sender,
    there is at least one, and its count is their number. *)
Lemma stats_of_log (stats : list SenderStats) (log : list (string * string)) :
  stats ≡ₚ (map_to_list (aggregate log)).*2 ->
  GoInt.len log <= GoInt.max_int ->
  NoDup (Email <$> stats) /\
  forall r, r ∈ stats <->
    Ids r <> [] /\ Ids r = ids_of (Email r) log /\ Count r = GoInt.len (Ids r).
Proof.
  intros Hperm Hfit.
  assert (forall email, GoInt.wrap (GoInt.len (ids_of email log))
                        = GoInt.len (ids_of email log)) as Hwrap.
  { intros email. apply wrap_small.
    pose proof (sublist_length _ _ (ids_of_sublist email log)) as Hle.
    rewrite length_fmap in Hle.
    unfold GoInt.min_int, GoInt.len in *. lia. }
  split.
  - rewrite Hperm.
    replace (Email <$> (map_to_list (aggregate log)).*2)
      with ((map_to_list (aggregate log)).*1); [apply NoDup_fst_map_to_list|].
    rewrite <- list_fmap_compose. apply Forall_fmap_ext, Forall_forall.
    intros [email r] Hin. apply elem_of_map_to_list in Hin.
    rewrite aggregate_lookup in Hin.
    apply record_for_Some in Hin as (He & _). cbn. by rewrite He.
  - intros r. split.
    + intros Hr. destruct (elem_of_stats _ _ _ Hperm Hr) as (Hids & Hne & Hc & _).
      split; [done|]. split; [done|]. rewrite Hc, Hids. apply Hwrap.
    + intros (Hne & Hids & Hc). rewrite Hperm.
      apply list_elem_of_fmap. exists (Email r, r). split; [done|].
      apply elem_of_map_to_list. rewrite aggregate_lookup.
      rewrite <- Hids. destruct r as [email count ids]. cbn in *.
      destruct ids as [|id ids]; [done|]. cbn [record_for]. do 2 f_equal.
      rewrite Hc. rewrite Hids. by rewrite Hwrap.
Qed.

(** The scenario of the spec: pages [[A, B]], [[C]], [[]]. *)
Lemma three_pages_harvest (s : Script) (A B C t1 t2 : string) (n : nat) :
  t1 <> "" -> t2 <> "" ->
  let run := harvest (scripted s) (3 + n) (start (three_pages A B C t1 t2)) in
  value run = Some (Break (aggregate (omap (scripted_log s) [A; B; C]))) /\
  trace run =
    EvList None (page [A; B] t1) :: scripted_fetch s A ++ scripted_fetch s B ++
    EvList (Some t1) (page [C] t2) :: scripted_fetch s C ++
    [EvList (Some t2) (page [] "")].
Proof.
  intros Ht1 Ht2. cbv zeta. unfold harvest, three_pages.
  change (3 + n)%nat with (S (S (S n))).
  erewrite (page_loop_more (scripted s) _ "" ∅ _
              {| Messages := listed <$> [A; B]; NextPageToken := t1 |});
    [|reflexivity|exact Ht1].
  cbv zeta. cbn [Messages NextPageToken]. rewrite scripted_message_loop.
  rewrite !value_mk, !final_mk, !trace_mk.
  erewrite (page_loop_more (scripted s) _ t1 _ _
              {| Messages := listed <$> [C]; NextPageToken := t2 |});
    [|reflexivity|exact Ht2].
  cbv zeta. cbn [Messages NextPageToken]. rewrite scripted_message_loop.
  rewrite !value_mk, !final_mk, !trace_mk.
  erewrite (page_loop_last (scripted s) _ t2 _ _
              {| Messages := listed <$> []; NextPageToken := "" |});
    [|reflexivity|reflexivity].
  cbv zeta. cbn [Messages NextPageToken]. rewrite scripted_message_loop.
  rewrite !value_mk, !final_mk, !trace_mk.
  rewrite !(page_request_token _ Ht1), !(page_request_token _ Ht2).
  split.
  - do 2 f_equal. unfold aggregate. rewrite <- !upserts_app. unfold upserts.
    f_equal. by rewrite <- !omap_app.
  - change (page_request "") with (@None string).
    cbn [mbind list_bind app]. rewrite !app_nil_r.
    by rewrite <- !app_assoc.
Qed.

(** C6: a page request is followed by another one exactly when its answer
    carries a continuation token; the first request carries no token and
    each later one the token of the answer before it.  A harvest that has
    returned returns the same with more fuel, and a harvest that is still
    running when its fuel is used up has seen a token on every page.  Fed
    the pages [[A, B]], [[C]], [[]], the last without token, the harvest
    returns after exactly three page requests, having fetched [A], [B] and
    [C] in this order, with exactly the records of the senders of [A], [B]
    and [C]: one record per sender, and a record is returned exactly when
    its IDs are those of [A], [B], [C] (in this order) whose message has its
    sender, there is at least one, and its count is their number. *)
Theorem pagination_stops_without_token :
  (forall (W : Type) (h : Host W) (fuel : nat) (p : Proc W),
     let run := getSenderStats h fuel p in
     let calls := list_calls (trace run) in
     match value run with
     | Some _ =>
         (exists resp, calls !! 0%nat = Some (None, resp)) /\
         (forall i c, calls !! i = Some c -> (is_Some (calls !! S i) <-> has_token c)) /\
         (forall i c r c', calls !! i = Some c -> c.2 = Ok r -> calls !! S i = Some c' ->
                           c'.1 = Some (NextPageToken r)) /\
         (forall k, getSenderStats h (fuel + k) p = run)
     | None => length calls = fuel /\ Forall has_token calls
     end) /\
  (forall (s : Script) (A B C t1 t2 : string) (n : nat),
     t1 <> "" -> t2 <> "" ->
     let run := getSenderStats (scripted s) (3 + n) (start (three_pages A B C t1 t2)) in
     (exists stats,
        value run = Some (stats, None) /\
        NoDup (Email <$> stats) /\
        forall r, r ∈ stats <->
          Ids r <> [] /\
          Ids r = filter (fun id => scripted_sender s id = Some (Email r)) [A; B; C] /\
          Count r = GoInt.len (Ids r)) /\
     list_calls (trace run) =
       [(None, page [A; B] t1); (Some t1, page [C] t2); (Some t2, page [] "")] /\
     (get_calls (trace run)).*1 = [A; B; C]).
Proof.
  split.
  - intros W h fuel p. cbv zeta.
    destruct (value (getSenderStats h fuel p)) as [[stats err]|] eqn:Hret.
    + destruct (getSenderStats_returned h fuel p stats err Hret) as (_ & _ & Hp & _).
      cbv zeta in Hp. apply paginated_index in Hp as (Hhead & Hnext & Hchain).
      split; [done|]. split; [done|]. split; [done|].
      intros k. by apply (getSenderStats_more_fuel h fuel k p (stats, err)).
    + destruct (getSenderStats_run h fuel p) as (Htr & Hv). cbv zeta in Hv.
      rewrite Htr. unfold harvest in *.
      destruct (value (page_loop h fuel "" ∅ p)) as [[stats err|senderMap]|] eqn:Hexit.
      * congruence.
      * destruct Hv as (stats & Hv & _). congruence.
      * by apply page_loop_out_of_fuel.
  - intros s A B C t1 t2 n Ht1 Ht2. cbv zeta.
    destruct (three_pages_harvest s A B C t1 t2 n Ht1 Ht2) as (Hv & Htrace).
    cbv zeta in Hv, Htrace.
    destruct (getSenderStats_run (scripted s) (3 + n) (start (three_pages A B C t1 t2)))
      as (Htr & Hval).
    cbv zeta in Hval. rewrite Hv in Hval. rewrite Htr, Htrace. split.
    { destruct Hval as (stats & Hret & Hperm). exists stats. split; [done|].
      destruct (stats_of_log stats (omap (scripted_log s) [A; B; C]) Hperm)
        as (Hnd & Hin).
      - unfold GoInt.len, GoInt.max_int. cbn [omap list_omap].
        destruct (scripted_log s A), (scripted_log s B), (scripted_log s C);
          cbn [length]; lia.
      - split; [done|]. intros r. rewrite (Hin r).
        by rewrite ids_of_scripted_log. }
    assert (forall id, list_calls (scripted_fetch s id) = [] /\
                       (get_calls (scripted_fetch s id)).*1 = [id]) as Hfetch.
    { intros id. unfold scripted_fetch. by destruct (script_get s id). }
    rewrite !list_calls_cons, !get_calls_cons. cbn [as_list as_get].
    rewrite !list_calls_app, !get_calls_app, !list_calls_cons, !get_calls_cons.
    cbn [as_list as_get]. rewrite !list_calls_app, !get_calls_app.
    rewrite !list_calls_cons, !get_calls_cons. cbn [as_list as_get].
    rewrite !fmap_app.
    rewrite !(proj1 (Hfetch _)), !(proj2 (Hfetch _)). done.
Qed.

Lemma pagination_stops_without_token_witness :
  let run := getSenderStats (scripted demo) 3 (start (three_pages "m1" "m2" "m3" "p2" "p3")) in
  (exists stats,
     value run = Some (stats, None) /\
     NoDup (Email <$> stats) /\
     {| Email := "a@x.com"; Count := 2; Ids := ["m1"; "m3"] |} ∈ stats /\
     {| Email := "bob@y.org"; Count := 1; Ids := ["m2"] |} ∈ stats /\
     forall r, r ∈ stats -> Email r = "a@x.com" \/ Email r = "bob@y.org") /\
  value run = Some (demo_stats, None) /\
  length (list_calls (trace run)) = 3%nat /\
  (get_calls (trace run)).*1 = ["m1"; "m2"; "m3"].
Proof.
  cbv zeta.
  destruct (proj2 pagination_stops_without_token demo "m1" "m2" "m3" "p2" "p3" 0%nat)
    as ((stats & Hret & Hnd & Hin) & Hcalls & Hgets); [discriminate..|].
  cbv zeta in Hcalls, Hgets. change (3 + 0)%nat with 3%nat in *.
  split; [|split; [vm_compute; reflexivity|split; [by rewrite Hcalls|exact Hgets]]].
  exists stats. split; [exact Hret|]. split; [exact Hnd|].
  split; [|split].
  - apply Hin. vm_compute. split; [discriminate|split; reflexivity].
  - apply Hin. vm_compute. split; [discriminate|split; reflexivity].
  - intros r Hr. apply Hin in Hr as (Hne & Hids & _).
    destruct (decide (Email r = "a@x.com")) as [|Hna]; [by left|].
    destruct (decide (Email r = "bob@y.org")) as [|Hnb]; [by right|].
    exfalso. apply Hne. rewrite Hids.
    rewrite !filter_cons, filter_nil.
    change (scripted_sender demo "m1") with (Some "a@x.com").
    change (scripted_sender demo "m2") with (Some "bob@y.org").
    change (scripted_sender demo "m3") with (Some "a@x.com").
    do 3 rewrite decide_False
      by (intros [= H]; first [exact (Hna (eq_sym H))|exact (Hnb (eq_sym H))]).
    done.
Defined.

(** ** The token functions *)

Section Token.
Context {W : Type} (h : Host W).

Lemma saveToken_run path token (p : Proc W) :
  saveToken h path token p =
    match json_Marshal h token with
    | Err err => (Some err, p, [])
    | Ok data =>
        (None, set_world p (os_WriteFile h path data 384 (world p)).2,
         [EvWriteFile path data 384 (os_WriteFile h path data 384 (world p)).1])
    end.
Proof.
  unfold saveToken. destruct (json_Marshal h token) as [data|err]; [|done].
  unfold bind, call, ret. by destruct (os_WriteFile h path data 384 (world p)).
Qed.

Lemma after_callback_token config (p : Proc W) :
  (value (after_callback h config p)).2 = None ->
  exists code tok,
    (value (after_callback h config p)).1 = Some tok /\
    EvExchange code (Ok tok) ∈ trace (after_callback h config p).
Proof.
  unfold after_callback, bind, read_authErr, read_authCode, call, Printf, emit, ret.
  destruct (authErr p) as [err|]; [done|].
  destruct (Exchange h config (authCode p) (world p)) as [[tok|err] w]; [|done].
  rewrite value_mk, trace_mk. intros _. exists (authCode p), tok.
  split; [done|]. cbn [app]. by left.
Qed.

(** When [getTokenFromWeb] returns no error, it returns the token that the
    exchange returned. *)
Lemma getTokenFromWeb_token config (p : Proc W) :
  (value (getTokenFromWeb h config p)).2 = None ->
  exists code tok,
    (value (getTokenFromWeb h config p)).1 = Some tok /\
    EvExchange code (Ok tok) ∈ trace (getTokenFromWeb h config p).
Proof.
  unfold getTokenFromWeb. cbv zeta.
  repeat progress rewrite ?value_bind, ?trace_bind, ?final_bind.
  unfold ret. rewrite !value_mk.
  set (p1 := final (wg_Wait h _)). intros Herr.
  destruct (after_callback_token config p1 Herr) as (code & tok & Htok & Hin).
  exists code, tok. split; [done|].
  rewrite !elem_of_app. right. right. by left.
Qed.

(** C8, as the code has it: when the token comes from the web, [getClient]
    returns the client built from that token and no error, whatever becomes
    of [saveToken]; [saveToken] causes nothing but the write of the file: it
    ignores the result of [os.WriteFile], logs nothing and prints nothing,
    and [getClient] ignores what [saveToken] returns. *)
Theorem getClient_survives_persist_failure (config : Config) (p : Proc W) :
  let load := tokenFromFile h "token.json" p in
  let web := getTokenFromWeb h config (final load) in
  let save := saveToken h "token.json" (value web).1 (final web) in
  (value load).2 <> None ->
  (value web).2 = None ->
  value (getClient h config p) =
    (Some {| client_config := config; client_token := (value web).1 |}, None) /\
  trace (getClient h config p) = trace load ++ trace web ++ trace save /\
  (exists code tok,
     (value web).1 = Some tok /\ EvExchange code (Ok tok) ∈ trace web) /\
  (forall ev, ev ∈ trace save ->
     exists data resp, ev = EvWriteFile "token.json" data 384 resp) /\
  (forall data, json_Marshal h (value web).1 = Ok data -> value save = None).
Proof.
  cbv zeta. intros Hload Hweb.
  split; [|split; [|split; [by apply getTokenFromWeb_token|split]]].
  - unfold getClient. cbv zeta. rewrite value_bind.
    destruct ((value (tokenFromFile h "token.json" p)).2) as [err|]; [|done].
    rewrite value_bind, Hweb, value_bind. unfold ret. by rewrite value_mk.
  - unfold getClient. cbv zeta. rewrite trace_bind.
    destruct ((value (tokenFromFile h "token.json" p)).2) as [err|]; [|done].
    rewrite trace_bind, Hweb, trace_bind. unfold ret. by rewrite trace_mk, app_nil_r.
  - intros ev. rewrite saveToken_run.
    destruct (json_Marshal h _) as [data|err]; rewrite trace_mk.
    + intros Hin. apply list_elem_of_singleton in Hin as ->. by eexists _, _.
    + intros Hin. by apply elem_of_nil in Hin.
  - intros data Hm. by rewrite saveToken_run, Hm.
Qed.

End Token.

Lemma getClient_survives_persist_failure_witness :
  let run := getClient (scripted demo) demo_config (start []) in
  value run =
    (Some {| client_config := demo_config;
             client_token := Some {| AccessToken := "ya29.4/0AX4XfWh";
                                     RefreshToken := "1//0g";
                                     Expiry := "2025-01-01" |} |}, None) /\
  last (trace run) =
    Some (EvWriteFile "token.json" "ya29.4/0AX4XfWh" 384
            (Some "open token.json: permission denied")).
Proof.
  cbv zeta.
  destruct (getClient_survives_persist_failure (scripted demo) demo_config (start []))
    as (Hv & Ht & _); [vm_compute; discriminate|vm_compute; reflexivity|].
  split.
  - rewrite Hv. vm_compute. reflexivity.
  - rewrite Ht. vm_compute. reflexivity.
Defined.

(** C8 as the spec words it fails: the token file cannot be written and the
    run ends with that write; nothing is logged or printed after it. *)
Lemma persist_failure_logged_fails : ~ persist_failure_logged.
Proof.
  intros Hclaim.
  specialize (Hclaim _ (scripted demo) demo_config (start [])). cbv zeta in Hclaim.
  destruct (Hclaim 6%nat "token.json" "ya29.4/0AX4XfWh" 384
              "open token.json: permission denied" ltac:(vm_compute; reflexivity))
    as (j & text & Hlt & Hj).
  assert (length (trace (getClient (scripted demo) demo_config (start []))) = 7%nat)
    as Hlen by (vm_compute; reflexivity).
  destruct Hj as [Hj|Hj]; apply lookup_lt_Some in Hj; lia.
Qed.

(** * Part III: further properties of the code *)

(** ** [extractEmail], once more *)

Lemma extractEmail_no_lt (s : string) :
  "<"%char ∉ bytes s -> extractEmail s = s.
Proof.
  intros Hno. unfold extractEmail.
  pose proof (LastIndex_absent "<"%char s Hno) as Hm.
  change (byte_string "<") with "<" in Hm. by rewrite Hm.
Qed.

(** The two ways [extractEmail] can go. *)
Lemma extractEmail_cases (from : string) :
  extractEmail from = from \/
  exists pre mid post,
    bracketed from pre mid post /\ (">"%char ∉ bytes post) /\
    extractEmail from = mid.
Proof.
  unfold extractEmail at 1.
  destruct (LastIndex from "<" >=? 0) eqn:E1; [|by left].
  destruct (LastIndex from ">" >? LastIndex from "<") eqn:E2; [|by left].
  right. apply Z.geb_le in E1. apply Z.gtb_lt in E2.
  destruct (guard_bracketed from) as (pre & mid & post & Hb & Hpost); [lia..|].
  exists pre, mid, post. split; [done|]. split; [done|].
  by apply (extractEmail_bracketed from pre mid post).
Qed.

(** What [extractEmail] returns is its argument or holds no ['<']. *)
Lemma extractEmail_result (from : string) :
  extractEmail from = from \/ "<"%char ∉ bytes (extractEmail from).
Proof.
  destruct (extractEmail_cases from) as [Heq|(pre & mid & post & Hb & _ & Heq)].
  - by left.
  - right. rewrite Heq. by destruct Hb as (_ & Hmid & _).
Qed.

(** X1: a sender identity is a fixed point of [extractEmail]: extracting
    from what was extracted changes nothing. *)
Theorem extractEmail_idempotent (from : string) :
  extractEmail (extractEmail from) = extractEmail from.
Proof.
  destruct (extractEmail_result from) as [Heq|Hno].
  - by rewrite !Heq.
  - by apply extractEmail_no_lt.
Qed.

(** X2: what [extractEmail] returns is a contiguous part of its argument;
    when it is not the whole argument, it holds no ['<'] and is at least
    two bytes shorter (the two brackets are dropped). *)
Theorem extractEmail_part (from : string) :
  exists pre post,
    from = pre +:+ extractEmail from +:+ post /\
    (extractEmail from <> from ->
     ("<"%char ∉ bytes (extractEmail from)) /\
     len (extractEmail from) + 2 <= len from).
Proof.
  destruct (extractEmail_cases from) as [Heq|(pre & mid & post & Hb & _ & Heq)].
  - exists "", "". rewrite Heq. split; [|done].
    change ("" +:+ from +:+ "") with (from +:+ "").
    clear. induction from as [|a s IH]; [done|].
    change (String a s +:+ "") with (String a (s +:+ "")). by rewrite <- IH.
  - rewrite Heq. destruct Hb as (-> & Hmid & _).
    exists (pre +:+ "<"), (">" +:+ post). split.
    + by rewrite string_app_assoc.
    + intros _. split; [done|]. rewrite !len_app.
      change (len "<") with 1. change (len ">") with 1.
      pose proof (len_nonneg pre). pose proof (len_nonneg post). lia.
Qed.

Lemma extractEmail_part_witness :
  let from := "Bob <b@y.org> <Alice <a@x.com>" in
  ("<"%char ∉ bytes (extractEmail from)) /\
  len (extractEmail from) + 2 <= len from.
Proof.
  cbv zeta.
  destruct (extractEmail_part "Bob <b@y.org> <Alice <a@x.com>")
    as (pre & post & _ & H).
  apply H. vm_compute. discriminate.
Defined.

(** ** [deleteEmails], once more *)

Lemma prints_app tr1 tr2 : prints (tr1 ++ tr2) = prints tr1 ++ prints tr2.
Proof. apply omap_app. Qed.

Lemma prints_cons ev tr :
  prints (ev :: tr) =
    match as_print ev with Some t => t :: prints tr | None => prints tr end.
Proof. done. Qed.

Lemma prints_progress c :
  prints (progress c) =
    if GoInt.rem c 10 =? 0 then [progress_text c] else [].
Proof. unfold progress. by destruct (_ =? 0). Qed.

Section DeleteEmailsMore.
Context {W : Type} (h : Host W).

Lemma delete_loop_count_bounds (ids : list string) :
  forall (deleteErrors : list string) (successCount : Z) (p : Proc W),
    0 <= successCount ->
    successCount + GoInt.len ids <= GoInt.max_int ->
    successCount <= (value (delete_loop h ids deleteErrors successCount p)).2
      <= successCount + GoInt.len ids.
Proof.
  unfold GoInt.len.
  induction ids as [|id rest IH]; intros deleteErrors successCount p Hnn Hmax.
  - cbn. lia.
  - cbn [length] in Hmax |- *.
    destruct (Messages_Trash h id (world p)) as [[email|err] w] eqn:Hcall.
    + destruct (decide ("TRASH" ∈ LabelIds email)) as [Hin|Hin].
      * rewrite (delete_loop_trashed h _ _ _ _ _ _ _ Hcall Hin). cbv zeta.
        rewrite value_mk, add_no_overflow by (unfold GoInt.min_int; lia).
        specialize (IH deleteErrors (successCount + 1)
                      (set_world p (time_Sleep h (100 * Millisecond) w))
                      ltac:(lia) ltac:(lia)). lia.
      * rewrite (delete_loop_not_trashed h _ _ _ _ _ _ _ Hcall Hin). cbv zeta.
        rewrite value_mk.
        specialize (IH (deleteErrors ++ ["message " +:+ id +:+ " was not moved to trash successfully"])
                      successCount
                      (set_world p (time_Sleep h (100 * Millisecond) w))
                      ltac:(lia) ltac:(lia)). lia.
    + rewrite (delete_loop_failed h _ _ _ _ _ _ _ Hcall). cbv zeta. rewrite value_mk.
      specialize (IH (deleteErrors ++ ["failed to delete message " +:+ id +:+ ": " +:+ err])
                    successCount (set_world p w) ltac:(lia) ltac:(lia)). lia.
Qed.

Lemma delete_loop_prints (ids : list string) :
  forall (deleteErrors : list string) (successCount : Z) (p : Proc W),
    0 <= successCount ->
    successCount + GoInt.len ids <= GoInt.max_int ->
    let r := delete_loop h ids deleteErrors successCount p in
    prints (trace r) =
      (fun k => progress_text (10 * k)) <$>
        seqZ (successCount / 10 + 1) ((value r).2 / 10 - successCount / 10).
Proof.
  unfold GoInt.len.
  induction ids as [|id rest IH]; intros deleteErrors successCount p Hnn Hmax;
    cbv zeta.
  - cbn [delete_loop]. unfold ret. rewrite value_mk, trace_mk. cbn [snd].
    by rewrite Z.sub_diag, seqZ_nil.
  - cbn [length] in Hmax.
    destruct (Messages_Trash h id (world p)) as [[email|err] w] eqn:Hcall.
    + destruct (decide ("TRASH" ∈ LabelIds email)) as [Hin|Hin].
      * rewrite (delete_loop_trashed h _ _ _ _ _ _ _ Hcall Hin). cbv zeta.
        rewrite value_mk, trace_mk, add_no_overflow by (unfold GoInt.min_int; lia).
        set (p' := set_world p (time_Sleep h (100 * Millisecond) w)).
        pose proof (delete_loop_count_bounds rest deleteErrors (successCount + 1) p'
                      ltac:(lia) ltac:(unfold GoInt.len; lia)) as Hb.
        specialize (IH deleteErrors (successCount + 1) p' ltac:(lia) ltac:(lia)).
        cbv zeta in IH.
        set (c' := (value (delete_loop h rest deleteErrors (successCount + 1) p')).2) in *.
        rewrite prints_cons. cbn [as_print]. rewrite prints_app, prints_progress.
        rewrite prints_cons. cbn [as_print]. rewrite IH.
        unfold GoInt.rem. rewrite Z.rem_mod_nonneg by lia.
        assert (successCount / 10 <= c' / 10) by (apply Z.div_le_mono; lia).
        destruct ((successCount + 1) mod 10 =? 0) eqn:E.
        -- apply Z.eqb_eq in E.
           assert ((successCount + 1) / 10 = successCount / 10 + 1) as Hq
             by (Z.div_mod_to_equations; lia).
           assert (successCount / 10 + 1 <= c' / 10)
             by (rewrite <- Hq; apply Z.div_le_mono; lia).
           rewrite (seqZ_cons (successCount / 10 + 1)) by lia.
           rewrite fmap_cons. cbn [app]. f_equal.
           ++ f_equal. Z.div_mod_to_equations; lia.
           ++ rewrite Hq. do 2 f_equal; lia.
        -- apply Z.eqb_neq in E.
           assert ((successCount + 1) / 10 = successCount / 10) as Hq
             by (Z.div_mod_to_equations; lia).
           cbn [app]. by rewrite Hq.
      * rewrite (delete_loop_not_trashed h _ _ _ _ _ _ _ Hcall Hin). cbv zeta.
        rewrite value_mk, trace_mk, !prints_cons. cbn [as_print].
        by apply IH; lia.
    + rewrite (delete_loop_failed h _ _ _ _ _ _ _ Hcall). cbv zeta.
      rewrite value_mk, trace_mk, !prints_cons. cbn [as_print].
      by apply IH; lia.
Qed.

(** X3: the loop prints one progress line at every tenth confirmed
    deletion and nothing else: the lines for 10, 20, ... up to the final
    [successCount], in this order. *)
Theorem progress_every_tenth (ids : list string) (p : Proc W) :
  GoInt.len ids <= GoInt.max_int ->
  let loop := delete_loop h ids [] 0 p in
  prints (trace loop) =
    (fun k => progress_text (10 * k)) <$> seqZ 1 ((value loop).2 / 10).
Proof.
  intros Hlen. cbv zeta.
  rewrite (delete_loop_prints ids [] 0 p) by lia.
  change (0 / 10) with 0. do 2 f_equal. lia.
Qed.

Lemma delete_loop_errors (ids : list string) :
  forall (deleteErrors : list string) (successCount : Z) (p : Proc W),
    let r := delete_loop h ids deleteErrors successCount p in
    (value r).1 = deleteErrors ++ omap failure_text (trash_calls (trace r)) /\
    Forall deletion_event (trace r).
Proof.
  induction ids as [|id rest IH]; intros deleteErrors successCount p; cbv zeta.
  - cbn [delete_loop]. unfold ret. rewrite value_mk, trace_mk. cbn [fst].
    split; [by rewrite app_nil_r|constructor].
  - destruct (Messages_Trash h id (world p)) as [[email|err] w] eqn:Hcall.
    + destruct (decide ("TRASH" ∈ LabelIds email)) as [Hin|Hin].
      * rewrite (delete_loop_trashed h _ _ _ _ _ _ _ Hcall Hin). cbv zeta.
        rewrite value_mk, trace_mk.
        destruct (IH deleteErrors (GoInt.add successCount 1)
                    (set_world p (time_Sleep h (100 * Millisecond) w))) as [IH1 IH2].
        rewrite trash_calls_cons, trash_calls_app, trash_calls_progress,
          trash_calls_cons.
        cbn [as_trash app omap list_omap]. unfold failure_text at 1. cbn [fst snd].
        rewrite bool_decide_eq_true_2 by done. split; [exact IH1|].
        constructor; [done|]. apply Forall_app. split.
        -- unfold progress. destruct (_ =? 0); repeat constructor.
        -- by constructor.
      * rewrite (delete_loop_not_trashed h _ _ _ _ _ _ _ Hcall Hin). cbv zeta.
        rewrite value_mk, trace_mk.
        destruct (IH (deleteErrors ++ ["message " +:+ id +:+ " was not moved to trash successfully"])
                    successCount
                    (set_world p (time_Sleep h (100 * Millisecond) w))) as [IH1 IH2].
        rewrite !trash_calls_cons. cbn [as_trash omap list_omap].
        unfold failure_text at 1. cbn [fst snd].
        rewrite bool_decide_eq_false_2 by done.
        split; [by rewrite IH1, <- app_assoc|]. by repeat constructor.
    + rewrite (delete_loop_failed h _ _ _ _ _ _ _ Hcall). cbv zeta.
      rewrite value_mk, trace_mk.
      destruct (IH (deleteErrors ++ ["failed to delete message " +:+ id +:+ ": " +:+ err])
                  successCount (set_world p w)) as [IH1 IH2].
      rewrite !trash_calls_cons. cbn [as_trash omap list_omap].
      unfold failure_text at 1. cbn [fst snd].
      split; [by rewrite IH1, <- app_assoc|]. by constructor.
Qed.

(** X4: [deleteErrors] holds, in the order of the attempts, one entry per
    attempt that was not confirmed, and the entry names the ID: the remote
    error for a failed call, "was not moved to trash" for an answer without
    the [TRASH] label.  When there is such an entry, the run ends by
    printing these entries, one line each. *)
Theorem failures_name_their_ids (ids : list string) (p : Proc W) :
  let loop := delete_loop h ids [] 0 p in
  let run := deleteEmails h ids p in
  (value loop).1 = omap failure_text (trash_calls (trace run)) /\
  ((value loop).1 <> [] ->
   exists before,
     trace run =
       before ++ EvPrint ("Error details:" +:+ nl) ::
         ((fun errMsg => EvPrint ("- " +:+ errMsg +:+ nl)) <$> (value loop).1)).
Proof.
  cbv zeta. rewrite deleteEmails_run. cbv zeta. rewrite trace_mk.
  rewrite trash_calls_app, trash_calls_summary, app_nil_r.
  destruct (delete_loop_errors ids [] 0 p) as [He _]. cbv zeta in He.
  rewrite app_nil_l in He. split; [done|].
  intros Hne. unfold summary.
  destruct (Z.gtb_spec (GoInt.len (value (delete_loop h ids [] 0 p)).1) 0) as [Hgt|Hle].
  - eexists (trace (delete_loop h ids [] 0 p) ++ [_; _; _]).
    rewrite <- app_assoc. reflexivity.
  - destruct ((value (delete_loop h ids [] 0 p)).1); [done|].
    unfold GoInt.len in Hle. cbn [length] in Hle. lia.
Qed.

Lemma deleteEmails_events (ids : list string) (p : Proc W) :
  Forall deletion_event (trace (deleteEmails h ids p)).
Proof.
  rewrite deleteEmails_run. cbv zeta. rewrite trace_mk. apply Forall_app. split.
  - apply (delete_loop_errors ids [] 0 p).
  - unfold summary. apply Forall_app. split; [by repeat constructor|].
    destruct (_ >? 0); [|constructor].
    apply Forall_app. split; [by repeat constructor|].
    apply Forall_fmap, Forall_true. done.
Qed.

(** X5: a batch deletion talks to the service through [Trash] calls only,
    sleeps and prints; it lists nothing, fetches nothing and touches no
    file. *)
Theorem deleteEmails_only_trashes (ids : list string) (p : Proc W) :
  Forall deletion_event (trace (deleteEmails h ids p)) /\
  list_calls (trace (deleteEmails h ids p)) = [] /\
  get_calls (trace (deleteEmails h ids p)) = [].
Proof.
  pose proof (deleteEmails_events ids p) as Hev.
  split; [done|].
  induction Hev as [|ev tr Hk _ [IH1 IH2]]; [done|].
  unfold list_calls, get_calls in *. cbn [omap list_omap].
  destruct ev; cbn in Hk; try done; cbn; by rewrite ?IH1, ?IH2.
Qed.

End DeleteEmailsMore.

Lemma failures_name_their_ids_witness :
  let run := deleteEmails (scripted demo) ["m1"; "m2"; "m3"] (start []) in
  exists before,
    trace run =
      before ++
        [EvPrint ("Error details:" +:+ nl);
         EvPrint ("- failed to delete message m2: "
                  +:+ "googleapi: Error 429: Too Many Requests" +:+ nl);
         EvPrint ("- message m3 was not moved to trash successfully" +:+ nl)].
Proof.
  cbv zeta.
  destruct (failures_name_their_ids (scripted demo) ["m1"; "m2"; "m3"] (start []))
    as [_ H].
  destruct H as [before Hb]; [vm_compute; discriminate|].
  exists before. rewrite Hb. by f_equal.
Defined.

Lemma progress_every_tenth_witness :
  let ids := replicate 12 "m1" in
  prints (trace (delete_loop (scripted demo) ids [] 0 (start []))) =
    [progress_text 10].
Proof.
  cbv zeta.
  rewrite (progress_every_tenth (scripted demo) (replicate 12 "m1") (start []))
    by (vm_compute; discriminate).
  assert ((value (delete_loop (scripted demo) (replicate 12 "m1") [] 0 (start []))).2
          = 12) as -> by (vm_compute; reflexivity).
  reflexivity.
Defined.

(** ** [getSenderStats], once more *)

Section HarvestMore.
Context {W : Type} (h : Host W).

Lemma message_loop_events (msgs : list Message) :
  forall (senderMap : gmap string SenderStats) (p : Proc W),
    let r := message_loop h msgs senderMap p in
    Forall harvest_event (trace r) /\
    prints (trace r) = notice_text <$> omap failed_fetch (get_calls (trace r)).
Proof.
  induction msgs as [|msg rest IH]; intros senderMap p; cbv zeta.
  - cbn [message_loop]. unfold ret. rewrite trace_mk. by split; [constructor|].
  - destruct (Messages_Get h (Id msg) (world p)) as [[message|err] w] eqn:Hcall.
    + rewrite (message_loop_fetched h _ _ _ _ _ _ Hcall). cbv zeta. rewrite trace_mk.
      destruct (IH (header_loop (Headers (Payload message)) (Id msg) senderMap)
                  (set_world p w)) as [IH1 IH2].
      split; [by constructor|].
      rewrite prints_cons, get_calls_cons. cbn [as_print as_get omap list_omap].
      exact IH2.
    + rewrite (message_loop_failed h _ _ _ _ _ _ Hcall). cbv zeta. rewrite trace_mk.
      destruct (IH senderMap (set_world p w)) as [IH1 IH2].
      split; [by repeat constructor|].
      rewrite !prints_cons, !get_calls_cons. cbn [as_print as_get notice].
      change (omap failed_fetch ((Id msg, Err err) :: ?l))
        with (Id msg :: omap failed_fetch l).
      rewrite fmap_cons. by rewrite IH2.
Qed.

Lemma page_loop_events (fuel : nat) :
  forall (pageToken : string) (senderMap : gmap string SenderStats) (p : Proc W),
    let r := page_loop h fuel pageToken senderMap p in
    Forall harvest_event (trace r) /\
    prints (trace r) = notice_text <$> omap failed_fetch (get_calls (trace r)).
Proof.
  induction fuel as [|fuel IH]; intros pageToken senderMap p; cbv zeta.
  - cbn [page_loop]. unfold ret. rewrite trace_mk. by split; [constructor|].
  - destruct (Messages_List h (page_request pageToken) (world p))
      as [[r|err] w] eqn:Hcall.
    + destruct (message_loop_events (Messages r) senderMap (set_world p w))
        as [M1 M2].
      destruct (decide (NextPageToken r = "")) as [Htok|Htok].
      * rewrite (page_loop_last h _ _ _ _ _ _ Hcall Htok). cbv zeta. rewrite trace_mk.
        split; [by constructor|].
        by rewrite prints_cons, get_calls_cons.
      * rewrite (page_loop_more h _ _ _ _ _ _ Hcall Htok). cbv zeta. rewrite trace_mk.
        set (ml := message_loop h (Messages r) senderMap (set_world p w)) in *.
        destruct (IH (NextPageToken r) (value ml) (final ml)) as [IH1 IH2].
        split; [constructor; [done|by apply Forall_app]|].
        rewrite prints_cons, get_calls_cons. cbn [as_print as_get].
        by rewrite prints_app, get_calls_app, omap_app, fmap_app, M2, IH2.
    + rewrite (page_loop_failed h _ _ _ _ _ _ Hcall). rewrite trace_mk.
      split; [by repeat constructor|done].
Qed.

(** X6: a harvest only reads: every interaction is a page listing, a
    metadata fetch or a line on the console (no trash call, no pause, no
    file access), and the lines it prints are exactly the notices for the
    IDs whose fetch failed, in order.  This holds for every run, returned
    or not. *)
Theorem harvest_only_reads (fuel : nat) (p : Proc W) :
  let tr := trace (getSenderStats h fuel p) in
  Forall harvest_event tr /\
  prints tr = notice_text <$> omap failed_fetch (get_calls tr).
Proof.
  cbv zeta. destruct (getSenderStats_run h fuel p) as [-> _].
  apply page_loop_events.
Qed.

(** X7: on an empty mailbox (the first page lists nothing and carries no
    token) [getSenderStats] returns the nil slice and no error after this
    one request. *)
Theorem harvest_of_empty_mailbox (fuel : nat) (p : Proc W) r w :
  Messages_List h None (world p) = (Ok r, w) ->
  Messages r = [] ->
  NextPageToken r = "" ->
  value (getSenderStats h (S fuel) p) = Some ([], None) /\
  trace (getSenderStats h (S fuel) p) = [EvList None (Ok r)].
Proof.
  intros Hcall Hmsgs Htok.
  destruct (getSenderStats_run h (S fuel) p) as [Htr Hv]. cbv zeta in Hv.
  unfold harvest in *.
  rewrite (page_loop_last h fuel "" ∅ p r w Hcall Htok) in Htr, Hv.
  cbv zeta in Htr, Hv. rewrite Hmsgs in Htr, Hv. cbn [message_loop] in Htr, Hv.
  unfold ret in Htr, Hv. rewrite ?value_mk, ?trace_mk in Htr, Hv.
  destruct Hv as (stats & Hv & Hperm). rewrite map_to_list_empty in Hperm.
  apply Permutation_nil_r in Hperm. subst stats. by split.
Qed.

(** X8: every record that [getSenderStats] returns has at least one ID and
    a count of at least one; its [Email] is what [extractEmail] made of the
    first [From] header of a fetched message, and is itself a fixed point
    of [extractEmail]. *)
Theorem records_are_inhabited (fuel : nat) (p : Proc W) (stats : list SenderStats) :
  value (getSenderStats h fuel p) = Some (stats, None) ->
  (forall r, r ∈ stats -> GoInt.len (Ids r) <= GoInt.max_int) ->
  forall r, r ∈ stats ->
    Ids r <> [] /\ 1 <= Count r /\
    (exists id message header,
       EvGet id (Ok message) ∈ trace (getSenderStats h fuel p) /\
       first_from (Headers (Payload message)) = Some header /\
       Email r = extractEmail (Value header)) /\
    extractEmail (Email r) = Email r.
Proof.
  intros Hret Hfit r Hr.
  destruct (getSenderStats_returned h fuel p stats None Hret)
    as (_ & _ & _ & [(_ & Hperm & _)|(_ & req & msg & Herr & _)]); [|done].
  destruct (elem_of_stats _ _ _ Hperm Hr) as (Hids & Hne & Hc & _).
  assert (exists id message header,
            EvGet id (Ok message) ∈ trace (getSenderStats h fuel p) /\
            first_from (Headers (Payload message)) = Some header /\
            Email r = extractEmail (Value header)) as Hfrom.
  { destruct (Ids r) as [|id ids] eqn:Hi; [done|].
    assert (id ∈ ids_of (Email r) (senders (trace (getSenderStats h fuel p))))
      as Hin by (rewrite <- Hids; by left).
    apply elem_of_ids_of, elem_of_senders in Hin as (message & Hget & Hs).
    unfold sender_of in Hs.
    destruct (first_from (Headers (Payload message))) as [header|] eqn:Hf; [|done].
    injection Hs as Hs. by exists id, message, header. }
  split; [done|]. split; [|split; [done|]].
  - rewrite Hc, wrap_small.
    + destruct (Ids r); [done|]. unfold GoInt.len. cbn [length]. lia.
    + specialize (Hfit r Hr). unfold GoInt.min_int, GoInt.len in *. lia.
  - destruct Hfrom as (_ & _ & header & _ & _ & ->).
    destruct (extractEmail_result (Value header)) as [Heq|Hno].
    + by rewrite !Heq.
    + by apply extractEmail_no_lt.
Qed.

Lemma elem_of_senders_2 email id message tr :
  EvGet id (Ok message) ∈ tr -> sender_of message = Some email ->
  (email, id) ∈ senders tr.
Proof.
  intros Hin Hs. unfold senders, fetched, get_calls.
  apply list_elem_of_omap. exists (id, message). split.
  - apply list_elem_of_omap. exists (id, Ok message). split; [|done].
    apply list_elem_of_omap. by exists (EvGet id (Ok message)).
  - unfold logged. cbn [fst snd]. by rewrite Hs.
Qed.

Lemma elem_of_ids_of_2 email id log : (email, id) ∈ log -> id ∈ ids_of email log.
Proof.
  intros Hin. unfold ids_of. apply list_elem_of_fmap. exists (email, id).
  split; [done|]. by apply list_elem_of_filter.
Qed.

(** X9: no fetched message with a [From] header is lost: its ID is in the
    returned record of its sender. *)
Theorem fetched_messages_are_recorded (fuel : nat) (p : Proc W)
    (stats : list SenderStats) id message email :
  value (getSenderStats h fuel p) = Some (stats, None) ->
  EvGet id (Ok message) ∈ trace (getSenderStats h fuel p) ->
  sender_of message = Some email ->
  exists r, r ∈ stats /\ Email r = email /\ id ∈ Ids r.
Proof.
  intros Hret Hget Hs.
  destruct (getSenderStats_returned h fuel p stats None Hret)
    as (_ & _ & _ & [(_ & Hperm & _)|(_ & req & msg & Herr & _)]); [|done].
  pose proof (elem_of_ids_of_2 _ _ _ (elem_of_senders_2 _ _ _ _ Hget Hs)) as Hin.
  pose proof (aggregate_lookup (senders (trace (getSenderStats h fuel p))) email) as Hl.
  destruct (ids_of email (senders (trace (getSenderStats h fuel p)))) as [|i ids] eqn:Hids;
    [by apply elem_of_nil in Hin|].
  cbn [record_for] in Hl. eexists. split; [|split].
  - rewrite Hperm. apply list_elem_of_fmap. eexists (email, _). split; [done|].
    apply elem_of_map_to_list. exact Hl.
  - done.
  - done.
Qed.

End HarvestMore.

Lemma harvest_of_empty_mailbox_witness :
  value (getSenderStats (scripted demo) 1 (start [page [] ""])) = Some ([], None).
Proof.
  exact (proj1 (harvest_of_empty_mailbox (scripted demo) 0 (start [page [] ""])
                  _ _ eq_refl eq_refl eq_refl)).
Defined.

Lemma records_are_inhabited_witness :
  value (getSenderStats (scripted demo) 5 (start demo_pages)) = Some (demo_stats, None) /\
  exists id message header,
    EvGet id (Ok message) ∈ trace (getSenderStats (scripted demo) 5 (start demo_pages)) /\
    first_from (Headers (Payload message)) = Some header /\
    "bob@y.org" = extractEmail (Value header).
Proof.
  assert (value (getSenderStats (scripted demo) 5 (start demo_pages))
          = Some (demo_stats, None)) as Hret by (vm_compute; reflexivity).
  split; [exact Hret|].
  destruct (records_are_inhabited (scripted demo) 5 (start demo_pages) demo_stats
              Hret demo_stats_fit
              {| Email := "bob@y.org"; Count := 1; Ids := ["m2"] |}
              ltac:(apply list_elem_of_lookup; exists 1%nat; reflexivity))
    as (_ & _ & H & _).
  exact H.
Defined.

Lemma fetched_messages_are_recorded_witness :
  exists r, r ∈ demo_stats /\ Email r = "a@x.com" /\ "m3" ∈ Ids r.
Proof.
  apply (fetched_messages_are_recorded (scripted demo) 5 (start demo_pages)
           demo_stats "m3" (meta "m3" "a@x.com") "a@x.com").
  - vm_compute. reflexivity.
  - apply list_elem_of_lookup. exists 6%nat. vm_compute. reflexivity.
  - vm_compute. reflexivity.
Defined.

(** ** The token functions, once more *)

(** Every event of an explicit list is of the wanted kind. *)
Ltac events_ok := repeat (constructor; [cbn; tauto|]); constructor.

Section TokenMore.
Context {W : Type} (h : Host W).

Lemma tokenFromFile_run file (p : Proc W) :
  tokenFromFile h file p =
    (match (os_ReadFile h file (world p)).1 with
     | Ok data => (Some (json_Unmarshal h data).1, (json_Unmarshal h data).2)
     | Err err => (None, Some err)
     end,
     set_world p (os_ReadFile h file (world p)).2,
     [EvReadFile file (os_ReadFile h file (world p)).1]).
Proof.
  unfold tokenFromFile, bind, call.
  destruct (os_ReadFile h file (world p)) as [[data|err] w]; cbn [fst snd].
  - by destruct (json_Unmarshal h data).
  - done.
Qed.

Lemma wg_Wait_run (p : Proc W) :
  wg_Wait h p =
    let queryCode := (callback_request h (world p)).1 in
    let p1 := set_world p (callback_request h (world p)).2 in
    if String.eqb queryCode "" then
      (tt, set_authErr p1 (Some "no code in callback"),
       [EvCallback queryCode; EvRespond 400 ("no code provided" +:+ nl)])
    else
      (tt, set_authCode p1 queryCode,
       [EvCallback queryCode; EvRespond 200 ("Authorisation successful." +:+ nl)]).
Proof.
  unfold wg_Wait, bind, call, callback_handler.
  destruct (callback_request h (world p)) as [queryCode w]. cbn [fst snd].
  cbv zeta. by destruct (String.eqb queryCode "").
Qed.

Lemma deferred_shutdown_run (p : Proc W) :
  deferred_shutdown h p =
    (tt, set_world p (Shutdown h (world p)).2,
     shutdown_events (Shutdown h (world p)).1).
Proof.
  unfold deferred_shutdown, bind, call, log_Printf, emit, ret, shutdown_events.
  by destruct (Shutdown h (world p)) as [[err|] w].
Qed.

Lemma after_callback_events config (p : Proc W) :
  Forall (fun ev => ~ is_shutdown ev /\ ~ is_write ev /\ ~ is_callback ev)
    (trace (after_callback h config p)) /\
  (authErr p <> None ->
   value (after_callback h config p) = (None, authErr p) /\
   Forall (fun ev => ~ is_exchange ev) (trace (after_callback h config p))).
Proof.
  unfold after_callback, bind, read_authErr, read_authCode, call, Printf, emit, ret.
  destruct (authErr p) as [err|].
  - rewrite value_mk, trace_mk. cbn [app]. split; [|intros _; split; [done|]].
    + constructor; [|constructor]. cbn. tauto.
    + constructor; [|constructor]. cbn. tauto.
  - split; [|done].
    destruct (Exchange h config (authCode p) (world p)) as [[tok|err] w];
      rewrite trace_mk; cbn [app]; (constructor; [|constructor]); cbn; tauto.
Qed.

(** The run of [getTokenFromWeb], piece by piece. *)
Lemma getTokenFromWeb_run config (p : Proc W) :
  let url := EvPrint ("Please visit the following URL to authorize this application:"
                      +:+ nl +:+ AuthCodeURL h config "state-token" +:+ nl) in
  let wait := wg_Wait h p in
  let body := after_callback h config (final wait) in
  value (getTokenFromWeb h config p) = value body /\
  trace (getTokenFromWeb h config p) =
    url :: trace wait ++ trace body ++
      shutdown_events (Shutdown h (world (final body))).1.
Proof.
  cbv zeta. unfold getTokenFromWeb. cbv zeta.
  repeat progress rewrite ?value_bind, ?trace_bind, ?final_bind.
  unfold Printf at 1 2 3 4 5, emit, ret.
  rewrite ?value_mk, ?final_mk, ?trace_mk, deferred_shutdown_run, ?trace_mk.
  split; [done|]. cbn [app]. by rewrite app_nil_r.
Qed.

(** X10: when the token file can be read and parsed, [getClient] does
    nothing else: one file read, no authorisation URL, no callback, no
    exchange, no write; the client carries the token that was read. *)
Theorem getClient_reuses_cached_token config (p : Proc W) data tok w :
  os_ReadFile h "token.json" (world p) = (Ok data, w) ->
  json_Unmarshal h data = (tok, None) ->
  getClient h config p =
    ((Some {| client_config := config; client_token := Some tok |}, None),
     set_world p w,
     [EvReadFile "token.json" (Ok data)]).
Proof.
  intros Hread Hjson. unfold getClient. cbv zeta.
  rewrite bind_run, tokenFromFile_run, Hread, value_mk, final_mk, trace_mk.
  cbn [fst snd]. rewrite Hjson. cbn [fst snd]. unfold ret.
  by rewrite value_mk, final_mk, trace_mk.
Qed.

(** X11: when the callback carries no code, [getTokenFromWeb] returns the
    error "no code in callback" and no token, answers the request with
    status 400, never calls the token endpoint, and still shuts the
    listener down. *)
Theorem getTokenFromWeb_without_code config (p : Proc W) w :
  callback_request h (world p) = ("", w) ->
  let run := getTokenFromWeb h config p in
  value run = (None, Some "no code in callback") /\
  EvRespond 400 ("no code provided" +:+ nl) ∈ trace run /\
  Forall (fun ev => ~ is_exchange ev) (trace run) /\
  (exists resp, EvShutdown resp ∈ trace run).
Proof.
  intros Hcb. cbv zeta.
  destruct (getTokenFromWeb_run config p) as [Hv Ht]. cbv zeta in Hv, Ht.
  rewrite Hv, Ht. clear Hv Ht.
  rewrite wg_Wait_run, Hcb. cbv zeta. cbn [fst snd String.eqb].
  rewrite final_mk, trace_mk.
  set (p1 := set_authErr (set_world p w) (Some "no code in callback")).
  destruct (after_callback_events config p1) as [_ Hb].
  destruct (Hb ltac:(done)) as [Hv Hex]. rewrite Hv.
  split; [done|]. split; [|split].
  - right. right. by left.
  - constructor; [cbn; tauto|]. apply Forall_app. split; [events_ok|].
    apply Forall_app. split; [done|].
    unfold shutdown_events. destruct (Shutdown h _).1; events_ok.
  - eexists. apply elem_of_cons. right. apply elem_of_app. right.
    apply elem_of_app. right. unfold shutdown_events. by left.
Qed.

(** X12: [getTokenFromWeb] shuts the listener down exactly once and as its
    last action, whatever happened before; a failed shutdown is logged and
    does not change what the function returns. *)
Theorem getTokenFromWeb_shuts_down config (p : Proc W) :
  let run := getTokenFromWeb h config p in
  exists before resp,
    trace run = before ++ shutdown_events resp /\
    Forall (fun ev => ~ is_shutdown ev) before /\
    value run = value (after_callback h config (final (wg_Wait h p))).
Proof.
  cbv zeta. destruct (getTokenFromWeb_run config p) as [Hv Ht]. cbv zeta in Hv, Ht.
  eexists (_ :: _ ++ _), _. split; [|split; [|exact Hv]].
  - rewrite Ht. cbn [app]. by rewrite <- app_assoc.
  - constructor; [cbn; tauto|]. apply Forall_app. split.
    + rewrite wg_Wait_run. cbv zeta. destruct (String.eqb _ "");
        rewrite trace_mk; events_ok.
    + eapply Forall_impl; [apply (proj1 (after_callback_events _ _))|].
      intros ev; cbn; tauto.
Qed.

(** X13: [getClient] returns an error only when the token file could not
    be loaded and the web flow failed as well; it then returns no client
    and has written no file. *)
Theorem getClient_error_writes_nothing config (p : Proc W) :
  let load := tokenFromFile h "token.json" p in
  let web := getTokenFromWeb h config (final load) in
  let run := getClient h config p in
  (value run).2 <> None ->
  (value load).2 <> None /\ (value run).2 = (value web).2 /\
  (value run).1 = None /\
  Forall (fun ev => ~ is_write ev) (trace run).
Proof.
  cbv zeta. unfold getClient. cbv zeta. rewrite value_bind, trace_bind.
  destruct ((value (tokenFromFile h "token.json" p)).2) as [e1|] eqn:Hload.
  - rewrite value_bind, trace_bind.
    destruct ((value (getTokenFromWeb h config (final (tokenFromFile h "token.json" p)))).2)
      as [e2|] eqn:Hweb.
    + unfold ret. rewrite value_mk, trace_mk. cbn [fst snd]. intros _.
      split; [done|]. split; [done|]. split; [done|].
      apply Forall_app. split.
      * rewrite tokenFromFile_run, trace_mk. events_ok.
      * rewrite app_nil_r.
        destruct (getTokenFromWeb_run config (final (tokenFromFile h "token.json" p)))
          as [_ Ht]. cbv zeta in Ht. rewrite Ht.
        constructor; [cbn; tauto|]. apply Forall_app. split.
        -- rewrite wg_Wait_run. cbv zeta. destruct (String.eqb _ "");
             rewrite trace_mk; events_ok.
        -- apply Forall_app. split.
           ++ eapply Forall_impl; [apply (proj1 (after_callback_events _ _))|].
      intros ev; cbn; tauto.
           ++ unfold shutdown_events. destruct (Shutdown h _).1; events_ok.
    + rewrite value_bind. unfold ret. rewrite value_mk. by cbn.
  - unfold ret. rewrite value_mk. by cbn.
Qed.

(** X14: what [saveToken] writes is what [tokenFromFile] reads back: on a
    file system that keeps the file and with a JSON encoding that decodes
    to the token it encoded, loading after saving returns the saved
    token. *)
Theorem saveToken_tokenFromFile path tok (p : Proc W) data w1 w2 :
  json_Marshal h (Some tok) = Ok data ->
  json_Unmarshal h data = (tok, None) ->
  os_WriteFile h path data 384 (world p) = (None, w1) ->
  os_ReadFile h path w1 = (Ok data, w2) ->
  let save := saveToken h path (Some tok) p in
  value save = None /\
  value (tokenFromFile h path (final save)) = (Some tok, None).
Proof.
  intros Hm Hu Hw Hr. cbv zeta.
  rewrite saveToken_run, Hm, Hw, value_mk, final_mk. cbn [fst snd].
  split; [done|].
  rewrite tokenFromFile_run, value_mk. cbn [world set_world].
  rewrite Hr. cbn [fst snd]. by rewrite Hu.
Qed.

End TokenMore.

Lemma getClient_reuses_cached_token_witness :
  trace (getClient disk_host demo_config (start demo_disk)) =
    [EvReadFile "token.json" (Ok "ya29.a0AfH6SM")].
Proof.
  by rewrite (getClient_reuses_cached_token disk_host demo_config
                (start demo_disk)
                "ya29.a0AfH6SM" demo_token demo_disk
                ltac:(vm_compute; reflexivity) eq_refl).
Defined.

Lemma getTokenFromWeb_without_code_witness :
  value (getTokenFromWeb disk_host demo_config (start no_files)) =
    (None, Some "no code in callback").
Proof.
  exact (proj1 (getTokenFromWeb_without_code disk_host demo_config (start no_files) no_files eq_refl)).
Defined.

Lemma getClient_error_writes_nothing_witness :
  (value (getClient disk_host demo_config (start no_files))).1 = None /\
  Forall (fun ev => ~ is_write ev) (trace (getClient disk_host demo_config (start no_files))).
Proof.
  destruct (getClient_error_writes_nothing disk_host demo_config (start no_files)
              ltac:(vm_compute; discriminate)) as (_ & _ & H1 & H2).
  by split.
Defined.

Lemma saveToken_tokenFromFile_witness :
  value (tokenFromFile disk_host "token.json"
           (final (saveToken disk_host "token.json" (Some demo_token) (start no_files)))) =
    (Some demo_token, None).
Proof.
  exact (proj2 (saveToken_tokenFromFile disk_host "token.json" demo_token (start no_files)
                  "ya29.a0AfH6SM" demo_disk
                  demo_disk
                  eq_refl eq_refl ltac:(vm_compute; reflexivity)
                  ltac:(vm_compute; reflexivity))).
Defined.

(** ** [processEmails] *)

Section ProcessEmails.
Context {W : Type} (h : Host W) (t : Terminal W).

Lemma index_Some (senderStats : list SenderStats) (i : Z) :
  0 <= i < GoInt.len senderStats ->
  exists sender,
    index senderStats i = Some sender /\
    senderStats !! Z.to_nat i = Some sender.
Proof.
  intros Hi. unfold index, GoInt.len in *.
  replace (0 <=? i) with true by (symmetry; apply Z.leb_le; lia).
  replace (i <? Z.of_nat (length senderStats)) with true
    by (symmetry; apply Z.ltb_lt; lia).
  cbn [andb]. destruct (lookup_lt_is_Some_2 senderStats (Z.to_nat i)) as [s Hs]; [lia|].
  by exists s.
Qed.

(** One iteration of the prompt loop. *)
Lemma prompt_loop_step fuel (senderStats : list SenderStats) i sender (p : Proc W) :
  i < GoInt.len senderStats ->
  index senderStats i = Some sender ->
  let response := ToLower t (Scanln t (world p)).1 in
  let p1 := set_world p (Scanln t (world p)).2 in
  prompt_loop h t (S fuel) senderStats i p =
    if String.eqb response "yes" then
      let d := deleteEmails h (Ids sender) p1 in
      let r := prompt_loop h t fuel senderStats (GoInt.add i 1) (final d) in
      (value r, final r,
       shown i sender ++ deleting sender :: trace d ++ deleted sender (value d) :: trace r)
    else if String.eqb response "no" then
      let r := prompt_loop h t fuel senderStats (GoInt.add i 1) p1 in
      (value r, final r, shown i sender ++ trace r)
    else if String.eqb response "quit" then
      (Finished, p1, shown i sender ++ [quitting])
    else
      let r := prompt_loop h t fuel senderStats (GoInt.add (GoInt.add i (-1)) 1) p1 in
      (value r, final r, shown i sender ++ retrying :: trace r).
Proof.
  intros Hlt Hidx. cbv zeta. cbn [prompt_loop].
  replace (i <? GoInt.len senderStats) with true by (symmetry; by apply Z.ltb_lt).
  rewrite Hidx. unfold bind at 1 2 3, Printf at 1 2, emit, scan.
  destruct (Scanln t (world p)) as [response w]. cbn [fst snd].
  destruct (String.eqb (ToLower t response) "yes").
  - unfold bind, Printf, emit.
    destruct (deleteEmails h (Ids sender) (set_world p w)) as [[err p2] t2].
    rewrite value_mk, final_mk, trace_mk. unfold deleted.
    destruct err as [err|];
      destruct (prompt_loop h t fuel senderStats (GoInt.add i 1) p2) as [[e p3] t3];
      rewrite value_mk, final_mk, trace_mk; reflexivity.
  - destruct (String.eqb (ToLower t response) "no").
    + by destruct (prompt_loop h t fuel senderStats (GoInt.add i 1) (set_world p w))
        as [[e p3] t3].
    + destruct (String.eqb (ToLower t response) "quit").
      * unfold bind, Printf, emit, ret. done.
      * unfold bind, Printf, emit. cbv zeta.
        by destruct (prompt_loop h t fuel senderStats _ (set_world p w)) as [[e p3] t3].
Qed.

Lemma prompt_loop_done fuel (senderStats : list SenderStats) i (p : Proc W) :
  GoInt.len senderStats <= i ->
  prompt_loop h t (S fuel) senderStats i p = (Finished, p, []).
Proof.
  intros Hge. cbn [prompt_loop].
  by replace (i <? GoInt.len senderStats) with false by (symmetry; apply Z.ltb_ge; lia).
Qed.

Section Ranking.
Variable senderStats : list SenderStats.
Hypothesis Hlen : GoInt.len senderStats <= GoInt.max_int.

Lemma next_index i : 0 <= i < GoInt.len senderStats -> GoInt.add i 1 = i + 1.
Proof. intros Hi. apply add_no_overflow. unfold GoInt.min_int. lia. Qed.

Lemma same_index i :
  0 <= i < GoInt.len senderStats -> GoInt.add (GoInt.add i (-1)) 1 = i.
Proof.
  intros Hi. rewrite (add_no_overflow i (-1)) by (unfold GoInt.min_int; lia).
  rewrite add_no_overflow by (unfold GoInt.min_int; lia). lia.
Qed.

(** The loop keeps its index within the slice: it returns or keeps
    running, and what it does besides printing is trash calls and their
    pauses. *)
Lemma prompt_loop_safe (fuel : nat) :
  forall i (p : Proc W),
    0 <= i ->
    let r := prompt_loop h t fuel senderStats i p in
    (value r = Finished \/ value r = Running) /\
    Forall deletion_event (trace r).
Proof.
  induction fuel as [|fuel IH]; intros i p Hi; cbv zeta.
  - cbn [prompt_loop]. unfold ret. rewrite value_mk, trace_mk.
    split; [by right|constructor].
  - destruct (Z.lt_ge_cases i (GoInt.len senderStats)) as [Hlt|Hge].
    + destruct (index_Some senderStats i ltac:(lia)) as (sender & Hidx & _).
      rewrite (prompt_loop_step fuel senderStats i sender p Hlt Hidx). cbv zeta.
      rewrite next_index, same_index by lia.
      destruct (String.eqb _ "yes").
      * rewrite value_mk, trace_mk.
        destruct (IH (i + 1) (final (deleteEmails h (Ids sender)
                                       (set_world p (Scanln t (world p)).2)))
                    ltac:(lia)) as [IH1 IH2].
        split; [done|]. apply Forall_app. split; [(unfold shown, quitting; events_ok)|].
        constructor; [by cbn|]. apply Forall_app. split.
        -- apply deleteEmails_events.
        -- constructor; [|done]. unfold deleted.
           destruct (value (deleteEmails _ _ _)); exact I.
      * destruct (String.eqb _ "no").
        -- rewrite value_mk, trace_mk.
           destruct (IH (i + 1) (set_world p (Scanln t (world p)).2) ltac:(lia))
             as [IH1 IH2].
           split; [done|]. apply Forall_app. split; [(unfold shown, quitting; events_ok)|done].
        -- destruct (String.eqb _ "quit").
           ++ rewrite value_mk, trace_mk. split; [by left|].
              apply Forall_app. split; unfold shown, quitting; events_ok.
           ++ rewrite value_mk, trace_mk.
              destruct (IH i (set_world p (Scanln t (world p)).2) ltac:(lia))
                as [IH1 IH2].
              split; [done|]. apply Forall_app.
              split; [unfold shown; events_ok|by constructor].
    + rewrite prompt_loop_done by lia. rewrite value_mk, trace_mk.
      split; [by left|constructor].
Qed.

End Ranking.

Lemma sorted_len (senderStats : list SenderStats) :
  GoInt.len (sort_Slice t senderStats) = GoInt.len senderStats.
Proof. unfold GoInt.len. by rewrite (sort_Slice_perm t senderStats). Qed.

Lemma processEmails_run fuel (senderStats : list SenderStats) (p : Proc W) :
  let r := prompt_loop h t fuel (sort_Slice t senderStats) 0 p in
  processEmails h t fuel senderStats p = (value r, final r, top_senders :: trace r).
Proof.
  cbv zeta. unfold processEmails, bind, Printf, emit. cbv zeta.
  by destruct (prompt_loop h t fuel (sort_Slice t senderStats) 0 p) as [[e p1] t1].
Qed.

(** X15: [processEmails] never indexes its slice out of range and never
    exits the process: it returns or is still prompting; besides printing,
    all it does are trash calls and their pauses. *)
Theorem processEmails_stays_in_range fuel (senderStats : list SenderStats)
    (p : Proc W) :
  GoInt.len senderStats <= GoInt.max_int ->
  let run := processEmails h t fuel senderStats p in
  (value run = Finished \/ value run = Running) /\
  Forall deletion_event (trace run).
Proof.
  intros Hlen. cbv zeta. rewrite processEmails_run. cbv zeta.
  rewrite value_mk, trace_mk.
  destruct (prompt_loop_safe (sort_Slice t senderStats)
              ltac:(by rewrite sorted_len) fuel 0 p ltac:(lia)) as [H1 H2].
  split; [done|]. by constructor.
Qed.

End ProcessEmails.

Lemma processEmails_stays_in_range_witness :
  value (processEmails (scripted demo) (answering "Yes") 5 unsorted_stats (start []))
    = Finished.
Proof.
  destruct (processEmails_stays_in_range (scripted demo) (answering "Yes") 5
              unsorted_stats (start []) ltac:(vm_compute; discriminate))
    as [[H|H] _]; [exact H|].
  vm_compute in H. discriminate H.
Defined.

Section ProcessEmailsAnswers.
Context {W : Type} (h : Host W) (t : Terminal W).

Lemma delete_loop_attempts (ids : list string) :
  forall (deleteErrors : list string) (successCount : Z) (p : Proc W),
    (trash_calls (trace (delete_loop h ids deleteErrors successCount p))).*1 = ids.
Proof.
  induction ids as [|id rest IH]; intros deleteErrors successCount p; [done|].
  destruct (Messages_Trash h id (world p)) as [[email|err] w] eqn:Hcall.
  - destruct (decide ("TRASH" ∈ LabelIds email)) as [Hin|Hin].
    + rewrite (delete_loop_trashed h _ _ _ _ _ _ _ Hcall Hin). cbv zeta.
      rewrite trace_mk, trash_calls_cons, trash_calls_app, trash_calls_progress,
        trash_calls_cons.
      cbn [as_trash app fmap list_fmap fst]. by rewrite IH.
    + rewrite (delete_loop_not_trashed h _ _ _ _ _ _ _ Hcall Hin). cbv zeta.
      rewrite trace_mk, !trash_calls_cons. cbn [as_trash fmap list_fmap fst].
      by rewrite IH.
  - rewrite (delete_loop_failed h _ _ _ _ _ _ _ Hcall). cbv zeta.
    rewrite trace_mk, !trash_calls_cons. cbn [as_trash fmap list_fmap fst].
    by rewrite IH.
Qed.

Lemma deleteEmails_attempts (ids : list string) (p : Proc W) :
  (trash_calls (trace (deleteEmails h ids p))).*1 = ids.
Proof.
  rewrite deleteEmails_run. cbv zeta.
  rewrite trace_mk, trash_calls_app, trash_calls_summary, app_nil_r.
  apply delete_loop_attempts.
Qed.

Lemma trash_calls_shown i sender : trash_calls (shown i sender) = [].
Proof. done. Qed.

Section Answers.
Variable senderStats : list SenderStats.
Hypothesis Hlen : GoInt.len senderStats <= GoInt.max_int.

Lemma drop_index i sender :
  0 <= i -> senderStats !! Z.to_nat i = Some sender ->
  drop (Z.to_nat i) senderStats = sender :: drop (Z.to_nat (i + 1)) senderStats.
Proof.
  intros Hi Hl. rewrite (drop_S _ _ _ Hl). do 2 f_equal. lia.
Qed.

(** Every answer reads "no". *)
Lemma prompt_loop_all_no (fuel : nat) :
  (forall w, ToLower t (Scanln t w).1 = "no") ->
  forall i (p : Proc W),
    0 <= i <= GoInt.len senderStats ->
    GoInt.len senderStats - i < Z.of_nat fuel ->
    let r := prompt_loop h t fuel senderStats i p in
    value r = Finished /\
    trace r = rows i (drop (Z.to_nat i) senderStats).
Proof.
  intros Hno. induction fuel as [|fuel IH]; intros i p Hi Hfuel; cbv zeta.
  - unfold GoInt.len in *. lia.
  - destruct (Z.lt_ge_cases i (GoInt.len senderStats)) as [Hlt|Hge].
    + destruct (index_Some senderStats i ltac:(lia)) as (sender & Hidx & Hl).
      rewrite (prompt_loop_step h t fuel senderStats i sender p Hlt Hidx). cbv zeta.
      rewrite Hno. cbn [String.eqb Ascii.eqb Bool.eqb].
      rewrite (next_index senderStats Hlen) by lia.
      destruct (IH (i + 1) (set_world p (Scanln t (world p)).2) ltac:(lia) ltac:(lia))
        as [IH1 IH2].
      rewrite value_mk, trace_mk, IH2, (drop_index i sender) by (done || lia).
      by split.
    + rewrite prompt_loop_done by lia. rewrite value_mk, trace_mk.
      rewrite drop_ge by (unfold GoInt.len in *; lia). by split.
Qed.

(** Every answer reads "yes". *)
Lemma prompt_loop_all_yes (fuel : nat) :
  (forall w, ToLower t (Scanln t w).1 = "yes") ->
  forall i (p : Proc W),
    0 <= i <= GoInt.len senderStats ->
    GoInt.len senderStats - i < Z.of_nat fuel ->
    let r := prompt_loop h t fuel senderStats i p in
    value r = Finished /\
    (trash_calls (trace r)).*1 = mjoin (Ids <$> drop (Z.to_nat i) senderStats).
Proof.
  intros Hyes. induction fuel as [|fuel IH]; intros i p Hi Hfuel; cbv zeta.
  - unfold GoInt.len in *. lia.
  - destruct (Z.lt_ge_cases i (GoInt.len senderStats)) as [Hlt|Hge].
    + destruct (index_Some senderStats i ltac:(lia)) as (sender & Hidx & Hl).
      rewrite (prompt_loop_step h t fuel senderStats i sender p Hlt Hidx). cbv zeta.
      rewrite Hyes. cbn [String.eqb Ascii.eqb Bool.eqb]. cbn iota.
      rewrite (next_index senderStats Hlen) by lia.
      set (d := deleteEmails h (Ids sender) (set_world p (Scanln t (world p)).2)).
      destruct (IH (i + 1) (final d) ltac:(lia) ltac:(lia)) as [IH1 IH2].
      rewrite value_mk, trace_mk. split; [done|].
      rewrite trash_calls_app, trash_calls_shown, app_nil_l, trash_calls_cons.
      cbn [as_trash deleting]. rewrite trash_calls_app, trash_calls_cons.
      assert (as_trash (deleted sender (value d)) = None) as ->
        by (unfold deleted; by destruct (value d)).
      rewrite fmap_app, IH2, (drop_index i sender) by (done || lia).
      rewrite fmap_cons. cbn [mjoin list_join]. f_equal.
      apply deleteEmails_attempts.
    + rewrite prompt_loop_done by lia. rewrite value_mk, trace_mk.
      rewrite drop_ge by (unfold GoInt.len in *; lia). by split.
Qed.

(** No answer reads "yes". *)
Lemma prompt_loop_without_yes (fuel : nat) :
  (forall w, ToLower t (Scanln t w).1 <> "yes") ->
  forall i (p : Proc W),
    0 <= i -> Forall is_print (trace (prompt_loop h t fuel senderStats i p)).
Proof.
  intros Hyes. induction fuel as [|fuel IH]; intros i p Hi.
  - constructor.
  - destruct (Z.lt_ge_cases i (GoInt.len senderStats)) as [Hlt|Hge].
    + destruct (index_Some senderStats i ltac:(lia)) as (sender & Hidx & _).
      rewrite (prompt_loop_step h t fuel senderStats i sender p Hlt Hidx). cbv zeta.
      rewrite (next_index senderStats Hlen), (same_index senderStats Hlen) by lia.
      pose proof (Hyes (world p)) as Hne. apply String.eqb_neq in Hne. rewrite Hne.
      destruct (String.eqb _ "no"); [|destruct (String.eqb _ "quit")];
        rewrite trace_mk.
      * apply Forall_app. split; [unfold shown; events_ok|]. apply IH. lia.
      * apply Forall_app. split; unfold shown, quitting; events_ok.
      * apply Forall_app. split; [unfold shown; events_ok|].
        constructor; [exact I|]. by apply IH.
    + rewrite prompt_loop_done by lia. constructor.
Qed.

(** No answer is one of the three words. *)
Lemma prompt_loop_unanswered (fuel : nat) :
  (forall w, ToLower t (Scanln t w).1 <> "yes" /\
             ToLower t (Scanln t w).1 <> "no" /\
             ToLower t (Scanln t w).1 <> "quit") ->
  forall i (p : Proc W),
    0 <= i < GoInt.len senderStats ->
    value (prompt_loop h t fuel senderStats i p) = Running.
Proof.
  intros Hnone. induction fuel as [|fuel IH]; intros i p Hi; [done|].
  destruct (index_Some senderStats i Hi) as (sender & Hidx & _).
  rewrite (prompt_loop_step h t fuel senderStats i sender p ltac:(lia) Hidx). cbv zeta.
  destruct (Hnone (world p)) as (H1 & H2 & H3).
  apply String.eqb_neq in H1, H2, H3. rewrite H1, H2, H3.
  rewrite value_mk, (same_index senderStats Hlen) by lia. by apply IH.
Qed.

End Answers.

Lemma rows_ranking (senderStats : list SenderStats) :
  sort_Slice t senderStats ≡ₚ senderStats /\
  StronglySorted by_count (sort_Slice t senderStats).
Proof. split; [apply sort_Slice_perm|apply sort_Slice_sorted]. Qed.

(** X16: when every answer is "no", [processEmails] returns after it has
    shown every sender once: the header, then for each sender a numbered
    line and the question, the senders by descending count and numbered
    from 1; nothing is trashed. *)
Theorem processEmails_all_no fuel (senderStats : list SenderStats) (p : Proc W) :
  GoInt.len senderStats <= GoInt.max_int ->
  (forall w, ToLower t (Scanln t w).1 = "no") ->
  (length senderStats < fuel)%nat ->
  let run := processEmails h t fuel senderStats p in
  let ranked := sort_Slice t senderStats in
  value run = Finished /\
  trace run = top_senders :: rows 0 ranked /\
  ranked ≡ₚ senderStats /\ StronglySorted by_count ranked.
Proof.
  intros Hlen Hno Hfuel. cbv zeta. rewrite processEmails_run. cbv zeta.
  rewrite value_mk, trace_mk.
  destruct (prompt_loop_all_no (sort_Slice t senderStats)
              ltac:(by rewrite sorted_len) fuel Hno 0 p) as [H1 H2].
  { unfold GoInt.len. lia. }
  { rewrite sorted_len. unfold GoInt.len. lia. }
  rewrite H2. change (Z.to_nat 0) with 0%nat. rewrite drop_0.
  split; [done|]. split; [done|]. apply rows_ranking.
Qed.

(** X17: unless an answer reads "yes" (after lowering), [processEmails]
    does nothing but print: no trash call, no pause, for any number of
    iterations. *)
Theorem processEmails_needs_yes fuel (senderStats : list SenderStats) (p : Proc W) :
  GoInt.len senderStats <= GoInt.max_int ->
  (forall w, ToLower t (Scanln t w).1 <> "yes") ->
  Forall is_print (trace (processEmails h t fuel senderStats p)).
Proof.
  intros Hlen Hyes. rewrite processEmails_run. cbv zeta. rewrite trace_mk.
  constructor; [exact I|].
  apply prompt_loop_without_yes; [by rewrite sorted_len|done|lia].
Qed.

(** X18: when every answer is "yes", [processEmails] attempts the IDs of
    every sender, sender by sender in the order of the ranking and within a
    sender in the order of its IDs, and returns. *)
Theorem processEmails_all_yes fuel (senderStats : list SenderStats) (p : Proc W) :
  GoInt.len senderStats <= GoInt.max_int ->
  (forall w, ToLower t (Scanln t w).1 = "yes") ->
  (length senderStats < fuel)%nat ->
  let run := processEmails h t fuel senderStats p in
  value run = Finished /\
  (trash_calls (trace run)).*1 = mjoin (Ids <$> sort_Slice t senderStats).
Proof.
  intros Hlen Hyes Hfuel. cbv zeta. rewrite processEmails_run. cbv zeta.
  rewrite value_mk, trace_mk.
  destruct (prompt_loop_all_yes (sort_Slice t senderStats)
              ltac:(by rewrite sorted_len) fuel Hyes 0 p) as [H1 H2].
  { unfold GoInt.len. lia. }
  { rewrite sorted_len. unfold GoInt.len. lia. }
  split; [done|]. rewrite trash_calls_cons. cbn [as_trash top_senders].
  rewrite H2. change (Z.to_nat 0) with 0%nat. by rewrite drop_0.
Qed.

(** X19: when no answer is "yes", "no" or "quit" (in particular when
    standard input is exhausted and every [response] stays empty) and
    there is a sender, [processEmails] does not return: the loop takes its
    index back and asks about the same sender again, for ever. *)
Theorem processEmails_unanswered_never_returns fuel (senderStats : list SenderStats)
    (p : Proc W) :
  GoInt.len senderStats <= GoInt.max_int ->
  senderStats <> [] ->
  (forall w, ToLower t (Scanln t w).1 <> "yes" /\
             ToLower t (Scanln t w).1 <> "no" /\
             ToLower t (Scanln t w).1 <> "quit") ->
  value (processEmails h t fuel senderStats p) = Running.
Proof.
  intros Hlen Hne Hnone. rewrite processEmails_run. cbv zeta. rewrite value_mk.
  apply prompt_loop_unanswered; [by rewrite sorted_len|done|].
  rewrite sorted_len. unfold GoInt.len. destruct senderStats; [done|].
  cbn [length]. lia.
Qed.

(** X20: the answer "quit" to the first question ends [processEmails]
    there: it has shown the sender with the greatest count as number 1,
    asked once and trashed nothing. *)
Theorem processEmails_quit_at_once fuel (senderStats : list SenderStats) (p : Proc W) :
  senderStats <> [] ->
  ToLower t (Scanln t (world p)).1 = "quit" ->
  exists top,
    top ∈ senderStats /\
    (forall r, r ∈ senderStats -> Count r <= Count top) /\
    processEmails h t (S fuel) senderStats p =
      (Finished, set_world p (Scanln t (world p)).2,
       top_senders :: shown 0 top ++ [quitting]).
Proof.
  intros Hne Hquit.
  destruct (rows_ranking senderStats) as [Hperm Hsorted].
  destruct (sort_Slice t senderStats) as [|top others] eqn:Hs.
  { apply Permutation_nil_l in Hperm. by subst. }
  exists top. split; [|split].
  - rewrite <- Hperm. by left.
  - intros r Hr. rewrite <- Hperm in Hr. apply StronglySorted_inv in Hsorted as [_ Hall].
    apply elem_of_cons in Hr as [->|Hr]; [lia|].
    rewrite Forall_forall in Hall. by apply Hall.
  - rewrite processEmails_run. cbv zeta. rewrite Hs.
    rewrite (prompt_loop_step h t fuel (top :: others) 0 top p); cycle 1.
    { unfold GoInt.len. cbn [length]. lia. }
    { unfold index, GoInt.len. cbn [length].
      replace (0 <? Z.of_nat (S (length others))) with true
        by (symmetry; apply Z.ltb_lt; lia). done. }
    cbv zeta. rewrite Hquit. cbn [String.eqb Ascii.eqb Bool.eqb].
    by rewrite value_mk, final_mk, trace_mk.
Qed.

End ProcessEmailsAnswers.

Lemma processEmails_all_no_witness :
  trace (processEmails (scripted demo) (answering "NO") 3 unsorted_stats (start [])) =
    top_senders :: rows 0 demo_stats.
Proof.
  destruct (processEmails_all_no (scripted demo) (answering "NO") 3 unsorted_stats
              (start []) ltac:(vm_compute; discriminate)
              ltac:(intros w; vm_compute; reflexivity) ltac:(cbn; lia))
    as (_ & Ht & _).
  rewrite Ht. vm_compute. reflexivity.
Defined.

Lemma processEmails_needs_yes_witness :
  Forall is_print
    (trace (processEmails (scripted demo) (answering "maybe") 7 unsorted_stats (start []))).
Proof.
  apply processEmails_needs_yes.
  - vm_compute. discriminate.
  - intros w. vm_compute. discriminate.
Defined.

Lemma processEmails_all_yes_witness :
  (trash_calls (trace (processEmails (scripted demo) (answering "yes") 3
                         unsorted_stats (start [])))).*1 = ["m1"; "m3"; "m2"].
Proof.
  destruct (processEmails_all_yes (scripted demo) (answering "yes") 3 unsorted_stats
              (start []) ltac:(vm_compute; discriminate)
              ltac:(intros w; vm_compute; reflexivity) ltac:(cbn; lia))
    as (_ & Ht).
  rewrite Ht. vm_compute. reflexivity.
Defined.

Lemma processEmails_unanswered_never_returns_witness :
  value (processEmails (scripted demo) (answering "") 100 unsorted_stats (start []))
    = Running.
Proof.
  apply processEmails_unanswered_never_returns.
  - vm_compute. discriminate.
  - discriminate.
  - intros w. vm_compute. repeat split; discriminate.
Defined.

Lemma processEmails_quit_at_once_witness :
  exists top,
    top ∈ unsorted_stats /\
    (forall r, r ∈ unsorted_stats -> Count r <= Count top) /\
    processEmails (scripted demo) (answering "Quit") 1 unsorted_stats (start []) =
      (Finished, start [], top_senders :: shown 0 top ++ [quitting]).
Proof.
  apply (processEmails_quit_at_once (scripted demo) (answering "Quit") 0
           unsorted_stats (start [])).
  - discriminate.
  - vm_compute. reflexivity.
Defined.

(** ** [main] *)

Section Main.
Context {W : Type} (h : Host W) (t : Terminal W).

Lemma after_callback_token_events config (p : Proc W) :
  Forall token_event (trace (after_callback h config p)).
Proof.
  unfold after_callback, bind, read_authErr, read_authCode, call, Printf, emit, ret.
  destruct (authErr p) as [err|].
  - rewrite trace_mk. events_ok.
  - destruct (Exchange h config (authCode p) (world p)) as [[tok|err] w];
      rewrite trace_mk; events_ok.
Qed.

Lemma getClient_events config (p : Proc W) :
  Forall token_event (trace (getClient h config p)).
Proof.
  unfold getClient. cbv zeta. rewrite trace_bind. apply Forall_app. split.
  { rewrite tokenFromFile_run, trace_mk. events_ok. }
  destruct ((value (tokenFromFile h "token.json" p)).2) as [e1|].
  - rewrite trace_bind. apply Forall_app. split.
    + destruct (getTokenFromWeb_run h config (final (tokenFromFile h "token.json" p)))
        as [_ Ht]. cbv zeta in Ht. rewrite Ht.
      constructor; [exact I|]. apply Forall_app. split.
      * rewrite wg_Wait_run. cbv zeta. destruct (String.eqb _ "");
          rewrite trace_mk; events_ok.
      * apply Forall_app. split; [apply after_callback_token_events|].
        unfold shutdown_events. destruct (Shutdown h _).1; events_ok.
    + destruct ((value (getTokenFromWeb h config _)).2) as [e2|].
      * unfold ret. rewrite trace_mk. constructor.
      * rewrite trace_bind. apply Forall_app. split.
        -- rewrite saveToken_run. destruct (json_Marshal h _); rewrite trace_mk; events_ok.
        -- unfold ret. rewrite trace_mk. constructor.
  - unfold ret. rewrite trace_mk. constructor.
Qed.

(** X21: [getClient] does not touch the mailbox: no listing, no fetch, no
    trash call, no pause. *)
Theorem getClient_leaves_the_mailbox_alone config (p : Proc W) :
  let tr := trace (getClient h config p) in
  Forall token_event tr /\
  list_calls tr = [] /\ get_calls tr = [] /\ trash_calls tr = [] /\ sleeps tr = [].
Proof.
  cbv zeta. pose proof (getClient_events config p) as Hev.
  split; [done|].
  induction Hev as [|ev tr Hk _ (IH1 & IH2 & IH3 & IH4)]; [done|].
  unfold list_calls, get_calls, trash_calls, sleeps in *. cbn [omap list_omap].
  destruct ev; cbn in Hk; try done; cbn; by rewrite ?IH1, ?IH2, ?IH3, ?IH4.
Qed.

Lemma prompt_loop_not_fatal (fuel : nat) :
  forall (senderStats : list SenderStats) i (p : Proc W),
    value (prompt_loop h t fuel senderStats i p) <> Fatal.
Proof.
  induction fuel as [|fuel IH]; intros senderStats i p; [done|].
  cbn [prompt_loop]. destruct (i <? GoInt.len senderStats); [|done].
  destruct (index senderStats i) as [sender|]; [|done].
  rewrite !value_bind.
  destruct (String.eqb _ "yes").
  { rewrite !value_bind. apply IH. }
  destruct (String.eqb _ "no"); [apply IH|].
  destruct (String.eqb _ "quit").
  { rewrite value_bind. done. }
  rewrite value_bind. apply IH.
Qed.

Lemma NewService_run client (p : Proc W) :
  NewService t client p =
    ((gmail_NewService t client (world p)).1,
     set_world p (gmail_NewService t client (world p)).2, []).
Proof. unfold NewService. by destruct (gmail_NewService t client (world p)). Qed.

Lemma log_Fatalf_run text (p : Proc W) :
  log_Fatalf text p = (Fatal, p, [EvLog text]).
Proof. done. Qed.

(** X22: without a readable credentials file [main] exits at once: one
    file read, one line on the log, status 1, and nothing else. *)
Theorem main_needs_credentials pages prompts (p : Proc W) err w :
  os_ReadFile h "credentials.json" (world p) = (Err err, w) ->
  main h t pages prompts p =
    (Fatal, set_world p w,
     [EvReadFile "credentials.json" (Err err);
      EvLog ("Unable to read credentials file: " +:+ err +:+ nl)]).
Proof.
  intros Hread. unfold main. rewrite bind_run, call_run, Hread.
  rewrite value_mk, final_mk, trace_mk. cbn [fst snd].
  by rewrite log_Fatalf_run, value_mk, final_mk, trace_mk.
Qed.

(** X23: when [main] exits through [log.Fatalf], no message was trashed:
    every trash call of a run comes after the credentials, the client, the
    service and the whole harvest were obtained without error. *)
Theorem main_fatal_trashes_nothing pages prompts (p : Proc W) :
  value (main h t pages prompts p) = Fatal ->
  Forall (fun ev => ~ is_trash ev) (trace (main h t pages prompts p)).
Proof.
  unfold main. rewrite value_bind, trace_bind, call_run.
  rewrite value_mk, final_mk, trace_mk.
  destruct (os_ReadFile h "credentials.json" (world p)) as [[data|err] w];
    cbn [fst snd]; [|intros _; rewrite log_Fatalf_run, trace_mk; events_ok].
  destruct (json_Unmarshal_Credentials t data) as [creds [err|]];
    [intros _; rewrite log_Fatalf_run, trace_mk; events_ok|].
  cbv zeta. rewrite value_bind, trace_bind.
  set (config := {| ClientID := Web_ClientID creds;
                    ClientSecret := Web_ClientSecret creds;
                    RedirectURL := "http://localhost:8080/callback" |}).
  set (c := getClient h config (set_world p w)).
  assert (Forall (fun ev => ~ is_trash ev) (trace c)) as Hc.
  { eapply Forall_impl; [apply getClient_events|].
    intros []; cbn; tauto. }
  destruct ((value c).2) as [err|].
  { intros _. rewrite log_Fatalf_run, trace_mk.
    constructor; [cbn; tauto|]. apply Forall_app. split; [done|events_ok]. }
  rewrite value_bind, trace_bind, !NewService_run, !value_mk, !final_mk, !trace_mk.
  destruct (gmail_NewService t (value c).1 (world (final c))) as [[err|] w1];
    cbn [fst snd].
  { intros _. rewrite log_Fatalf_run, trace_mk.
    constructor; [cbn; tauto|]. apply Forall_app. split; [done|events_ok]. }
  rewrite value_bind, trace_bind. cbn [app].
  set (p2 := set_world (final c) w1).
  assert (Forall (fun ev => ~ is_trash ev) (trace (getSenderStats h pages p2))) as Hs.
  { destruct (getSenderStats_run h pages p2) as [-> _].
    eapply Forall_impl; [apply (proj1 (page_loop_events h pages "" ∅ p2))|].
    intros []; cbn; tauto. }
  destruct (value (getSenderStats h pages p2)) as [[stats [err|]]|];
    cbv beta iota.
  - intros _. rewrite log_Fatalf_run, trace_mk.
    constructor; [cbn; tauto|]. apply Forall_app. split; [done|].
    apply Forall_app. split; [done|events_ok].
  - rewrite processEmails_run. cbv zeta. rewrite value_mk. intros Hf.
    by apply prompt_loop_not_fatal in Hf.
  - unfold ret. by rewrite value_mk.
Qed.

End Main.

Lemma main_needs_credentials_witness :
  value (main (scripted demo) (answering "no") 5 5 (start demo_pages)) = Fatal.
Proof.
  by rewrite (main_needs_credentials (scripted demo) (answering "no") 5 5
                (start demo_pages) "open token.json: no such file or directory"
                demo_pages eq_refl).
Defined.

Lemma main_fatal_trashes_nothing_witness :
  let run := main (scripted demo_online) (answering "yes") 5 5 (start broken_pages) in
  last (trace run) =
    Some (EvLog ("Unable to get sender statistics: "
                 +:+ "googleapi: Error 403: Quota exceeded" +:+ nl)) /\
  Forall (fun ev => ~ is_trash ev) (trace run).
Proof.
  cbv zeta. split; [vm_compute; reflexivity|].
  apply main_fatal_trashes_nothing. vm_compute. reflexivity.
Defined.

(** With a readable setup, an intact listing and the answer "yes" the same
    program does trash. *)
Example main_trashes_after_harvest :
  (trash_calls (trace (main (scripted demo_online) (answering "yes") 5 5
                         (start demo_pages)))).*1 = ["m1"; "m3"; "m2"].
Proof. vm_compute. reflexivity. Qed.
